(** * gargs: a command-line argument parser (Go), embedded in Rocq

    The development follows the two source files of the repository:

    - [gargs.go]: [coerceArgument], [Parse], [ParseArgs];
    - [godash.go]: [First], [Last].

    The Go standard-library functions the code calls ([strings.Trim],
    [strings.HasPrefix], [strings.Replace], [strings.Split],
    [strconv.ParseFloat], [strconv.ParseUint], [strconv.ParseBool]) are
    modelled first, each after its documented behaviour, as executable
    functions on byte strings. *)

From Stdlib Require Import ZArith Ascii String List Bool Lia.
From Stdlib Require Import Floats.SpecFloat.
From stdpp Require Import gmap strings list.

Local Open Scope Z_scope.

(** ** Bytes *)

(** A Go string is a sequence of bytes; [byte c] is the numeric value of
    the byte [c]. *)
Definition byte (c : ascii) : Z := Z.of_N (N_of_ascii c).

Definition between (lo : ascii) (c : Z) (hi : ascii) : bool :=
  (byte lo <=? c) && (c <=? byte hi).

(** ** Package [strings] *)
Module GoStrings.

(** [strings.HasPrefix(s, prefix)]. *)
Definition HasPrefix (s prefix : string) : bool := String.prefix prefix s.

(** Membership of a byte in a cutset of ASCII bytes. *)
Fixpoint in_cutset (c : ascii) (cutset : string) : bool :=
  match cutset with
  | EmptyString => false
  | String d rest => Ascii.eqb c d || in_cutset c rest
  end.

Fixpoint TrimLeft (s cutset : string) : string :=
  match s with
  | EmptyString => EmptyString
  | String c rest => if in_cutset c cutset then TrimLeft rest cutset else s
  end.

Fixpoint TrimRight (s cutset : string) : string :=
  match s with
  | EmptyString => EmptyString
  | String c rest =>
      match TrimRight rest cutset with
      | EmptyString => if in_cutset c cutset then EmptyString else String c EmptyString
      | t => String c t
      end
  end.

(** [strings.Trim(s, cutset)], for a cutset of ASCII bytes (the parser
    calls it with the cutset [" "] only): every leading and trailing
    byte of [s] that occurs in [cutset] is removed. *)
Definition Trim (s cutset : string) : string :=
  TrimRight (TrimLeft s cutset) cutset.

Fixpoint drop_bytes (n : nat) (s : string) : string :=
  match n, s with
  | O, _ => s
  | S _, EmptyString => EmptyString
  | S n', String _ rest => drop_bytes n' rest
  end.

(** [cut sep s] is Go's [strings.Cut(s, sep)]: the text before and after
    the first occurrence of [sep] in [s], when there is one. *)
Fixpoint cut (sep s : string) : option (string * string) :=
  if String.prefix sep s then Some (EmptyString, drop_bytes (String.length sep) s)
  else match s with
       | EmptyString => None
       | String c rest =>
           match cut sep rest with
           | Some (before, after) => Some (String c before, after)
           | None => None
           end
       end.

Fixpoint replace_upto (n : nat) (s old new : string) : string :=
  match n with
  | O => s
  | S n' =>
      match cut old s with
      | Some (before, after) => before +:+ new +:+ replace_upto n' after old new
      | None => s
      end
  end.

(** [strings.Replace(s, old, new, n)] for a non-empty [old] (as at every
    call site): the first [n] non-overlapping occurrences of [old] are
    replaced by [new]; a negative [n] puts no limit. *)
Definition Replace (s old new : string) (n : Z) : string :=
  replace_upto (if n <? 0 then String.length s else Z.to_nat n) s old new.

(** Width in bytes of the UTF-8 sequence at the head of a string, as
    [utf8.DecodeRuneInString] reports it: an invalid or truncated
    sequence has width 1. *)
Definition cont (lo hi : Z) (c : ascii) : bool := (lo <=? byte c) && (byte c <=? hi).

Definition rune_width (s : string) : nat :=
  match s with
  | EmptyString => 0%nat
  | String c0 rest =>
      let b := byte c0 in
      if b <? 128 then 1%nat
      else if (194 <=? b) && (b <=? 223) then
        match rest with
        | String c1 _ => if cont 128 191 c1 then 2%nat else 1%nat
        | _ => 1%nat
        end
      else if (224 <=? b) && (b <=? 239) then
        let lo := if b =? 224 then 160 else 128 in
        let hi := if b =? 237 then 159 else 191 in
        match rest with
        | String c1 (String c2 _) =>
            if cont lo hi c1 && cont 128 191 c2 then 3%nat else 1%nat
        | _ => 1%nat
        end
      else if (240 <=? b) && (b <=? 244) then
        let lo := if b =? 240 then 144 else 128 in
        let hi := if b =? 244 then 143 else 191 in
        match rest with
        | String c1 (String c2 (String c3 _)) =>
            if cont lo hi c1 && cont 128 191 c2 && cont 128 191 c3 then 4%nat else 1%nat
        | _ => 1%nat
        end
      else 1%nat
  end.

(** [take_bytes n s] is [s[:n]]. *)
Fixpoint take_bytes (n : nat) (s : string) : string :=
  match n, s with
  | S n', String c rest => String c (take_bytes n' rest)
  | _, _ => EmptyString
  end.

(** [explode]: one string per UTF-8 sequence.  [fuel] bounds the number
    of pieces; the length of [s] is enough since every piece has at least
    one byte. *)
Fixpoint explode_upto (fuel : nat) (s : string) : list string :=
  match fuel, s with
  | _, EmptyString => []
  | O, _ => [s]
  | S fuel', _ =>
      let w := rune_width s in
      take_bytes w s :: explode_upto fuel' (drop_bytes w s)
  end.

Definition explode (s : string) : list string := explode_upto (String.length s) s.

Fixpoint split_upto (fuel : nat) (s sep : string) : list string :=
  match fuel with
  | O => [s]
  | S fuel' =>
      match cut sep s with
      | Some (before, after) => before :: split_upto fuel' after sep
      | None => [s]
      end
  end.

(** [strings.Split(s, sep)]: with an empty separator the string is cut
    after each UTF-8 sequence; otherwise it is cut at every occurrence
    of [sep], which leaves one piece more than there are occurrences. *)
Definition Split (s sep : string) : list string :=
  match sep with
  | EmptyString => explode s
  | _ => split_upto (String.length s) s sep
  end.

End GoStrings.

(** ** IEEE 754 binary64 values *)

(** A [float64] is a NaN, an infinity, or the finite value
    [(-1)^neg * m * 2^e] with [0 <= m < 2^53] and [-1074 <= e <= 971],
    kept canonical: [2^52 <= m] unless [e = -1074] (subnormals and the two
    zeros, [m = 0]). *)
Inductive float64 : Type :=
| NaN
| Inf (neg : bool)
| Fin (neg : bool) (m : Z) (e : Z).

Definition float64_eqb (x y : float64) : bool :=
  match x, y with
  | NaN, NaN => true
  | Inf a, Inf b => Bool.eqb a b
  | Fin a m e, Fin b m' e' => Bool.eqb a b && (m =? m') && (e =? e')
  | _, _ => false
  end.

(** The canonical finite values. *)
Definition canonical (m e : Z) : Prop :=
  0 <= m < 2 ^ 53 /\ -1074 <= e <= 971 /\ (2 ^ 52 <= m \/ e = -1074).

(** Round-to-nearest, ties-to-even, of the quotient [n / d]. *)
Definition round_half_even (n d : Z) : Z :=
  let q := n / d in
  let r := n mod d in
  if 2 * r <? d then q
  else if d <? 2 * r then q + 1
  else if Z.even q then q else q + 1.

(** [floor (log2 (n / d))] for positive [n] and [d]. *)
Definition ilog2_ratio (n d : Z) : Z :=
  let t := Z.log2 n - Z.log2 d in
  if (if 0 <=? t then d * 2 ^ t <=? n else d <=? n * 2 ^ (- t)) then t else t - 1.

(** [round64 neg n d] is the binary64 nearest to [(-1)^neg * n / d]
    ([0 <= n], [0 < d]), ties to even; [None] when the rounded magnitude
    exceeds the largest finite binary64 (Go's [ErrRange]). *)
Definition round64 (neg : bool) (n d : Z) : option float64 :=
  if n =? 0 then Some (Fin neg 0 (-1074))
  else
    let e := Z.max (ilog2_ratio n d - 52) (-1074) in
    let m := if 0 <=? e then round_half_even n (d * 2 ^ e)
             else round_half_even (n * 2 ^ (- e)) d in
    let '(m, e) := if m =? 2 ^ 53 then (2 ^ 52, e + 1) else (m, e) in
    if 971 <? e then None else Some (Fin neg m e).

(** The binary64 nearest to [(-1)^neg * m * base^exp]. *)
Definition scaled64 (neg : bool) (base m exp : Z) : option float64 :=
  if 0 <=? exp then round64 neg (m * base ^ exp) 1
  else round64 neg m (base ^ (- exp)).

(** [float64(n)] for an unsigned integer [n]. *)
Definition float64_of_Z (n : Z) : option float64 := round64 false n 1.

(** The same value in the Standard Library's specification of IEEE 754
    numbers, against which [round64] is checked below. *)
Definition to_spec (f : float64) : spec_float :=
  match f with
  | NaN => S754_nan
  | Inf neg => S754_infinity neg
  | Fin neg (Zpos m) e => S754_finite neg m e
  | Fin neg _ _ => S754_zero neg
  end.

(** ** Package [strconv]

    The functions are those of Go 1.13 and later, where [ParseFloat] also
    reads hexadecimal literals and underscores between digits. *)
Module Strconv.

(** [lower(c)]: [c | ('x' - 'X')]. *)
Definition lower (c : Z) : Z := Z.lor c 32.

(** *** [ParseBool] *)
Definition ParseBool (str : string) : option bool :=
  if existsb (String.eqb str) ["1"; "t"; "T"; "true"; "TRUE"; "True"] then Some true
  else if existsb (String.eqb str) ["0"; "f"; "F"; "false"; "FALSE"; "False"] then Some false
  else None.

(** *** [ParseUint] *)

(** The digit loop of [ParseUint] for an explicit base between 2 and 36
    (underscores are accepted only with base 0): a byte that is not a
    digit of the base is a syntax error, a value above [maxVal] a range
    error; both are [None]. *)
Fixpoint parse_digits (base maxVal : Z) (s : string) (n : Z) : option Z :=
  match s with
  | EmptyString => Some n
  | String c rest =>
      let b := byte c in
      let d := if between "0" b "9" then Some (b - byte "0")
               else if between "a" (lower b) "z" then Some (lower b - byte "a" + 10)
               else None in
      match d with
      | None => None
      | Some d =>
          if base <=? d then None
          else if (2 ^ 64 - 1) / base + 1 <=? n then None
          else
            let n1 := n * base + d in
            if (2 ^ 64 <=? n1) || (maxVal <? n1) then None
            else parse_digits base maxVal rest n1
      end
  end.

Definition ParseUint (s : string) (base bitSize : Z) : option Z :=
  match s with
  | EmptyString => None
  | _ => parse_digits base (2 ^ bitSize - 1) s 0
  end.

(** *** [ParseFloat] *)

Fixpoint commonPrefixLenIgnoreCase (s prefix : string) : nat :=
  match s, prefix with
  | String c s', String p prefix' =>
      let b := byte c in
      let b := if between "A" b "Z" then b + 32 else b in
      if b =? byte p then S (commonPrefixLenIgnoreCase s' prefix') else O
  | _, _ => O
  end.

(** [special]: the infinities (optionally signed, ["inf"] or
    ["infinity"]) and ["nan"], in any case; the result carries the
    number of bytes read. *)
Definition special (s : string) : option (float64 * nat) :=
  let infinity (neg : bool) (nsign : nat) (s : string) :=
    let n := commonPrefixLenIgnoreCase s "infinity" in
    let n := if (3 <? n)%nat && (n <? 8)%nat then 3%nat else n in
    if (n =? 3)%nat || (n =? 8)%nat then Some (Inf neg, (nsign + n)%nat) else None in
  match s with
  | EmptyString => None
  | String c rest =>
      let b := byte c in
      if (b =? byte "+") || (b =? byte "-") then infinity (b =? byte "-") 1%nat rest
      else if (b =? byte "i") || (b =? byte "I") then infinity false 0%nat s
      else if (b =? byte "n") || (b =? byte "N") then
        if (commonPrefixLenIgnoreCase s "nan" =? 3)%nat then Some (NaN, 3%nat) else None
      else None
  end.

(** The state of the mantissa loop of [readFloat].  The mantissa is kept
    exactly: Go cuts it after 19 digits for its fast paths and reads all
    the digits again when the cut matters. *)
Record mant : Type := Mant {
  sawdot : bool;
  sawdigits : bool;
  underscores : bool;
  nd : Z;
  dp : Z;
  mantissa : Z
}.

Fixpoint read_mantissa (base : Z) (s : string) (st : mant) : mant * string :=
  match s with
  | EmptyString => (st, s)
  | String c rest =>
      let b := byte c in
      let '(Mant dot digits us nd dp m) := st in
      if b =? byte "_" then read_mantissa base rest (Mant dot digits true nd dp m)
      else if b =? byte "." then
        if dot then (st, s)
        else read_mantissa base rest (Mant true digits us nd nd m)
      else if between "0" b "9" then
        if (b =? byte "0") && (nd =? 0) then
          read_mantissa base rest (Mant dot true us nd (dp - 1) m)
        else
          read_mantissa base rest (Mant dot true us (nd + 1) dp (m * base + (b - byte "0")))
      else if (base =? 16) && between "a" (lower b) "f" then
        read_mantissa base rest
          (Mant dot true us (nd + 1) dp (m * 16 + (lower b - byte "a" + 10)))
      else (st, s)
  end.

(** The exponent loop of [readFloat]: decimal digits and underscores;
    the exponent stops growing once it has reached 10000. *)
Fixpoint read_exponent (s : string) (us : bool) (e : Z) : Z * bool * string :=
  match s with
  | EmptyString => (e, us, s)
  | String c rest =>
      let b := byte c in
      if b =? byte "_" then read_exponent rest true e
      else if between "0" b "9" then
        read_exponent rest us (if e <? 10000 then e * 10 + (b - byte "0") else e)
      else (e, us, s)
  end.

(** [underscoreOK]: an underscore stands only between digits, or between
    a base prefix and a digit. *)
Fixpoint underscore_scan (hex : bool) (saw : ascii) (s : string) : bool :=
  match s with
  | EmptyString => negb (Ascii.eqb saw "_")
  | String c rest =>
      let b := byte c in
      if between "0" b "9" || (hex && between "a" (lower b) "f") then
        underscore_scan hex "0" rest
      else if b =? byte "_" then
        if Ascii.eqb saw "0" then underscore_scan hex "_" rest else false
      else if Ascii.eqb saw "_" then false
      else underscore_scan hex "!" rest
  end.

Definition underscoreOK (s : string) : bool :=
  let s := match s with
           | String c rest => if (byte c =? byte "-") || (byte c =? byte "+") then rest else s
           | _ => s
           end in
  match s with
  | String c0 (String c1 rest) =>
      if (byte c0 =? byte "0")
         && ((lower (byte c1) =? byte "b") || (lower (byte c1) =? byte "o")
             || (lower (byte c1) =? byte "x"))
      then underscore_scan (lower (byte c1) =? byte "x") "0" rest
      else underscore_scan false "^" s
  | _ => underscore_scan false "^" s
  end.

(** What [readFloat] returns: the sign, the base (10, or 16 after a
    [0x] prefix), the mantissa and the exponent of the base (decimal) or
    of two (hexadecimal), and the text left unread. *)
Record number : Type := Number {
  neg : bool;
  hex : bool;
  mant_of : Z;
  exp_of : Z;
  unread : string
}.

(** The optional sign. *)
Definition read_sign (s : string) : bool * string :=
  match s with
  | String c rest =>
      if byte c =? byte "+" then (false, rest)
      else if byte c =? byte "-" then (true, rest)
      else (false, s)
  | EmptyString => (false, s)
  end.

(** The base prefix: [0x] or [0X] with at least one byte after it. *)
Definition read_base (s : string) : bool * string :=
  match s with
  | String d0 (String d1 ((String _ _) as rest)) =>
      if (byte d0 =? byte "0") && (lower (byte d1) =? byte "x")
      then (true, rest) else (false, s)
  | _ => (false, s)
  end.

(** The optional exponent, which moves the decimal point [dp]; a
    hexadecimal mantissa must have one.  [None] is a syntax error. *)
Definition read_exp (hex : bool) (s : string) (dp : Z) (us : bool)
    : option (Z * bool * string) :=
  let expChar := if hex then byte "p" else byte "e" in
  match s with
  | String x s1 =>
      if lower (byte x) =? expChar then
        match s1 with
        | EmptyString => None
        | String y s2 =>
            let '(esign, s3) :=
              if byte y =? byte "+" then (1, s2)
              else if byte y =? byte "-" then (-1, s2)
              else (1, s1) in
            match s3 with
            | String z _ =>
                if between "0" (byte z) "9" then
                  let '(e, us, unread) := read_exponent s3 us 0 in
                  Some (dp + e * esign, us, unread)
                else None
            | EmptyString => None
            end
        end
      else if hex then None
      else Some (dp, us, s)
  | EmptyString => if hex then None else Some (dp, us, s)
  end.

Definition readFloat (s : string) : option number :=
  match s with
  | EmptyString => None
  | String _ _ =>
      let '(neg, s1) := read_sign s in
      let '(hex, s2) := read_base s1 in
      let base := if hex then 16 else 10 in
      let '(Mant dot digits us nd dp m, s3) :=
        read_mantissa base s2 (Mant false false false 0 0 0) in
      if negb digits then None
      else
        let dp := if dot then dp else nd in
        let '(dp, nd) := if hex then (dp * 4, nd * 4) else (dp, nd) in
        match read_exp hex s3 dp us with
        | None => None
        | Some (dp, us, unread) =>
            let exp := if m =? 0 then 0 else dp - nd in
            let read := (String.length s - String.length unread)%nat in
            if us && negb (underscoreOK (GoStrings.take_bytes read s)) then None
            else Some (Number neg hex m exp unread)
        end
  end.

(** [ParseFloat(s, 64)]: the whole of [s] must be a floating-point
    literal (decimal, or hexadecimal with a binary exponent), an
    infinity or a NaN; the value is rounded to the nearest binary64, and
    a magnitude too large for binary64 is an error ([ErrRange]). *)
Definition ParseFloat (s : string) : option float64 :=
  match special s with
  | Some (f, n) => if (n =? String.length s)%nat then Some f else None
  | None =>
      match readFloat s with
      | None => None
      | Some (Number neg hex m exp unread) =>
          match unread with
          | String _ _ => None
          | EmptyString => scaled64 neg (if hex then 2 else 10) m exp
          end
      end
  end.

End Strconv.

(** ** gargs.go *)

Import GoStrings Strconv.

(** [Arg] is the source's alias of [interface{}].  The dynamic types the
    parser stores in it are [float64], [uint64] (what [ParseUint]
    returns), [bool], [string] and [[]Arg]. *)
#[local] Unset Elimination Schemes.
Inductive Arg : Type :=
| AFloat64 (f : float64)
| AUint64 (n : Z)
| ABool (b : bool)
| AString (s : string)
| ASlice (l : list Arg).
#[local] Set Elimination Schemes.

(** [val == b] for an interface value [val] and a boolean constant [b]:
    true only when the dynamic type of [val] is [bool] and the values
    agree (values of different dynamic types compare unequal). *)
Definition Arg_is (val : Arg) (b : bool) : bool :=
  match val with
  | ABool b' => Bool.eqb b' b
  | _ => false
  end.

(** [coerceArgument]: float64, then hexadecimal, then boolean, then the
    string itself. *)
Definition coerceArgument (value : string) : Arg :=
  match ParseFloat value with
  | Some f => AFloat64 f
  | None =>
      match (if HasPrefix value "0x"
             then ParseUint (Replace value "0x" "" 1) 16 32 else None) with
      | Some i => AUint64 i
      | None =>
          match ParseBool value with
          | Some b => ABool b
          | None => AString value
          end
      end
  end.

(** The run-time faults of the operations [Parse] performs. *)
Inductive error : Type :=
| slice_bounds_out_of_range
| index_out_of_range.

(** The variables of [Parse] that its first loop updates. *)
Record scan : Type := Scan {
  escaped : bool;
  escapedArgs : list Arg;
  sanitized : list string;
  parsed : gmap string Arg
}.

(** The first loop's body, for the raw argument [v]. *)
Definition sanitize (st : scan) (v : string) : scan :=
  let value := Trim v " " in
  if String.eqb value "--" then
    Scan true (escapedArgs st) (sanitized st) (parsed st)
  else if escaped st then
    Scan (escaped st) (escapedArgs st ++ [coerceArgument value]) (sanitized st) (parsed st)
  else if HasPrefix value "--" then
    Scan (escaped st) (escapedArgs st)
         (sanitized st ++ Split (Replace value "=" " " 1) " ") (parsed st)
  else if HasPrefix value "-" then
    let options := Split (Replace value "-" "" 1) "" in
    Scan (escaped st) (escapedArgs st) (sanitized st)
         (fold_left (fun m o => <[o := ABool true]> m) options (parsed st))
  else
    Scan (escaped st) (escapedArgs st) (sanitized st ++ [v]) (parsed st).

(** Lines 147-153: the value of a flag is stored, or paired with the one
    already there. *)
Definition store (parsed : gmap string Arg) (key next : string) : gmap string Arg :=
  match parsed !! key with
  | Some val =>
      if Arg_is val true || Arg_is val false
      then <[key := coerceArgument next]> parsed
      else <[key := ASlice [val; coerceArgument next]]> parsed
  | None => <[key := coerceArgument next]> parsed
  end.

(** How a loop ends: by its condition, by a run-time fault (with the map
    as it stands then), or, in the model only, by want of fuel. *)
Inductive ending : Type :=
| Finished (plain : list Arg) (parsed : gmap string Arg)
| Panicked (e : error) (parsed : gmap string Arg)
| OutOfFuel.

(** The second loop, from index [i] on.  Indexing outside [sanitized] is
    the fault Go raises for it. *)
Fixpoint assemble (fuel : nat) (sanitized : list string) (i : nat)
    (plain : list Arg) (parsed : gmap string Arg) : ending :=
  match fuel with
  | O => OutOfFuel
  | S fuel =>
      if negb (i <? length sanitized)%nat then Finished plain parsed
      else
        match sanitized !! i with
        | None => Panicked index_out_of_range parsed
        | Some current =>
            if negb (HasPrefix current "--") then
              assemble fuel sanitized (i + 1) (plain ++ [coerceArgument current]) parsed
            else
              let key := Replace current "--" "" 1 in
              let i := (i + 1)%nat in
              let value :=
                if (i =? length sanitized)%nat then Some ("true", i)
                else
                  match sanitized !! i with
                  | None => None
                  | Some next =>
                      if HasPrefix next "--" then Some ("true", (i - 1)%nat)
                      else Some (next, i)
                  end in
              match value with
              | None => Panicked index_out_of_range parsed
              | Some (next, i) =>
                  let '(key, next) :=
                    if HasPrefix key "no-" && String.eqb next "true"
                    then (Replace key "no-" "" 1, "false")
                    else (key, next) in
                  assemble fuel sanitized (i + 1) plain (store parsed key next)
              end
        end
  end.

(** What a call gives back: Go's two results, or, in the model only, no
    result for want of fuel. *)
Inductive run (A : Type) : Type :=
| Returns (a : A)
| Diverges.
Arguments Returns {A} a.
Arguments Diverges {A}.

(** [Parse(args)].  [osArgs] is [os.Args]; [args = None] is Go's [nil].
    The first result is the map ([None] for the nil map), the second the
    error ([None] for nil).  The deferred [recover] turns a fault into the
    error, next to [parsed] as it stands when the fault occurs. *)
Definition Parse (osArgs : list string) (args : option (list string))
    : run (option (gmap string Arg) * option error) :=
  let args :=
    match args with
    | Some args => inl args
    | None =>
        match osArgs with
        | [] => inr slice_bounds_out_of_range
        | _ :: rest => inl rest
        end
    end in
  match args with
  | inr e => Returns (None, Some e)
  | inl args =>
      let st := fold_left sanitize args (Scan false [] [] {["_" := ASlice []]}) in
      match assemble (S (length (sanitized st))) (sanitized st) 0 [] (parsed st) with
      | Finished plain parsed =>
          Returns (Some (<["_" := ASlice (plain ++ escapedArgs st)]> parsed), None)
      | Panicked e parsed => Returns (Some parsed, Some e)
      | OutOfFuel => Diverges
      end
  end.

(** [ParseArgs()] is [Parse(nil)]. *)
Definition ParseArgs (osArgs : list string) := Parse osArgs None.

(** ** Rendering values ([fmt]'s [%v])

    How Go prints the values the coercer produces: [strconv]'s formatting
    functions, which [fmt] calls for [%v]. *)
Module Format.

(** The decimal digit [d] as a byte. *)
Definition digit (d : Z) : ascii := ascii_of_N (Z.to_N (48 + d)).

Fixpoint digits_upto (fuel : nat) (n : Z) (acc : string) : string :=
  match fuel with
  | O => acc
  | S fuel' =>
      let acc' := String (digit (n mod 10)) acc in
      if n <? 10 then acc' else digits_upto fuel' (n / 10) acc'
  end.

(** [strconv.FormatUint(n, 10)]: the decimal digits of [n], most
    significant first.  A number has no more decimal digits than binary
    ones, which bounds the loop. *)
Definition FormatUint (n : Z) : string :=
  digits_upto (S (Z.to_nat (Z.log2 n))) n EmptyString.

(** [n] zeros. *)
Fixpoint zeros (n : nat) : string :=
  match n with
  | O => EmptyString
  | S n' => String "0" (zeros n')
  end.

(** [%e] with every digit: [d.ddde±xx], the exponent on two digits at
    least.  [ds] are the digits and [dp] the position of the decimal
    point: the value is [0.ds * 10^dp]. *)
Definition fmtE (ds : string) (dp : Z) : string :=
  let exp := dp - 1 in
  let mantissa :=
    match ds with
    | String d EmptyString => ds
    | String d more => String d (String "." more)
    | EmptyString => "0"
    end in
  let sign := if exp <? 0 then "-" else "+" in
  let exp := Z.abs exp in
  mantissa +:+ "e" +:+ sign +:+ (if exp <? 10 then "0" else "") +:+ FormatUint exp.

(** [%f] with every digit and no more. *)
Definition fmtF (ds : string) (dp : Z) : string :=
  let nd := Z.of_nat (String.length ds) in
  if 0 <? dp then
    if nd <=? dp then ds +:+ zeros (Z.to_nat (dp - nd))
    else take_bytes (Z.to_nat dp) ds +:+ "." +:+ drop_bytes (Z.to_nat dp) ds
  else "0." +:+ zeros (Z.to_nat (- dp)) +:+ ds.

(** [%g] for the shortest digits: [%e] when the exponent is below -4 or
    not below 6, [%f] otherwise.  The value printed is [d * 10^e]. *)
Definition layout (neg : bool) (d e : Z) : string :=
  let ds := FormatUint d in
  let dp := Z.of_nat (String.length ds) + e in
  let exp := dp - 1 in
  (if neg then "-" else "") +:+
  (if (exp <? -4) || (6 <=? exp) then fmtE ds dp else fmtF ds dp).

Definition reads_back (neg : bool) (d e : Z) (f : float64) : bool :=
  match scaled64 neg 10 d e with
  | Some g => float64_eqb g f
  | None => false
  end.

(** The shortest decimal [d * 10^e] that reads back as [f], the exact
    value of which is [num / den]: the multiples of [10^e] on either
    side of [f] are tried for [e] from above, so that the first one
    found has the fewest digits; of two that read back, the nearer to [f]
    is taken. *)
Fixpoint shortest_from (fuel : nat) (neg : bool) (num den : Z) (f : float64) (e : Z)
    : option (Z * Z) :=
  match fuel with
  | O => None
  | S fuel' =>
      let n := if 0 <=? e then num else num * 10 ^ (- e) in
      let d := if 0 <=? e then den * 10 ^ e else den in
      let lo := n / d in
      let r := n mod d in
      let ok_lo := (0 <? lo) && reads_back neg lo e f in
      let ok_hi := reads_back neg (lo + 1) e f in
      if ok_lo && ok_hi then
        Some (if (2 * r <? d) || ((2 * r =? d) && Z.even lo) then lo else lo + 1, e)
      else if ok_lo then Some (lo, e)
      else if ok_hi then Some (lo + 1, e)
      else shortest_from fuel' neg num den f (e - 1)
  end.

(** [strconv.FormatFloat(f, 'g', -1, 64)], which is how [%v] prints a
    float64.  Its documentation gives the digits as the fewest with which
    [ParseFloat] returns [f] exactly; the search starts above the largest
    binary64 (below [10^309]) and has reached the exact decimal expansion
    of [f] when [e] is the binary exponent of [f], or 0. *)
Definition FormatFloat (f : float64) : string :=
  match f with
  | NaN => "NaN"
  | Inf neg => if neg then "-Inf" else "+Inf"
  | Fin neg m e =>
      if m =? 0 then (if neg then "-0" else "0")
      else
        let num := if 0 <=? e then m * 2 ^ e else m in
        let den := if 0 <=? e then 1 else 2 ^ (- e) in
        match shortest_from (Z.to_nat (311 - Z.min e 0)) neg num den f 310 with
        | Some (d, e10) => layout neg d e10
        | None => EmptyString
        end
  end.

(** [strconv.FormatBool]. *)
Definition FormatBool (b : bool) : string := if b then "true" else "false".

End Format.

(** ** godash.go *)

(** The value of a call that may fault. *)
Inductive outcome (A : Type) : Type :=
| Value (a : A)
| Fault (e : error).
Arguments Value {A} a.
Arguments Fault {A} e.

(** What the compiler checks of the [return] statements of a function
    whose results have no names: each gives as many values as the
    declaration has result types. *)
Record declaration : Type := Declaration {
  result_types : nat;
  returned_values : list nat
}.

Definition compiles (d : declaration) : bool :=
  forallb (Nat.eqb (result_types d)) (returned_values d).

(** [func First(array []interface{}) { return array[0] }]: no result
    type, and one [return], with one value. *)
Definition First_declaration : declaration := Declaration 0 [1%nat].

(** [func Last(array []interface{}) interface{} { ... }]: one result
    type, and two [return]s, with one value each. *)
Definition Last_declaration : declaration := Declaration 1 [1%nat; 1%nat].

(** The operand of the [return] of [First]: [array[0]], with Go's bounds
    check on the index. *)
Definition First_operand {A : Type} (array : list A) : outcome A :=
  match array !! 0%nat with
  | Some x => Value x
  | None => Fault index_out_of_range
  end.

(** [First(array)].  The source declares [First] without a result type,
    so the compiler rejects its [return array[0]] and there is no
    [First] to call: [None], on every slice.  The value of the operand
    is what a call would give under a declaration that compiles. *)
Definition First {A : Type} (array : list A) : option (outcome A) :=
  if compiles First_declaration then Some (First_operand array) else None.

(** [Last(array)]: [nil] (here [None]) for the empty slice, otherwise
    [array[length-1]]. *)
Definition Last {A : Type} (array : list A) : outcome (option A) :=
  let length := length array in
  if (length =? 0)%nat then Value None
  else
    match array !! (length - 1)%nat with
    | Some x => Value (Some x)
    | None => Fault index_out_of_range
    end.

(** ** The pipeline as the specification describes it

    These definitions follow the words of the specification (sections 4.2
    and 4.3); the theorems below compare them with the loops of [Parse]. *)

(** The normalized tokens a raw argument contributes outside escape mode:
    a flag is cut at the blanks left once its first [=] is one, a bundle
    of options contributes none, anything else is kept as it came. *)
Definition tokens_of (v : string) : list string :=
  let value := Trim v " " in
  if HasPrefix value "--" then Split (Replace value "=" " " 1) " "
  else if HasPrefix value "-" then []
  else [v].

(** The options a raw argument sets outside escape mode: the characters
    of a bundle, none for any other argument. *)
Definition options_of (v : string) : list string :=
  let value := Trim v " " in
  if HasPrefix value "--" then []
  else if HasPrefix value "-" then Split (Replace value "-" "" 1) ""
  else [].

(** The normalized token list: the tokens of the arguments before the
    first escape marker. *)
Fixpoint normalized (args : list string) : list string :=
  match args with
  | [] => []
  | v :: rest =>
      if String.eqb (Trim v " ") "--" then []
      else tokens_of v ++ normalized rest
  end.

(** The arguments after the first escape marker, trimmed, less the later
    markers. *)
Definition escaped_values (rest : list string) : list string :=
  List.filter (fun value => negb (String.eqb value "--")) (map (fun v => Trim v " ") rest).

Fixpoint after_marker (args : list string) : list string :=
  match args with
  | [] => []
  | v :: rest =>
      if String.eqb (Trim v " ") "--" then escaped_values rest
      else after_marker rest
  end.

(** The walk of the Assembler over the normalized tokens, on the list
    itself: a flag takes the token after it as its value unless that
    token is a flag too. *)
Fixpoint walk (tokens : list string) (plain : list Arg) (parsed : gmap string Arg)
    : list Arg * gmap string Arg :=
  match tokens with
  | [] => (plain, parsed)
  | current :: rest =>
      if negb (HasPrefix current "--") then
        walk rest (plain ++ [coerceArgument current]) parsed
      else
        let key := Replace current "--" "" 1 in
        let negated := HasPrefix key "no-" in
        let on_true := if negated then store parsed (Replace key "no-" "" 1) "false"
                       else store parsed key "true" in
        match rest with
        | [] => (plain, on_true)
        | next :: rest' =>
            if HasPrefix next "--" then walk rest plain on_true
            else if negated && String.eqb next "true" then walk rest' plain on_true
            else walk rest' plain (store parsed key next)
        end
  end.

(** The regular positionals among the normalized tokens: those that are
    neither a flag nor the value of one. *)
Fixpoint positionals (tokens : list string) : list string :=
  match tokens with
  | [] => []
  | current :: rest =>
      if negb (HasPrefix current "--") then current :: positionals rest
      else
        match rest with
        | [] => []
        | next :: rest' =>
            if HasPrefix next "--" then positionals rest else positionals rest'
        end
  end.

(** The arguments [Parse] works on: its parameter, or the process
    arguments less the program name when the parameter is nil. *)
Definition arguments (osArgs : list string) (args : option (list string)) : list string :=
  match args with
  | Some args => args
  | None => tail osArgs
  end.

(** The whole pipeline on a list of arguments: tokenizer (with the
    options it stores), assembler, and the positionals followed by the
    escaped values under [_]. *)
Definition pipeline (args : list string) : gmap string Arg :=
  let st := fold_left sanitize args (Scan false [] [] {["_" := ASlice []]}) in
  let '(plain, flags) := walk (sanitized st) [] (parsed st) in
  <["_" := ASlice (plain ++ escapedArgs st)]> flags.

(** [n] blanks. *)
Fixpoint blanks (n : nat) : string :=
  match n with
  | O => EmptyString
  | S n' => String " " (blanks n')
  end.

(** The state of the first loop when it starts. *)
Definition scan0 : scan := Scan false [] [] {["_" := ASlice []]}.

(** Whether the byte [c] occurs in [s]. *)
Fixpoint has_byte (c : ascii) (s : string) : bool :=
  match s with
  | EmptyString => false
  | String d rest => Ascii.eqb c d || has_byte c rest
  end.

(** [render v] is how Go prints the value [v] with [%v]. *)
Fixpoint render (v : Arg) : string :=
  match v with
  | AFloat64 f => Format.FormatFloat f
  | AUint64 n => Format.FormatUint n
  | ABool b => Format.FormatBool b
  | AString s => s
  | ASlice l =>
      "[" +:+
      (fix elements (l : list Arg) : string :=
         match l with
         | [] => EmptyString
         | x :: [] => render x
         | x :: rest => render x +:+ " " +:+ elements rest
         end) l
      +:+ "]"
  end.

(** The values of type float64: every NaN and infinity, and the finite
    values in canonical form. *)
Definition valid (f : float64) : Prop :=
  match f with
  | Fin _ m e => canonical m e
  | _ => True
  end.

(** [2^k] for [0 <= k], and 1 otherwise: with it [2^k] is the quotient of
    [pow2 k] by [pow2 (- k)] for every integer [k]. *)
Definition pow2 (k : Z) : Z := 2 ^ Z.max 0 k.

(** [2^k <= n / d], for a positive [d]. *)
Definition at_least (n d k : Z) : Prop := d * pow2 k <= n * pow2 (- k).

(** Decimal digit strings and their value, read after the digits of
    [acc]. *)
Definition is_digit (c : ascii) : bool := between "0" (byte c) "9".

Fixpoint all_digits (s : string) : bool :=
  match s with
  | EmptyString => true
  | String c rest => is_digit c && all_digits rest
  end.

Fixpoint digits_val (s : string) (acc : Z) : Z :=
  match s with
  | EmptyString => acc
  | String c rest => digits_val rest (acc * 10 + (byte c - 48))
  end.

(** The float64 [f] is the integer [n], exactly. *)
Definition has_value (f : float64) (n : Z) : Prop :=
  match f with
  | Fin false m e => m * pow2 e = n * pow2 (- e)
  | _ => False
  end.

(** ** Further notions for the properties of the parser *)

(** Whether the raw argument [v] is the escape marker. *)
Definition is_marker (v : string) : bool := String.eqb (Trim v " ") "--".

(** Whether the raw argument [v] is a bundle of options: its trimmed text
    starts with one [-], not two. *)
Definition is_bundle (v : string) : bool :=
  HasPrefix (Trim v " ") "-" && negb (HasPrefix (Trim v " ") "--").

(** A hexadecimal digit, as [ParseUint] and [ParseFloat] test it, and the
    value of a string of them read after [acc]. *)
Definition is_hex (c : ascii) : bool :=
  is_digit c || between "a" (lower (byte c)) "f".

Fixpoint all_hex (s : string) : bool :=
  match s with
  | EmptyString => true
  | String c rest => is_hex c && all_hex rest
  end.

Fixpoint hex_val (s : string) (acc : Z) : Z :=
  match s with
  | EmptyString => acc
  | String c rest =>
      hex_val rest
        (acc * 16 + (if is_digit c then byte c - 48 else lower (byte c) - 97 + 10))
  end.

(** Whether the raw argument [v] starts with [--] once trimmed: a flag
    or the escape marker. *)
Definition is_flag (v : string) : bool := HasPrefix (Trim v " ") "--".

(** Whether the arguments [after] leave the flag before them without a
    value of its own: there is none, or the first is a flag or the
    marker. *)
Definition no_value (after : list string) : bool :=
  match after with
  | [] => true
  | a :: _ => is_flag a
  end.

(** Whether every byte of [s] is an ASCII character, and the one-byte
    strings of the bytes of [s]. *)
Definition is_ascii (s : string) : bool :=
  forallb (fun c => byte c <? 128) (list_ascii_of_string s).

Definition letters (s : string) : list string :=
  map (fun c => String c EmptyString) (list_ascii_of_string s).

(** The flag [--k=v] as one argument, and the value a flag holds after
    further values are stored on top of a first one that is no boolean:
    each makes a pair of what is there and itself. *)
Definition inline (k v : string) : string := "--" +:+ k +:+ "=" +:+ v.

Definition nest (first : Arg) (later : list Arg) : Arg :=
  fold_left (fun acc x => ASlice [acc; x]) later first.

(** Whether a stored value is a boolean, as the test before the store
    ([val == true || val == false]) finds it. *)
Definition is_boolean (val : Arg) : bool := Arg_is val true || Arg_is val false.

(** * Properties *)

(** ** Facts about the [strings] functions *)

Ltac split_all := repeat match goal with |- _ /\ _ => split end.

Lemma cut_prefix (sep s : string) :
  String.prefix sep s = true ->
  cut sep s = Some (EmptyString, drop_bytes (String.length sep) s).
Proof. intros H. destruct s; cbn [cut]; rewrite H; reflexivity. Qed.

Lemma Replace_prefix (s old new : string) :
  HasPrefix s old = true ->
  Replace s old new 1 = new +:+ drop_bytes (String.length old) s.
Proof.
  unfold HasPrefix, Replace. intros H. simpl.
  rewrite (cut_prefix _ _ H). reflexivity.
Qed.

(** ** [ParseUint] stays within its bit size *)

Lemma parse_digits_range (base maxVal : Z) (s : string) :
  forall n r, 0 <= n <= maxVal -> 0 < base ->
  parse_digits base maxVal s n = Some r -> 0 <= r <= maxVal.
Proof.
  induction s as [|c s IH]; simpl; intros n r Hn Hb H.
  - injection H as <-. exact Hn.
  - unfold between in H.
    set (b := byte c) in *.
    destruct ((byte "0" <=? b) && (b <=? byte "9")) eqn:Hd.
    + apply andb_prop in Hd as [Hd1 Hd2]. apply Z.leb_le in Hd1.
      destruct (base <=? b - byte "0"); [discriminate|].
      destruct ((2 ^ 64 - 1) / base + 1 <=? n); [discriminate|].
      destruct ((2 ^ 64 <=? n * base + (b - byte "0"))
                || (maxVal <? n * base + (b - byte "0"))) eqn:Ho; [discriminate|].
      apply orb_false_elim in Ho as [_ Ho]. apply Z.ltb_ge in Ho.
      apply IH in H; [exact H| |exact Hb]. split; [nia|exact Ho].
    + destruct ((byte "a" <=? lower b) && (lower b <=? byte "z")) eqn:Hl; [|discriminate].
      apply andb_prop in Hl as [Hl1 Hl2]. apply Z.leb_le in Hl1.
      destruct (base <=? lower b - byte "a" + 10); [discriminate|].
      destruct ((2 ^ 64 - 1) / base + 1 <=? n); [discriminate|].
      destruct ((2 ^ 64 <=? n * base + (lower b - byte "a" + 10))
                || (maxVal <? n * base + (lower b - byte "a" + 10))) eqn:Ho; [discriminate|].
      apply orb_false_elim in Ho as [_ Ho]. apply Z.ltb_ge in Ho.
      apply IH in H; [exact H| |exact Hb]. split; [nia|exact Ho].
Qed.

Lemma ParseUint_range (s : string) (bitSize i : Z) :
  0 <= bitSize -> ParseUint s 16 bitSize = Some i -> 0 <= i < 2 ^ bitSize.
Proof.
  intros Hb H. unfold ParseUint in H. destruct s; [discriminate|].
  assert (0 < 2 ^ bitSize) by (apply Z.pow_pos_nonneg; lia).
  apply parse_digits_range in H; lia.
Qed.

(** ** C1: the value coercer *)

(** C1.  [coerceArgument] is a function of its argument alone, defined on
    every string, and tries its coercions in a fixed order: a string that
    [ParseFloat] reads is that float64; failing that, a string with the
    prefix [0x] whose remainder [ParseUint] reads in base 16 within 32
    bits is that unsigned integer; failing that, a string [ParseBool]
    reads is that boolean; failing all three, the string itself.  The
    result is never a list.  ["0x1A"] is the unsigned integer 26,
    ["true"] the boolean true, and ["3.14"] the float64 nearest to 3.14
    (0x1.91eb851eb851fp+1, the value of [round64] at 314/100). *)
Theorem coerceArgument_priority :
  (forall value f, ParseFloat value = Some f -> coerceArgument value = AFloat64 f)
  /\ (forall value i,
        ParseFloat value = None -> HasPrefix value "0x" = true ->
        ParseUint (drop_bytes 2 value) 16 32 = Some i ->
        coerceArgument value = AUint64 i /\ 0 <= i < 2 ^ 32)
  /\ (forall value b,
        ParseFloat value = None ->
        HasPrefix value "0x" = false \/ ParseUint (drop_bytes 2 value) 16 32 = None ->
        ParseBool value = Some b -> coerceArgument value = ABool b)
  /\ (forall value,
        ParseFloat value = None ->
        HasPrefix value "0x" = false \/ ParseUint (drop_bytes 2 value) 16 32 = None ->
        ParseBool value = None -> coerceArgument value = AString value)
  /\ (forall value,
        (exists f, coerceArgument value = AFloat64 f)
        \/ (exists i, coerceArgument value = AUint64 i /\ 0 <= i < 2 ^ 32)
        \/ (exists b, coerceArgument value = ABool b)
        \/ coerceArgument value = AString value)
  /\ coerceArgument "0x1A" = AUint64 26
  /\ coerceArgument "true" = ABool true
  /\ coerceArgument "3.14" = AFloat64 (Fin false 7070651414971679 (-51))
  /\ round64 false 314 100 = Some (Fin false 7070651414971679 (-51)).
Proof.
  assert (Hhex : forall value, HasPrefix value "0x" = true ->
            Replace value "0x" "" 1 = drop_bytes 2 value).
  { intros value H. rewrite (Replace_prefix _ _ _ H). reflexivity. }
  split_all.
  - intros value f H. unfold coerceArgument. rewrite H. reflexivity.
  - intros value i Hf Hp Hu. split.
    + unfold coerceArgument. rewrite Hf, Hp, (Hhex _ Hp), Hu. reflexivity.
    + eapply ParseUint_range; [|exact Hu]. lia.
  - intros value b Hf Hx Hb. unfold coerceArgument. rewrite Hf, Hb.
    destruct Hx as [Hx|Hx]; [rewrite Hx; reflexivity|].
    destruct (HasPrefix value "0x") eqn:Hp; [|reflexivity].
    rewrite (Hhex _ Hp), Hx. reflexivity.
  - intros value Hf Hx Hb. unfold coerceArgument. rewrite Hf, Hb.
    destruct Hx as [Hx|Hx]; [rewrite Hx; reflexivity|].
    destruct (HasPrefix value "0x") eqn:Hp; [|reflexivity].
    rewrite (Hhex _ Hp), Hx. reflexivity.
  - intros value. unfold coerceArgument.
    destruct (ParseFloat value) as [f|]; [left; eauto|].
    destruct (HasPrefix value "0x") eqn:Hp.
    + destruct (ParseUint (Replace value "0x" "" 1) 16 32) as [i|] eqn:Hu.
      * right; left. exists i. split; [reflexivity|].
        eapply ParseUint_range; [|exact Hu]. lia.
      * destruct (ParseBool value) as [b|]; [right; right; left; eauto|].
        right; right; right; reflexivity.
    + destruct (ParseBool value) as [b|]; [right; right; left; eauto|].
      right; right; right; reflexivity.
  - vm_compute. reflexivity.
  - vm_compute. reflexivity.
  - vm_compute. reflexivity.
  - vm_compute. reflexivity.
Qed.

(** ** C2: repeated flags *)

(** C2.  A flag whose key is new, or holds a boolean, takes the new
    coerced value; a key that holds anything else takes the two-element
    list of the old value and the new one.  Hence three occurrences of
    [--x] nest: [x = [[1, 2], 3]]. *)
Theorem store_merge_policy :
  (forall (parsed : gmap string Arg) key next,
      parsed !! key = None ->
      store parsed key next = <[key := coerceArgument next]> parsed)
  /\ (forall (parsed : gmap string Arg) key next b,
        parsed !! key = Some (ABool b) ->
        store parsed key next = <[key := coerceArgument next]> parsed)
  /\ (forall (parsed : gmap string Arg) key next val,
        parsed !! key = Some val -> (forall b, val <> ABool b) ->
        store parsed key next = <[key := ASlice [val; coerceArgument next]]> parsed)
  /\ Parse [] (Some ["--x=1"; "--x=2"; "--x=3"])
     = Returns
         (Some {[ "_" := ASlice [];
                  "x" := ASlice [ASlice [AFloat64 (Fin false (2 ^ 52) (-52));
                                         AFloat64 (Fin false (2 ^ 52) (-51))];
                                 AFloat64 (Fin false (3 * 2 ^ 51) (-51))] ]},
          None).
Proof.
  split_all.
  - intros parsed key next H. unfold store. rewrite H. reflexivity.
  - intros parsed key next b H. unfold store. rewrite H. destruct b; reflexivity.
  - intros parsed key next val H Hb. unfold store. rewrite H.
    destruct val as [f|n|b|s|l]; try reflexivity. destruct (Hb b eq_refl).
  - vm_compute. reflexivity.
Qed.

(** The three hypotheses of the policy, met on concrete maps. *)
Lemma store_merge_policy_witness :
  store ∅ "x" "1" = {[ "x" := AFloat64 (Fin false (2 ^ 52) (-52)) ]}
  /\ store {[ "x" := ABool true ]} "x" "v" = {[ "x" := AString "v" ]}
  /\ store {[ "x" := AString "u" ]} "x" "v"
     = {[ "x" := ASlice [AString "u"; AString "v"] ]}.
Proof.
  destruct store_merge_policy as (Hnew & Hbool & Hother & _).
  split_all.
  - rewrite (Hnew ∅ "x" "1") by (vm_compute; reflexivity). vm_compute. reflexivity.
  - rewrite (Hbool {[ "x" := ABool true ]} "x" "v" true) by (vm_compute; reflexivity).
    vm_compute. reflexivity.
  - rewrite (Hother {[ "x" := AString "u" ]} "x" "v" (AString "u"));
      [vm_compute; reflexivity | vm_compute; reflexivity | discriminate].
Defined.

(** ** C3: the worked example *)

(** C3.  [a b --x 1 -yz --no-flag] parses to the two positionals [a] and
    [b], [x] the float64 1, [y] and [z] true, [flag] false, and nothing
    else. *)
Theorem Parse_example :
  Parse [] (Some ["a"; "b"; "--x"; "1"; "-yz"; "--no-flag"])
  = Returns
      (Some {[ "_" := ASlice [AString "a"; AString "b"];
               "x" := AFloat64 (Fin false (2 ^ 52) (-52));
               "y" := ABool true;
               "z" := ABool true;
               "flag" := ABool false ]},
       None).
Proof. vm_compute. reflexivity. Qed.

(** ** C4: the escape marker *)

(** C4, on the specification's own example, and on a second marker: the
    arguments after [--] are coerced and go to the end of [_], flags
    included, but a later [--] is skipped, not stored. *)
Theorem Parse_escape_marker :
  Parse [] (Some ["a"; "--"; "b"; "--c"])
  = Returns (Some {[ "_" := ASlice [AString "a"; AString "b"; AString "--c"] ]}, None)
  /\ Parse [] (Some ["a"; "--"; "b"; "--"; "c"])
     = Returns (Some {[ "_" := ASlice [AString "a"; AString "b"; AString "c"] ]}, None).
Proof. split; vm_compute; reflexivity. Qed.

(** ** C10: [First] and [Last] *)

(** C10.  [First] is declared without a result type: its
    [return array[0]] does not compile, so [First] gives no value on any
    slice, empty or not.  The operand of that [return] is the unguarded
    access: the element at index 0 of a non-empty slice, a fault on the
    empty one.  [Last], which has its result type, never faults: it
    gives [nil] for the empty slice and the last element otherwise. *)
Theorem First_has_no_result :
  compiles First_declaration = false
  /\ (forall (A : Type) (array : list A), First array = None)
  /\ (forall (A : Type) (x : A) (array : list A), First_operand (x :: array) = Value x)
  /\ (forall A : Type, First_operand (@nil A) = Fault index_out_of_range)
  /\ compiles Last_declaration = true
  /\ (forall A : Type, Last (@nil A) = Value None)
  /\ (forall (A : Type) (array : list A) (x : A), Last (array ++ [x]) = Value (Some x))
  /\ (forall (A : Type) (array : list A), exists r, Last array = Value r).
Proof.
  split_all.
  - reflexivity.
  - reflexivity.
  - reflexivity.
  - reflexivity.
  - reflexivity.
  - reflexivity.
  - intros A array x. unfold Last. rewrite length_app. simpl.
    replace (length array + 1 =? 0)%nat with false
      by (symmetry; apply Nat.eqb_neq; lia).
    replace (length array + 1 - 1)%nat with (length array) by lia.
    rewrite list_lookup_middle by reflexivity. reflexivity.
  - intros A array. unfold Last.
    destruct (length array =? 0)%nat eqn:Hl; [eauto|].
    apply Nat.eqb_neq in Hl.
    destruct (array !! (length array - 1)%nat) as [x|] eqn:Hx; [eauto|].
    apply lookup_ge_None in Hx. lia.
Qed.

(** ** The second loop follows the walk over the token list *)

Lemma assemble_walk (fuel : nat) :
  forall (tokens : list string) (i : nat) (plain : list Arg) (flags : gmap string Arg),
    (length tokens - i < fuel)%nat ->
    assemble fuel tokens i plain flags
    = let '(plain', flags') := walk (drop i tokens) plain flags in Finished plain' flags'.
Proof.
  induction fuel as [|fuel IH]; intros tokens i plain flags Hfuel; [lia|].
  cbn [assemble].
  destruct (i <? length tokens)%nat eqn:Hi; cbn [negb].
  2:{ apply Nat.ltb_ge in Hi. rewrite drop_ge by exact Hi. reflexivity. }
  apply Nat.ltb_lt in Hi.
  destruct (lookup_lt_is_Some_2 tokens i Hi) as [current Hcur].
  rewrite Hcur, (drop_S _ _ _ Hcur). cbn [walk].
  replace (i + 1)%nat with (S i) by lia.
  destruct (HasPrefix current "--"); cbn [negb].
  2:{ apply IH. lia. }
  destruct (S i =? length tokens)%nat eqn:Hend.
  - apply Nat.eqb_eq in Hend.
    rewrite (drop_ge tokens (S i)) by lia.
    rewrite String.eqb_refl, andb_true_r.
    destruct (HasPrefix (Replace current "--" "" 1) "no-");
      (rewrite IH by lia; rewrite drop_ge by lia; reflexivity).
  - apply Nat.eqb_neq in Hend.
    assert (Hi' : (S i < length tokens)%nat) by lia.
    destruct (lookup_lt_is_Some_2 tokens (S i) Hi') as [next Hnext].
    rewrite Hnext, (drop_S _ _ _ Hnext).
    destruct (HasPrefix next "--") eqn:Hflag.
    + replace (S i - 1 + 1)%nat with (S i) by lia.
      rewrite String.eqb_refl, andb_true_r.
      destruct (HasPrefix (Replace current "--" "" 1) "no-");
        (rewrite IH by lia; rewrite (drop_S _ _ _ Hnext); reflexivity).
    + replace (S i + 1)%nat with (S (S i)) by lia.
      destruct (HasPrefix (Replace current "--" "" 1) "no-"); cbn [andb].
      * destruct (String.eqb next "true"); apply IH; lia.
      * apply IH. lia.
Qed.

(** [Parse] on a list it was given: both loops run to their end. *)
Lemma Parse_pipeline (osArgs : list string) (args : option (list string)) :
  args <> None \/ osArgs <> [] ->
  Parse osArgs args = Returns (Some (pipeline (arguments osArgs args)), None).
Proof.
  intros Hargs. unfold Parse, pipeline.
  assert (Hl : match args with
               | Some args => inl args
               | None => match osArgs with
                         | [] => inr slice_bounds_out_of_range
                         | _ :: rest => inl rest
                         end
               end = inl (arguments osArgs args)).
  { destruct args as [l|]; [reflexivity|].
    destruct osArgs; [destruct Hargs as [H|H]; destruct (H eq_refl)|reflexivity]. }
  rewrite Hl. cbv zeta.
  rewrite assemble_walk by lia. rewrite drop_0.
  destruct (walk _ _ _) as [plain flags]. reflexivity.
Qed.

(** ** The first loop *)

(** In escape mode every argument but the marker is coerced and kept. *)
Lemma sanitize_escaped (l : list string) :
  forall st, escaped st = true ->
    fold_left sanitize l st
    = Scan true (escapedArgs st ++ map coerceArgument (escaped_values l))
           (sanitized st) (parsed st).
Proof.
  induction l as [|v l IH]; intros st Hst.
  - simpl. rewrite app_nil_r. destruct st; simpl in *; congruence.
  - cbn [fold_left]. unfold escaped_values. cbn [map List.filter].
    unfold sanitize at 2. rewrite Hst.
    destruct (String.eqb (Trim v " ") "--"); cbn [negb].
    + rewrite IH by reflexivity. reflexivity.
    + rewrite IH by reflexivity. cbn [escapedArgs sanitized parsed map].
      rewrite <- app_assoc. reflexivity.
Qed.

(** One step outside escape mode. *)
Lemma sanitize_step (st : scan) (v : string) :
  escaped st = false ->
  sanitize st v
  = if String.eqb (Trim v " ") "--"
    then Scan true (escapedArgs st) (sanitized st) (parsed st)
    else Scan false (escapedArgs st) (sanitized st ++ tokens_of v)
              (fold_left (fun m o => <[o := ABool true]> m) (options_of v) (parsed st)).
Proof.
  intros Hst. unfold sanitize, tokens_of, options_of. rewrite Hst.
  destruct (String.eqb (Trim v " ") "--"); [reflexivity|].
  destruct (HasPrefix (Trim v " ") "--"); [reflexivity|].
  destruct (HasPrefix (Trim v " ") "-"); [|reflexivity].
  rewrite app_nil_r. reflexivity.
Qed.

(** Outside escape mode the loop collects the normalized tokens up to the
    first marker and the escaped values after it. *)
Lemma sanitize_tokens (l : list string) :
  forall st, escaped st = false ->
    sanitized (fold_left sanitize l st) = sanitized st ++ normalized l
    /\ escapedArgs (fold_left sanitize l st)
       = escapedArgs st ++ map coerceArgument (after_marker l).
Proof.
  induction l as [|v l IH]; intros st Hst.
  - simpl. rewrite !app_nil_r. split; reflexivity.
  - cbn [fold_left normalized after_marker].
    rewrite (sanitize_step _ _ Hst).
    destruct (String.eqb (Trim v " ") "--").
    + rewrite sanitize_escaped by reflexivity. simpl.
      rewrite app_nil_r. split; reflexivity.
    + destruct (IH (Scan false (escapedArgs st) (sanitized st ++ tokens_of v)
                      (fold_left (fun m o => <[o := ABool true]> m) (options_of v)
                         (parsed st))) eq_refl) as [H1 H2].
      rewrite H1, H2. simpl. rewrite <- app_assoc. split; reflexivity.
Qed.

(** The walk appends the coerced positionals, in order. *)
Lemma walk_plain (n : nat) :
  forall tokens plain flags, (length tokens <= n)%nat ->
    fst (walk tokens plain flags) = plain ++ map coerceArgument (positionals tokens).
Proof.
  induction n as [|n IH]; intros tokens plain flags Hn.
  - destruct tokens; [|simpl in Hn; lia]. simpl. rewrite app_nil_r. reflexivity.
  - destruct tokens as [|current rest]; [simpl; rewrite app_nil_r; reflexivity|].
    simpl in Hn. cbn [walk positionals].
    destruct (HasPrefix current "--"); cbn [negb].
    + destruct rest as [|next rest']; [simpl; rewrite app_nil_r; reflexivity|].
      simpl in Hn.
      destruct (HasPrefix next "--").
      * apply IH. simpl. lia.
      * destruct (HasPrefix (Replace current "--" "" 1) "no-" && String.eqb next "true");
          apply IH; lia.
    + rewrite IH by lia. cbn [map]. rewrite <- app_assoc. reflexivity.
Qed.

(** ** C7: the positional key *)



(** ** C8: faults *)

(** C8.  Every call of [Parse] returns.  Either it returns the map of the
    complete pipeline with a nil error, or, when it is given nil and the
    process has no arguments at all, a non-nil error next to the nil map:
    no fault can occur once the map has been created, so no partly filled
    map is ever returned with an error. *)
Theorem Parse_all_or_nothing (osArgs : list string) (args : option (list string)) :
  ((args <> None \/ osArgs <> [])
   /\ Parse osArgs args = Returns (Some (pipeline (arguments osArgs args)), None))
  \/ (args = None /\ osArgs = []
      /\ Parse osArgs args = Returns (None, Some slice_bounds_out_of_range)).
Proof.
  destruct args as [l|].
  - left. split; [left; discriminate|]. apply Parse_pipeline. left; discriminate.
  - destruct osArgs as [|prog rest].
    + right. split_all; reflexivity.
    + left. split; [right; discriminate|]. apply Parse_pipeline. right; discriminate.
Qed.

(** ** C5: flags with an inline value *)

Lemma has_byte_app (c : ascii) (a b : string) :
  has_byte c (a +:+ b) = has_byte c a || has_byte c b.
Proof.
  induction a as [|d a IH]; simpl; [reflexivity|].
  rewrite IH, orb_assoc. reflexivity.
Qed.

Lemma prefix_byte (c d : ascii) (s : string) :
  String.prefix (String c EmptyString) (String d s) = Ascii.eqb c d.
Proof.
  simpl. destruct (ascii_dec c d) as [->|Hne].
  - rewrite Ascii.eqb_refl. destruct s; reflexivity.
  - symmetry. apply Ascii.eqb_neq. exact Hne.
Qed.

Lemma cut_byte_found (c : ascii) (k w : string) :
  has_byte c k = false -> cut (String c EmptyString) (k +:+ String c w) = Some (k, w).
Proof.
  induction k as [|d k IH]; intros Hk.
  - change (EmptyString +:+ String c w) with (String c w).
    cbn [cut]. rewrite prefix_byte, Ascii.eqb_refl. reflexivity.
  - simpl in Hk. apply orb_false_elim in Hk as [Hd Hk].
    change (String d k +:+ String c w) with (String d (k +:+ String c w)).
    cbn [cut]. rewrite prefix_byte, Hd, (IH Hk). reflexivity.
Qed.

Lemma cut_byte_none (c : ascii) (s : string) :
  has_byte c s = false -> cut (String c EmptyString) s = None.
Proof.
  induction s as [|d s IH]; intros Hs; [reflexivity|].
  simpl in Hs. apply orb_false_elim in Hs as [Hd Hs].
  cbn [cut]. rewrite prefix_byte, Hd, (IH Hs). reflexivity.
Qed.

Lemma split_upto_none (c : ascii) (s : string) (fuel : nat) :
  has_byte c s = false -> split_upto fuel s (String c EmptyString) = [s].
Proof.
  intros Hs. destruct fuel; [reflexivity|]. simpl.
  rewrite (cut_byte_none _ _ Hs). reflexivity.
Qed.

Lemma Replace_first_byte (c : ascii) (k w new : string) :
  has_byte c k = false ->
  Replace (k +:+ String c w) (String c EmptyString) new 1 = k +:+ new +:+ w.
Proof.
  intros Hk.
  change (Replace (k +:+ String c w) (String c EmptyString) new 1)
    with (replace_upto 1 (k +:+ String c w) (String c EmptyString) new).
  cbn [replace_upto]. rewrite (cut_byte_found _ _ _ Hk). reflexivity.
Qed.

Lemma Replace_absent (c : ascii) (s new : string) :
  has_byte c s = false -> Replace s (String c EmptyString) new 1 = s.
Proof.
  intros Hs.
  change (Replace s (String c EmptyString) new 1)
    with (replace_upto 1 s (String c EmptyString) new).
  cbn [replace_upto]. rewrite (cut_byte_none _ _ Hs). reflexivity.
Qed.

Lemma Split_two (c : ascii) (k w : string) :
  has_byte c k = false -> has_byte c w = false ->
  Split (k +:+ String c w) (String c EmptyString) = [k; w].
Proof.
  intros Hk Hw. unfold Split.
  assert (Hlen : exists n, String.length (k +:+ String c w) = S n).
  { clear. induction k as [|d k IH]; simpl; eauto. }
  destruct Hlen as [n ->]. cbn [split_upto].
  rewrite (cut_byte_found _ _ _ Hk), (split_upto_none _ _ _ Hw). reflexivity.
Qed.

Lemma Split_one (c : ascii) (s : string) :
  has_byte c s = false -> Split s (String c EmptyString) = [s].
Proof. intros Hs. unfold Split. apply split_upto_none. exact Hs. Qed.

(** X18.  Outside escape mode, a flag whose trimmed text has no blank in it is
    cut at its first [=] into exactly two tokens, the text before and the
    text after; without an [=] it is one token, the trimmed text itself.
    Nothing else of the state changes. *)
Theorem sanitize_flag_split (st : scan) (v : string) :
  escaped st = false ->
  HasPrefix (Trim v " ") "--" = true ->
  has_byte " " (Trim v " ") = false ->
  (forall k w,
      Trim v " " = k +:+ "=" +:+ w -> has_byte "=" k = false ->
      sanitize st v = Scan false (escapedArgs st) (sanitized st ++ [k; w]) (parsed st))
  /\ (has_byte "=" (Trim v " ") = false -> Trim v " " <> "--" ->
      sanitize st v
      = Scan false (escapedArgs st) (sanitized st ++ [Trim v " "]) (parsed st)).
Proof.
  intros Hst Hflag Hblank.
  split.
  - intros k w Hv Hk.
    assert (Hne : String.eqb (Trim v " ") "--" = false).
    { apply String.eqb_neq. intros E. rewrite E in Hv.
      assert (H : has_byte "=" "--" = has_byte "=" (k +:+ "=" +:+ w)) by (rewrite Hv; reflexivity).
      rewrite has_byte_app in H. simpl in H. rewrite orb_true_r in H. discriminate. }
    unfold sanitize. rewrite Hne, Hst, Hflag.
    rewrite Hv in Hblank |- *.
    rewrite has_byte_app in Hblank. apply orb_false_elim in Hblank as [Hbk Hbw].
    change (has_byte " " w = false) in Hbw.
    change (k +:+ "=" +:+ w) with (k +:+ String "=" w).
    rewrite (Replace_first_byte _ _ _ _ Hk).
    change (k +:+ " " +:+ w) with (k +:+ String " " w).
    rewrite (Split_two _ _ _ Hbk Hbw). reflexivity.
  - intros Heq Hne. apply String.eqb_neq in Hne.
    unfold sanitize. rewrite Hne, Hst, Hflag.
    rewrite (Replace_absent _ _ _ Heq), (Split_one _ _ Hblank). reflexivity.
Qed.

(** The hypotheses of X18, met on [--key=value] and [--key]. *)
Lemma sanitize_flag_split_witness :
  sanitize scan0 " --key=value" = Scan false [] ["--key"; "value"] {["_" := ASlice []]}
  /\ sanitize scan0 "--key " = Scan false [] ["--key"] {["_" := ASlice []]}.
Proof.
  split.
  - exact (proj1 (sanitize_flag_split scan0 " --key=value" eq_refl eq_refl eq_refl)
             "--key" "value" eq_refl eq_refl).
  - refine (proj2 (sanitize_flag_split scan0 "--key " eq_refl eq_refl eq_refl) eq_refl _).
    vm_compute. discriminate.
Defined.

(** C5.  A flag with an inline value is not cut at its [=] alone: line
    97 puts a blank for the first [=] and then splits at every blank, so
    a value with a blank in it is cut again.  [--key=a b] gives the three
    tokens [--key], [a] and [b]: the flag gets [a] and [b] is left a
    positional.  The same value as an argument of its own ([--key],
    [a b]), the other form the source documents, comes out whole. *)
Theorem sanitize_cuts_inline_value :
  sanitize scan0 "--key=a b" = Scan false [] ["--key"; "a"; "b"] {["_" := ASlice []]}
  /\ sanitized (sanitize scan0 "--key=a b") <> ["--key"; "a b"]
  /\ Parse [] (Some ["--key=a b"])
     = Returns (Some {[ "_" := ASlice [AString "b"]; "key" := AString "a" ]}, None)
  /\ Parse [] (Some ["--key"; "a b"])
     = Returns (Some {[ "_" := ASlice []; "key" := AString "a b" ]}, None).
Proof. split_all; vm_compute; (reflexivity || discriminate). Qed.

(** ** C9: surrounding blanks *)

Lemma TrimLeft_all_blanks (m : nat) : TrimLeft (blanks m) " " = EmptyString.
Proof. induction m as [|m IH]; [reflexivity|exact IH]. Qed.

Lemma TrimLeft_blanks (n : nat) (s : string) :
  TrimLeft (blanks n +:+ s) " " = TrimLeft s " ".
Proof. induction n as [|n IH]; [reflexivity|exact IH]. Qed.

Lemma TrimRight_all_blanks (m : nat) : TrimRight (blanks m) " " = EmptyString.
Proof. induction m as [|m IH]; [reflexivity|]. simpl. rewrite IH. reflexivity. Qed.

Lemma TrimRight_blanks (s : string) (m : nat) :
  TrimRight (s +:+ blanks m) " " = TrimRight s " ".
Proof.
  induction s as [|c s IH]; [apply TrimRight_all_blanks|].
  change (String c s +:+ blanks m) with (String c (s +:+ blanks m)).
  cbn [TrimRight]. rewrite IH. reflexivity.
Qed.

Lemma Trim_cons (c : ascii) (s cutset : string) :
  Trim (String c s) cutset
  = if in_cutset c cutset then Trim s cutset else TrimRight (String c s) cutset.
Proof. unfold Trim. cbn [TrimLeft]. destruct (in_cutset c cutset); reflexivity. Qed.

Lemma Trim_blanks_right (s : string) (m : nat) :
  Trim (s +:+ blanks m) " " = Trim s " ".
Proof.
  induction s as [|c s IH].
  - unfold Trim. change (EmptyString +:+ blanks m) with (blanks m).
    rewrite TrimLeft_all_blanks. reflexivity.
  - change (String c s +:+ blanks m) with (String c (s +:+ blanks m)).
    rewrite !Trim_cons, IH.
    change (String c (s +:+ blanks m)) with (String c s +:+ blanks m).
    rewrite TrimRight_blanks. reflexivity.
Qed.

(** Blanks around a string do not show once it is trimmed. *)
Lemma Trim_blanks (n m : nat) (s : string) :
  Trim (blanks n +:+ s +:+ blanks m) " " = Trim s " ".
Proof.
  rewrite <- (Trim_blanks_right s m). unfold Trim.
  rewrite TrimLeft_blanks. reflexivity.
Qed.

(** The first loop reads an argument through its trimmed text, except
    where it keeps a positional. *)
Lemma sanitize_trimmed (st : scan) (v v' : string) :
  Trim v " " = Trim v' " " ->
  escaped st = true \/ HasPrefix (Trim v " ") "-" = true ->
  sanitize st v = sanitize st v'.
Proof.
  intros Hv Hc. unfold sanitize. rewrite <- Hv.
  destruct (String.eqb (Trim v " ") "--"); [reflexivity|].
  destruct (escaped st); [reflexivity|].
  destruct (HasPrefix (Trim v " ") "--"); [reflexivity|].
  destruct (HasPrefix (Trim v " ") "-"); [reflexivity|].
  destruct Hc; discriminate.
Qed.

Lemma sanitize_escaped_after (l : list string) :
  forall st,
    escaped (fold_left sanitize l st)
    = escaped st || existsb (fun u => String.eqb (Trim u " ") "--") l.
Proof.
  induction l as [|v l IH]; intros st; simpl; [rewrite orb_false_r; reflexivity|].
  rewrite IH. unfold sanitize.
  destruct (String.eqb (Trim v " ") "--"); simpl; [rewrite orb_true_r; reflexivity|].
  destruct (escaped st) eqn:He; [reflexivity|].
  destruct (HasPrefix (Trim v " ") "--"); [simpl; rewrite ?He; reflexivity|].
  destruct (HasPrefix (Trim v " ") "-"); simpl; rewrite ?He; reflexivity.
Qed.

(** C9, as amended.  The blanks (U+0020) around a raw argument are
    trimmed before it is classified: an argument that comes after the
    escape marker, or whose trimmed text starts with [-] (the marker, a
    flag, a bundle of options), parses the same with and without blanks
    around it. *)
Theorem Parse_ignores_blanks (osArgs before after : list string) (v : string) (n m : nat) :
  existsb (fun u => String.eqb (Trim u " ") "--") before = true
  \/ HasPrefix (Trim v " ") "-" = true ->
  Parse osArgs (Some (before ++ (blanks n +:+ v +:+ blanks m) :: after))
  = Parse osArgs (Some (before ++ v :: after)).
Proof.
  intros Hc.
  rewrite !Parse_pipeline by (left; discriminate).
  unfold pipeline, arguments.
  rewrite !fold_left_app. cbn [fold_left].
  rewrite (sanitize_trimmed _ (blanks n +:+ v +:+ blanks m) v); [reflexivity| |].
  - apply Trim_blanks.
  - rewrite Trim_blanks, sanitize_escaped_after. simpl.
    destruct Hc as [Hc|Hc]; [left; exact Hc|right; exact Hc].
Qed.

(** The hypothesis of the amended C9 met by a flag, and by an argument
    after the marker. *)
Lemma Parse_ignores_blanks_witness :
  Parse [] (Some ["a"; "  --x "; "1"]) = Parse [] (Some ["a"; "--x"; "1"])
  /\ Parse [] (Some ["--"; " 1  "]) = Parse [] (Some ["--"; "1"]).
Proof.
  split.
  - exact (Parse_ignores_blanks [] ["a"] ["1"] "--x" 2 1 (or_intror eq_refl)).
  - exact (Parse_ignores_blanks [] ["--"] [] "1" 1 2 (or_introl eq_refl)).
Defined.

(** C9 as stated fails: a tab is white space and is not trimmed, so a
    flag behind a tab is kept as a positional; and a positional keeps the
    blanks around it, which changes how it is coerced. *)
Lemma Parse_whitespace_counterexample :
  Parse [] (Some [String "009" "--x"])
  = Returns (Some {[ "_" := ASlice [AString (String "009" "--x")] ]}, None)
  /\ Parse [] (Some ["--x"])
     = Returns (Some {[ "_" := ASlice []; "x" := ABool true ]}, None)
  /\ Parse [] (Some [" 1 "])
     = Returns (Some {[ "_" := ASlice [AString " 1 "] ]}, None)
  /\ Parse [] (Some ["1"])
     = Returns (Some {[ "_" := ASlice [AFloat64 (Fin false (2 ^ 52) (-52))] ]}, None).
Proof. split_all; vm_compute; reflexivity. Qed.

(** ** Rounding to binary64 *)

(** [round64] against the Standard Library's binary64 (precision 53,
    exponents below 1024): the conversion of an integer, the division of
    two floats that are integers, and overflow. *)
Example round64_agrees_with_SpecFloat :
  option_map to_spec (round64 false 26 1) = Some (binary_normalize 53 1024 26 0 false)
  /\ option_map to_spec (round64 false 9007199254740993 1)
     = Some (binary_normalize 53 1024 9007199254740993 0 false)
  /\ option_map to_spec (round64 true 314 100)
     = Some (SFdiv 53 1024 (binary_normalize 53 1024 (-314) 0 false)
                           (binary_normalize 53 1024 100 0 false))
  /\ option_map to_spec (round64 false 1 10)
     = Some (SFdiv 53 1024 (binary_normalize 53 1024 1 0 false)
                           (binary_normalize 53 1024 10 0 false))
  /\ round64 false (10 ^ 400) 1 = None
  /\ binary_normalize 53 1024 (10 ^ 400) 0 false = S754_infinity false.
Proof. split_all; vm_compute; reflexivity. Qed.

Lemma pow2_pos (k : Z) : 0 < pow2 k.
Proof. unfold pow2. apply Z.pow_pos_nonneg; lia. Qed.

Lemma pow2_nonneg (k : Z) : 0 <= k -> pow2 k = 2 ^ k.
Proof. intros H. unfold pow2. rewrite Z.max_r by exact H. reflexivity. Qed.

Lemma pow2_nonpos (k : Z) : k <= 0 -> pow2 k = 1.
Proof. intros H. unfold pow2. rewrite Z.max_l by exact H. reflexivity. Qed.

(** [2^(a+b) = 2^a * 2^b], on quotients. *)
Lemma pow2_add (a b : Z) :
  pow2 (a + b) * pow2 (- a) * pow2 (- b) = pow2 (- (a + b)) * pow2 a * pow2 b.
Proof.
  destruct (Z.le_gt_cases 0 a) as [Ha|Ha];
    destruct (Z.le_gt_cases 0 b) as [Hb|Hb];
    destruct (Z.le_gt_cases 0 (a + b)) as [Hab|Hab];
    try lia;
    repeat match goal with
           | |- context [pow2 ?k] =>
               first [ rewrite (pow2_nonpos k) by lia
                     | rewrite (pow2_nonneg k) by lia ]
           end;
    rewrite ?Z.mul_1_r, ?Z.mul_1_l, <- ?Z.pow_add_r by lia;
    try reflexivity; f_equal; lia.
Qed.

Lemma at_least_shift (n d a b : Z) :
  at_least n d (a + b) <-> at_least (n * pow2 (- a)) (d * pow2 a) b.
Proof.
  unfold at_least.
  pose proof (pow2_add a b) as E.
  pose proof (pow2_pos (a + b)) as H1. pose proof (pow2_pos (- (a + b))) as H2.
  pose proof (pow2_pos a) as H3. pose proof (pow2_pos (- a)) as H4.
  pose proof (pow2_pos b) as H5. pose proof (pow2_pos (- b)) as H6.
  set (X := pow2 (a + b)) in *. set (Y := pow2 (- (a + b))) in *.
  set (A := pow2 a) in *. set (A' := pow2 (- a)) in *.
  set (B := pow2 b) in *. set (B' := pow2 (- b)) in *.
  assert (HAB : 0 < A' * B') by (apply Z.mul_pos_pos; assumption).
  split; intros H.
  - apply (Z.mul_le_mono_pos_r _ _ Y H2).
    replace (d * A * B * Y) with (d * X * (A' * B')) by (rewrite <- !Z.mul_assoc, (Z.mul_assoc X), E; ring).
    replace (n * A' * B' * Y) with (n * Y * (A' * B')) by ring.
    apply Z.mul_le_mono_nonneg_r; [lia|exact H].
  - apply (Z.mul_le_mono_pos_r _ _ (A' * B') HAB).
    replace (d * X * (A' * B')) with (d * A * B * Y) by (rewrite <- !Z.mul_assoc, (Z.mul_assoc X), E; ring).
    replace (n * Y * (A' * B')) with (n * A' * B' * Y) by ring.
    apply Z.mul_le_mono_nonneg_r; [lia|exact H].
Qed.

Lemma at_least_mono (n d k1 k2 : Z) :
  0 <= n -> 0 < d -> k1 <= k2 -> at_least n d k2 -> at_least n d k1.
Proof.
  intros Hn Hd Hk H.
  replace k2 with (k1 + (k2 - k1)) in H by lia.
  apply at_least_shift in H. unfold at_least in *.
  rewrite (pow2_nonpos (- (k2 - k1))) in H by lia.
  pose proof (pow2_pos (k2 - k1)). pose proof (pow2_pos k1). pose proof (pow2_pos (- k1)).
  nia.
Qed.

(** [ilog2_ratio n d] is the integer part of the binary logarithm of
    [n / d]. *)
Lemma ilog2_ratio_spec (n d : Z) :
  0 < n -> 0 < d ->
  at_least n d (ilog2_ratio n d) /\ ~ at_least n d (ilog2_ratio n d + 1).
Proof.
  intros Hn Hd.
  pose proof (Z.log2_spec n Hn) as [Ha1 Ha2].
  pose proof (Z.log2_spec d Hd) as [Hb1 Hb2].
  pose proof (Z.log2_nonneg n) as Ha. pose proof (Z.log2_nonneg d) as Hb.
  unfold ilog2_ratio.
  set (a := Z.log2 n) in *. set (b := Z.log2 d) in *. set (t := a - b).
  assert (Hlow : at_least n d (t - 1)).
  { unfold at_least. destruct (Z.le_gt_cases 0 (t - 1)) as [Ht|Ht].
    - rewrite (pow2_nonneg (t - 1)), (pow2_nonpos (- (t - 1))) by lia.
      assert (E : 2 ^ Z.succ b * 2 ^ (t - 1) = 2 ^ a)
        by (rewrite <- Z.pow_add_r by lia; f_equal; lia).
      assert (0 < 2 ^ (t - 1)) by (apply Z.pow_pos_nonneg; lia). nia.
    - rewrite (pow2_nonpos (t - 1)), (pow2_nonneg (- (t - 1))) by lia.
      assert (E : 2 ^ a * 2 ^ (- (t - 1)) = 2 ^ Z.succ b)
        by (rewrite <- Z.pow_add_r by lia; f_equal; lia).
      assert (0 < 2 ^ (- (t - 1))) by (apply Z.pow_pos_nonneg; lia). nia. }
  assert (Hup : ~ at_least n d (t + 1)).
  { unfold at_least. destruct (Z.le_gt_cases 0 (t + 1)) as [Ht|Ht].
    - rewrite (pow2_nonneg (t + 1)), (pow2_nonpos (- (t + 1))) by lia.
      assert (E : 2 ^ b * 2 ^ (t + 1) = 2 ^ Z.succ a)
        by (rewrite <- Z.pow_add_r by lia; f_equal; lia).
      assert (0 < 2 ^ (t + 1)) by (apply Z.pow_pos_nonneg; lia). nia.
    - rewrite (pow2_nonpos (t + 1)), (pow2_nonneg (- (t + 1))) by lia.
      assert (E : 2 ^ Z.succ a * 2 ^ (- (t + 1)) = 2 ^ b)
        by (rewrite <- Z.pow_add_r by lia; f_equal; lia).
      assert (0 < 2 ^ (- (t + 1))) by (apply Z.pow_pos_nonneg; lia). nia. }
  assert (Htest : (if 0 <=? t then d * 2 ^ t <=? n else d <=? n * 2 ^ (- t)) = true
                  <-> at_least n d t).
  { unfold at_least. destruct (0 <=? t) eqn:Ht.
    - apply Z.leb_le in Ht.
      rewrite (pow2_nonneg t), (pow2_nonpos (- t)) by lia.
      rewrite Z.leb_le. lia.
    - apply Z.leb_gt in Ht.
      rewrite (pow2_nonpos t), (pow2_nonneg (- t)) by lia.
      rewrite Z.leb_le. lia. }
  destruct (if 0 <=? t then d * 2 ^ t <=? n else d <=? n * 2 ^ (- t)) eqn:Hc.
  - split; [apply Htest; reflexivity|exact Hup].
  - split; [exact Hlow|].
    replace (t - 1 + 1) with t by lia. intros H. apply Htest in H. discriminate.
Qed.

Lemma ilog2_ratio_unique (n d k : Z) :
  0 < n -> 0 < d -> at_least n d k -> ~ at_least n d (k + 1) -> ilog2_ratio n d = k.
Proof.
  intros Hn Hd H1 H2.
  destruct (ilog2_ratio_spec n d Hn Hd) as [H3 H4].
  destruct (Z.lt_trichotomy (ilog2_ratio n d) k) as [Hlt|[Heq|Hgt]]; [|exact Heq|].
  - destruct H4. apply (at_least_mono n d _ k); [lia|exact Hd|lia|exact H1].
  - destruct H2. apply (at_least_mono n d _ (ilog2_ratio n d)); [lia|exact Hd|lia|exact H3].
Qed.

Lemma round_half_even_exact (k d : Z) : 0 < d -> round_half_even (k * d) d = k.
Proof.
  intros Hd. unfold round_half_even.
  rewrite Z.div_mul, Z.mod_mul by lia.
  replace (2 * 0 <? d) with true by (symmetry; apply Z.ltb_lt; lia). reflexivity.
Qed.

Lemma round_half_even_upper (n d k : Z) :
  0 < d -> n < k * d -> round_half_even n d <= k.
Proof.
  intros Hd H. unfold round_half_even.
  assert (n / d < k) by (apply Z.div_lt_upper_bound; lia).
  destruct (2 * (n mod d) <? d); [lia|].
  destruct (d <? 2 * (n mod d)); [lia|]. destruct (Z.even (n / d)); lia.
Qed.

Lemma round_half_even_lower (n d k : Z) :
  0 < d -> k * d <= n -> k <= round_half_even n d.
Proof.
  intros Hd H. unfold round_half_even.
  assert (k <= n / d) by (apply Z.div_le_lower_bound; lia).
  destruct (2 * (n mod d) <? d); [lia|].
  destruct (d <? 2 * (n mod d)); [lia|]. destruct (Z.even (n / d)); lia.
Qed.

(** The quotient [round64] rounds, by [pow2]. *)
Lemma round64_scaled (n d e : Z) :
  (if 0 <=? e then round_half_even n (d * 2 ^ e)
   else round_half_even (n * 2 ^ (- e)) d)
  = round_half_even (n * pow2 (- e)) (d * pow2 e).
Proof.
  destruct (0 <=? e) eqn:He.
  - apply Z.leb_le in He.
    rewrite (pow2_nonneg e), (pow2_nonpos (- e)), Z.mul_1_r by lia. reflexivity.
  - apply Z.leb_gt in He.
    rewrite (pow2_nonpos e), (pow2_nonneg (- e)), Z.mul_1_r by lia. reflexivity.
Qed.

Lemma at_least_nonneg (n d c : Z) :
  0 <= c -> at_least n d c <-> d * 2 ^ c <= n.
Proof.
  intros Hc. unfold at_least.
  rewrite (pow2_nonneg c), (pow2_nonpos (- c)) by lia. lia.
Qed.

(** What [round64] returns is a float64 in canonical form. *)
Lemma round64_valid (neg : bool) (n d : Z) (f : float64) :
  0 <= n -> 0 < d -> round64 neg n d = Some f -> valid f.
Proof.
  intros Hn Hd. unfold round64.
  destruct (n =? 0) eqn:Hz.
  { intros H. injection H as <-. simpl. unfold canonical. lia. }
  apply Z.eqb_neq in Hz. assert (Hn' : 0 < n) by lia.
  destruct (ilog2_ratio_spec n d Hn' Hd) as [Hlo Hup].
  set (k := ilog2_ratio n d) in *.
  set (e := Z.max (k - 52) (-1074)).
  rewrite round64_scaled.
  set (n' := n * pow2 (- e)). set (d' := d * pow2 e).
  assert (Hd' : 0 < d') by (apply Z.mul_pos_pos; [exact Hd|apply pow2_pos]).
  assert (Hn'' : 0 <= n') by (apply Z.mul_nonneg_nonneg; [lia|pose proof (pow2_pos (- e)); lia]).
  assert (Hq1 : round_half_even n' d' <= 2 ^ 53).
  { apply round_half_even_upper; [exact Hd'|].
    assert (H : ~ at_least n d (e + 53)).
    { intros H. apply Hup. apply (at_least_mono n d _ (e + 53)); [lia|exact Hd|lia|exact H]. }
    rewrite at_least_shift in H. fold n' d' in H.
    rewrite at_least_nonneg in H by lia. lia. }
  assert (Hq0 : 0 <= round_half_even n' d').
  { apply round_half_even_lower; [exact Hd'|lia]. }
  assert (Hq2 : -1074 < e -> 2 ^ 52 <= round_half_even n' d').
  { intros He. apply round_half_even_lower; [exact Hd'|].
    assert (H : at_least n d (e + 52)) by (replace (e + 52) with k by lia; exact Hlo).
    rewrite at_least_shift in H. fold n' d' in H.
    rewrite at_least_nonneg in H by lia. lia. }
  set (q := round_half_even n' d') in *.
  destruct (q =? 2 ^ 53) eqn:Hq.
  - destruct (971 <? e + 1) eqn:He; [discriminate|].
    apply Z.ltb_ge in He. intros H. injection H as <-. simpl. unfold canonical. lia.
  - apply Z.eqb_neq in Hq.
    destruct (971 <? e) eqn:He; [discriminate|].
    apply Z.ltb_ge in He. intros H. injection H as <-. simpl. unfold canonical.
    destruct (Z.eq_dec e (-1074)) as [E|E]; [lia|].
    assert (-1074 < e) by lia. specialize (Hq2 H). lia.
Qed.

(** A value that is a float64 rounds to itself. *)
Lemma round64_exact (neg : bool) (n d m e : Z) :
  0 < n -> 0 < d -> canonical m e ->
  n * pow2 (- e) = m * (d * pow2 e) ->
  round64 neg n d = Some (Fin neg m e).
Proof.
  intros Hn Hd (Hm & He & Hc) Hv. unfold round64.
  replace (n =? 0) with false by (symmetry; apply Z.eqb_neq; lia).
  pose proof (pow2_pos e) as Hpe. pose proof (pow2_pos (- e)) as Hpe'.
  assert (Hd' : 0 < d * pow2 e) by (apply Z.mul_pos_pos; assumption).
  assert (Hm0 : 0 < m) by nia.
  assert (Hk : Z.max (ilog2_ratio n d - 52) (-1074) = e).
  { destruct (Z_lt_le_dec m (2 ^ 52)) as [Hsmall|Hbig].
    - assert (E : e = -1074) by lia.
      assert (H : ~ at_least n d (e + 52)).
      { rewrite at_least_shift, at_least_nonneg, Hv by lia. nia. }
      destruct (ilog2_ratio_spec n d Hn Hd) as [Hlo _].
      destruct (Z_lt_le_dec (ilog2_ratio n d) (e + 52)) as [Hlt|Hge]; [lia|].
      destruct H. apply (at_least_mono n d _ (ilog2_ratio n d)); [lia|exact Hd|exact Hge|exact Hlo].
    - rewrite (ilog2_ratio_unique n d (e + 52) Hn Hd).
      + lia.
      + rewrite at_least_shift, at_least_nonneg, Hv by lia. nia.
      + replace (e + 52 + 1) with (e + 53) by lia.
        rewrite at_least_shift, at_least_nonneg, Hv by lia. nia. }
  rewrite Hk. rewrite round64_scaled, Hv, round_half_even_exact by exact Hd'.
  replace (m =? 2 ^ 53) with false by (symmetry; apply Z.eqb_neq; lia).
  replace (971 <? e) with false by (symmetry; apply Z.ltb_ge; lia).
  reflexivity.
Qed.

Lemma scaled64_valid (neg : bool) (base m exp : Z) (f : float64) :
  0 < base -> 0 <= m -> scaled64 neg base m exp = Some f -> valid f.
Proof.
  intros Hb Hm. unfold scaled64.
  destruct (0 <=? exp) eqn:He; intros H.
  - apply Z.leb_le in He. eapply round64_valid; [| |exact H]; [|lia].
    apply Z.mul_nonneg_nonneg; [exact Hm|]. apply Z.pow_nonneg. lia.
  - apply Z.leb_gt in He. eapply round64_valid; [exact Hm| |exact H].
    apply Z.pow_pos_nonneg; lia.
Qed.

Lemma round_half_even_error (n d : Z) :
  0 < d -> 2 * Z.abs (round_half_even n d * d - n) <= d.
Proof.
  intros Hd. unfold round_half_even.
  pose proof (Z.div_mod n d ltac:(lia)) as E.
  pose proof (Z.mod_pos_bound n d Hd) as Hr.
  destruct (2 * (n mod d) <? d) eqn:H1; [apply Z.ltb_lt in H1; lia|].
  apply Z.ltb_ge in H1.
  destruct (d <? 2 * (n mod d)) eqn:H2; [apply Z.ltb_lt in H2; lia|].
  apply Z.ltb_ge in H2. destruct (Z.even (n / d)); lia.
Qed.

(** [round64] rounds to nearest: what it returns is within half a unit
    in the last place of [n / d]. *)
Lemma round64_nearest (neg : bool) (n d : Z) (s : bool) (m e : Z) :
  0 <= n -> 0 < d -> round64 neg n d = Some (Fin s m e) ->
  2 * Z.abs (m * (d * pow2 e) - n * pow2 (- e)) <= d * pow2 e.
Proof.
  intros Hn Hd. unfold round64.
  destruct (n =? 0) eqn:Hz.
  { apply Z.eqb_eq in Hz. subst n. intros H. injection H as _ <- <-.
    pose proof (pow2_pos (-1074)). nia. }
  set (e0 := Z.max (ilog2_ratio n d - 52) (-1074)).
  rewrite round64_scaled.
  pose proof (pow2_pos e0) as HA. pose proof (pow2_pos (- e0)) as HA'.
  assert (Hd' : 0 < d * pow2 e0) by (apply Z.mul_pos_pos; assumption).
  pose proof (round_half_even_error (n * pow2 (- e0)) (d * pow2 e0) Hd') as Herr.
  set (q := round_half_even (n * pow2 (- e0)) (d * pow2 e0)) in *.
  destruct (q =? 2 ^ 53) eqn:Hq.
  - apply Z.eqb_eq in Hq. destruct (971 <? e0 + 1); [discriminate|].
    intros H. injection H as _ <- <-.
    pose proof (pow2_add e0 1) as E.
    rewrite (pow2_nonpos (Z.opp 1)), (pow2_nonneg 1) in E by lia.
    change (2 ^ 1) with 2 in E.
    pose proof (pow2_pos (e0 + 1)) as HB. pose proof (pow2_pos (- (e0 + 1))) as HB'.
    set (A := pow2 e0) in *. set (A' := pow2 (- e0)) in *.
    set (B := pow2 (e0 + 1)) in *. set (B' := pow2 (- (e0 + 1))) in *.
    rewrite Hq in Herr. change (2 ^ 53) with (2 * 2 ^ 52) in Herr.
    apply (Z.mul_le_mono_pos_r _ _ A' HA').
    replace (2 * Z.abs (2 ^ 52 * (d * B) - n * B') * A')
      with (2 * Z.abs ((2 ^ 52 * (d * B) - n * B') * A'))
      by (rewrite Z.abs_mul, (Z.abs_eq A') by lia; ring).
    replace ((2 ^ 52 * (d * B) - n * B') * A')
      with (B' * (2 * 2 ^ 52 * (d * A) - n * A')) by nia.
    replace (d * B * A') with (B' * (2 * (d * A))) by nia.
    rewrite Z.abs_mul, (Z.abs_eq B') by lia. nia.
  - destruct (971 <? e0); [discriminate|].
    intros H. injection H as _ <- <-. exact Herr.
Qed.

(** ** Reading back what the formatting functions print *)

Import Format.

Lemma is_digit_range (c : ascii) : is_digit c = true <-> 48 <= byte c <= 57.
Proof.
  unfold is_digit, between. change (byte "0") with 48. change (byte "9") with 57.
  rewrite andb_true_iff, !Z.leb_le. reflexivity.
Qed.

Lemma byte_digit (d : Z) : 0 <= d <= 9 -> byte (digit d) = 48 + d.
Proof.
  intros H.
  assert (E : d = 0 \/ d = 1 \/ d = 2 \/ d = 3 \/ d = 4 \/ d = 5 \/ d = 6
              \/ d = 7 \/ d = 8 \/ d = 9) by lia.
  repeat (destruct E as [->|E]; [reflexivity|]). subst d. reflexivity.
Qed.

Lemma digits_val_app (a b : string) (acc : Z) :
  digits_val (a +:+ b) acc = digits_val b (digits_val a acc).
Proof. revert acc. induction a as [|c a IH]; intros acc; [reflexivity|apply IH]. Qed.

Lemma all_digits_app (a b : string) :
  all_digits (a +:+ b) = all_digits a && all_digits b.
Proof.
  induction a as [|c a IH]; [reflexivity|].
  change (String c a +:+ b) with (String c (a +:+ b)).
  cbn [all_digits]. rewrite IH, andb_assoc. reflexivity.
Qed.

Lemma length_append (a b : string) :
  String.length (a +:+ b) = (String.length a + String.length b)%nat.
Proof. induction a as [|c a IH]; [reflexivity|]. simpl. rewrite IH. reflexivity. Qed.

Lemma digits_val_ge (s : string) :
  forall acc, all_digits s = true -> 0 <= acc -> acc <= digits_val s acc.
Proof.
  induction s as [|c s IH]; intros acc Hs Hacc; [simpl; lia|].
  cbn [all_digits] in Hs. apply andb_prop in Hs as [Hc Hs].
  apply is_digit_range in Hc. cbn [digits_val].
  specialize (IH (acc * 10 + (byte c - 48)) Hs). lia.
Qed.

(** The digits [digits_upto] puts in front of [acc]. *)
Lemma digits_upto_spec (fuel : nat) :
  forall n acc,
    0 <= n < 10 ^ Z.of_nat (S fuel) -> all_digits acc = true ->
    exists c ds,
      digits_upto (S fuel) n acc = String c ds
      /\ is_digit c = true /\ all_digits ds = true
      /\ (0 < n -> byte c <> 48)
      /\ exists k, 0 < k
         /\ Z.of_nat (String.length (String c ds)) = k + Z.of_nat (String.length acc)
         /\ forall a, digits_val (String c ds) a = digits_val acc (a * 10 ^ k + n).
Proof.
  assert (Hone : forall n acc, 0 <= n < 10 -> all_digits acc = true ->
            exists c ds,
              String (digit n) acc = String c ds
              /\ is_digit c = true /\ all_digits ds = true
              /\ (0 < n -> byte c <> 48)
              /\ exists k, 0 < k
                 /\ Z.of_nat (String.length (String c ds)) = k + Z.of_nat (String.length acc)
                 /\ forall a, digits_val (String c ds) a = digits_val acc (a * 10 ^ k + n)).
  { intros n acc Hn Hacc. exists (digit n), acc. split_all; try reflexivity.
    - apply is_digit_range. rewrite byte_digit by lia. lia.
    - exact Hacc.
    - intros H. rewrite byte_digit by lia. lia.
    - exists 1. split_all; [lia| |].
      + cbn [String.length]. lia.
      + intros a. cbn [digits_val]. rewrite byte_digit by lia.
        f_equal. change (10 ^ 1) with 10. lia. }
  induction fuel as [|fuel IH]; intros n acc Hn Hacc.
  - change (10 ^ Z.of_nat 1) with 10 in Hn.
    cbn [digits_upto].
    replace (n <? 10) with true by (symmetry; apply Z.ltb_lt; lia).
    rewrite Z.mod_small by lia. apply Hone; [lia|exact Hacc].
  - remember (S fuel) as fuel' eqn:Hf. cbn [digits_upto].
    assert (Hmod : 0 <= n mod 10 <= 9) by (pose proof (Z.mod_pos_bound n 10); lia).
    destruct (n <? 10) eqn:Hlt.
    + apply Z.ltb_lt in Hlt. rewrite Z.mod_small by lia. apply Hone; [lia|exact Hacc].
    + apply Z.ltb_ge in Hlt. subst fuel'.
      assert (Hdiv : 0 < n / 10) by (apply Z.div_str_pos; lia).
      assert (Hfuel : n / 10 < 10 ^ Z.of_nat (S fuel)).
      { apply Z.div_lt_upper_bound; [lia|].
        replace (Z.of_nat (S (S fuel))) with (Z.of_nat (S fuel) + 1) in Hn by lia.
        rewrite Z.pow_add_r in Hn by lia. change (10 ^ 1) with 10 in Hn. lia. }
      destruct (IH (n / 10) (String (digit (n mod 10)) acc))
        as (c & ds & E & Hc & Hds & Hnz & k & Hk & Hlen & Hval).
      * lia.
      * cbn [all_digits]. rewrite Hacc, andb_true_r.
        apply is_digit_range. rewrite byte_digit by lia. lia.
      * exists c, ds. split_all; [exact E|exact Hc|exact Hds| |].
        -- intros _. apply Hnz. exact Hdiv.
        -- exists (k + 1). split_all; [lia| |].
           ++ rewrite Hlen. cbn [String.length]. lia.
           ++ intros a. rewrite Hval. cbn [digits_val]. rewrite byte_digit by lia.
              f_equal. rewrite Z.pow_add_r by lia. change (10 ^ 1) with 10.
              pose proof (Z.div_mod n 10). lia.
Qed.

(** The digits of [FormatUint n]: a non-empty string of decimal digits,
    whose first is not 0 unless [n] is, and whose value is [n]. *)
Lemma FormatUint_spec (n : Z) :
  0 <= n ->
  exists c ds,
    FormatUint n = String c ds
    /\ is_digit c = true /\ all_digits ds = true
    /\ (0 < n -> byte c <> 48)
    /\ digits_val (String c ds) 0 = n.
Proof.
  intros Hn. unfold FormatUint.
  destruct (digits_upto_spec (Z.to_nat (Z.log2 n)) n EmptyString)
    as (c & ds & E & Hc & Hds & Hnz & k & Hk & Hlen & Hval).
  - split; [exact Hn|].
    destruct (Z.eq_dec n 0) as [->|Hne]; [simpl; lia|].
    pose proof (Z.log2_spec n ltac:(lia)) as [_ Hlog].
    pose proof (Z.log2_nonneg n) as Hl.
    replace (Z.of_nat (S (Z.to_nat (Z.log2 n)))) with (Z.succ (Z.log2 n)) by lia.
    eapply Z.lt_le_trans; [exact Hlog|].
    apply Z.pow_le_mono_l. lia.
  - reflexivity.
  - exists c, ds. split_all; try assumption.
    rewrite Hval. simpl. lia.
Qed.

Lemma digits_upto_length (fuel : nat) :
  forall n acc,
    (String.length (digits_upto fuel n acc) <= fuel + String.length acc)%nat.
Proof.
  induction fuel as [|fuel IH]; intros n acc; cbn [digits_upto]; [lia|].
  destruct (n <? 10); [cbn [String.length]; lia|].
  specialize (IH (n / 10) (String (digit (n mod 10)) acc)).
  cbn [String.length] in IH. lia.
Qed.

(** *** The mantissa loop on decimal digits *)

Lemma read_mantissa_digit (c : ascii) (rest : string) (dot dg us : bool) (nd dp m : Z) :
  is_digit c = true ->
  read_mantissa 10 (String c rest) (Mant dot dg us nd dp m)
  = if (byte c =? 48) && (nd =? 0)
    then read_mantissa 10 rest (Mant dot true us nd (dp - 1) m)
    else read_mantissa 10 rest (Mant dot true us (nd + 1) dp (m * 10 + (byte c - 48))).
Proof.
  intros Hc. pose proof Hc as Hr. apply is_digit_range in Hr.
  cbn [read_mantissa]. unfold is_digit in Hc. rewrite Hc.
  change (byte "_") with 95. change (byte ".") with 46. change (byte "0") with 48.
  replace (byte c =? 95) with false by (symmetry; apply Z.eqb_neq; lia).
  replace (byte c =? 46) with false by (symmetry; apply Z.eqb_neq; lia).
  reflexivity.
Qed.

Lemma read_mantissa_digits (ds : string) :
  forall rest dot us nd dp m,
    all_digits ds = true -> 0 < nd ->
    read_mantissa 10 (ds +:+ rest) (Mant dot true us nd dp m)
    = read_mantissa 10 rest
        (Mant dot true us (nd + Z.of_nat (String.length ds)) dp (digits_val ds m)).
Proof.
  induction ds as [|c ds IH]; intros rest dot us nd dp m Hds Hnd.
  - simpl. rewrite Z.add_0_r. reflexivity.
  - cbn [all_digits] in Hds. apply andb_prop in Hds as [Hc Hds].
    change (String c ds +:+ rest) with (String c (ds +:+ rest)).
    rewrite (read_mantissa_digit _ _ _ _ _ _ _ _ Hc).
    replace (nd =? 0) with false by (symmetry; apply Z.eqb_neq; lia).
    rewrite andb_false_r, IH by (assumption || lia).
    cbn [String.length digits_val]. f_equal. f_equal. lia.
Qed.

(** A first digit that is not a leading zero, and the digits after it. *)
Lemma read_mantissa_number (c : ascii) (ds rest : string) (dot dg us : bool) (nd dp m : Z) :
  is_digit c = true -> all_digits ds = true -> 0 <= nd ->
  byte c <> 48 \/ 0 < nd ->
  read_mantissa 10 (String c ds +:+ rest) (Mant dot dg us nd dp m)
  = read_mantissa 10 rest
      (Mant dot true us (nd + Z.of_nat (String.length (String c ds))) dp
            (digits_val (String c ds) m)).
Proof.
  intros Hc Hds Hnd Hlead.
  change (String c ds +:+ rest) with (String c (ds +:+ rest)).
  rewrite (read_mantissa_digit _ _ _ _ _ _ _ _ Hc).
  replace ((byte c =? 48) && (nd =? 0)) with false.
  2:{ symmetry. apply andb_false_iff. destruct Hlead as [H|H];
      [left; apply Z.eqb_neq; exact H|right; apply Z.eqb_neq; lia]. }
  rewrite read_mantissa_digits by (assumption || lia).
  cbn [String.length digits_val]. f_equal. f_equal. lia.
Qed.

(** Zeros before the first digit that counts only move the point. *)
Lemma read_mantissa_zeros (k : nat) :
  forall rest dot dg us dp m,
    read_mantissa 10 (zeros k +:+ rest) (Mant dot dg us 0 dp m)
    = read_mantissa 10 rest
        (Mant dot (dg || negb (k =? 0)%nat) us 0 (dp - Z.of_nat k) m).
Proof.
  induction k as [|k IH]; intros rest dot dg us dp m.
  - simpl. rewrite orb_false_r, Z.sub_0_r. reflexivity.
  - change (zeros (S k) +:+ rest) with (String "0" (zeros k +:+ rest)).
    rewrite read_mantissa_digit by reflexivity.
    change ((byte "0" =? 48) && (0 =? 0)) with true. cbv iota.
    rewrite IH. simpl negb. rewrite orb_true_r. f_equal. f_equal. lia.
Qed.

Lemma read_mantissa_point (rest : string) (dg us : bool) (nd dp m : Z) :
  read_mantissa 10 (String "." rest) (Mant false dg us nd dp m)
  = read_mantissa 10 rest (Mant true dg us nd nd m).
Proof. reflexivity. Qed.

Lemma read_mantissa_e (rest : string) (st : mant) :
  read_mantissa 10 (String "e" rest) st = (st, String "e" rest).
Proof. destruct st. reflexivity. Qed.

Lemma read_mantissa_end (st : mant) : read_mantissa 10 EmptyString st = (st, EmptyString).
Proof. reflexivity. Qed.

(** *** The exponent loop on decimal digits *)

Lemma read_exponent_digits (ds : string) :
  forall us e,
    all_digits ds = true -> 0 <= e -> digits_val ds e < 100000 ->
    read_exponent ds us e = (digits_val ds e, us, EmptyString).
Proof.
  induction ds as [|c ds IH]; intros us e Hds He Hv; [reflexivity|].
  cbn [all_digits] in Hds. apply andb_prop in Hds as [Hc Hds].
  pose proof Hc as Hr. apply is_digit_range in Hr.
  cbn [digits_val] in Hv |- *.
  pose proof (digits_val_ge ds (e * 10 + (byte c - 48)) Hds ltac:(lia)) as Hge.
  cbn [read_exponent]. unfold is_digit in Hc. rewrite Hc.
  change (byte "_") with 95. change (byte "0") with 48.
  replace (byte c =? 95) with false by (symmetry; apply Z.eqb_neq; lia).
  replace (e <? 10000) with true by (symmetry; apply Z.ltb_lt; lia).
  apply IH; [exact Hds|lia|exact Hv].
Qed.

(** *** A decimal literal as a whole *)

Lemma special_digit (c : ascii) (r : string) :
  is_digit c = true ->
  special (String c r) = None /\ special (String "-" (String c r)) = None.
Proof.
  intros Hc. apply is_digit_range in Hc.
  assert (Hpre : commonPrefixLenIgnoreCase (String c r) "infinity" = O).
  { cbn [commonPrefixLenIgnoreCase]. unfold between.
    change (byte "A") with 65. change (byte "Z") with 90. change (byte "i") with 105.
    replace (65 <=? byte c) with false by (symmetry; apply Z.leb_gt; lia).
    cbn [andb]. replace (byte c =? 105) with false by (symmetry; apply Z.eqb_neq; lia).
    reflexivity. }
  split.
  - unfold special.
    change (byte "+") with 43. change (byte "-") with 45. change (byte "i") with 105.
    change (byte "I") with 73. change (byte "n") with 110. change (byte "N") with 78.
    replace (byte c =? 43) with false by (symmetry; apply Z.eqb_neq; lia).
    replace (byte c =? 45) with false by (symmetry; apply Z.eqb_neq; lia).
    replace (byte c =? 105) with false by (symmetry; apply Z.eqb_neq; lia).
    replace (byte c =? 73) with false by (symmetry; apply Z.eqb_neq; lia).
    replace (byte c =? 110) with false by (symmetry; apply Z.eqb_neq; lia).
    replace (byte c =? 78) with false by (symmetry; apply Z.eqb_neq; lia).
    reflexivity.
  - unfold special.
    change ((byte "-" =? byte "+") || (byte "-" =? byte "-")) with true. cbv iota.
    rewrite Hpre. reflexivity.
Qed.

Lemma read_sign_digit (c : ascii) (r : string) :
  is_digit c = true -> read_sign (String c r) = (false, String c r).
Proof.
  intros Hc. apply is_digit_range in Hc. unfold read_sign.
  change (byte "+") with 43. change (byte "-") with 45.
  replace (byte c =? 43) with false by (symmetry; apply Z.eqb_neq; lia).
  replace (byte c =? 45) with false by (symmetry; apply Z.eqb_neq; lia).
  reflexivity.
Qed.

(** A literal that starts with a digit, once its mantissa and its
    exponent have been read to the end. *)
Lemma ParseFloat_decimal (neg : bool) (c0 : ascii) (r0 s3 : string)
    (dot : bool) (nd dp m dp' : Z) :
  is_digit c0 = true ->
  read_base (String c0 r0) = (false, String c0 r0) ->
  read_mantissa 10 (String c0 r0) (Mant false false false 0 0 0)
  = (Mant dot true false nd dp m, s3) ->
  read_exp false s3 (if dot then dp else nd) false = Some (dp', false, EmptyString) ->
  ParseFloat ((if neg then "-" else "") +:+ String c0 r0)
  = scaled64 neg 10 m (if m =? 0 then 0 else dp' - nd).
Proof.
  intros Hc Hbase Hmant Hexp.
  destruct (special_digit c0 r0 Hc) as [Hsp Hsn].
  unfold ParseFloat.
  destruct neg.
  - change ("-" +:+ String c0 r0) with (String "-" (String c0 r0)).
    rewrite Hsn. unfold readFloat.
    change (read_sign (String "-" (String c0 r0))) with (true, String c0 r0).
    cbv iota beta. rewrite Hbase. cbv iota beta. rewrite Hmant. cbv iota beta.
    cbn [negb]. rewrite Hexp. cbv iota beta. cbn [andb]. reflexivity.
  - change ("" +:+ String c0 r0) with (String c0 r0).
    rewrite Hsp. unfold readFloat. rewrite (read_sign_digit _ _ Hc).
    cbv iota beta. rewrite Hbase. cbv iota beta. rewrite Hmant. cbv iota beta.
    cbn [negb]. rewrite Hexp. cbv iota beta. cbn [andb]. reflexivity.
Qed.

Lemma append_empty_r (s : string) : s +:+ EmptyString = s.
Proof.
  induction s as [|c s IH]; [reflexivity|].
  change (String c s +:+ EmptyString) with (String c (s +:+ EmptyString)).
  rewrite IH. reflexivity.
Qed.

Lemma take_drop_bytes (k : nat) :
  forall s, take_bytes k s +:+ drop_bytes k s = s.
Proof.
  induction k as [|k IH]; intros s; [reflexivity|].
  destruct s as [|c s]; [reflexivity|].
  change (String c (take_bytes k s +:+ drop_bytes k s) = String c s).
  rewrite IH. reflexivity.
Qed.

Lemma take_bytes_length (k : nat) :
  forall s, (k <= String.length s)%nat -> String.length (take_bytes k s) = k.
Proof.
  induction k as [|k IH]; intros s Hk; [destruct s; reflexivity|].
  destruct s as [|c s]; simpl in *; [lia|]. rewrite IH by lia. reflexivity.
Qed.

Lemma all_digits_zeros (k : nat) : all_digits (zeros k) = true.
Proof. induction k as [|k IH]; [reflexivity|exact IH]. Qed.

Lemma length_zeros (k : nat) : String.length (zeros k) = k.
Proof. induction k as [|k IH]; [reflexivity|]. simpl. rewrite IH. reflexivity. Qed.

Lemma digits_val_zeros (k : nat) :
  forall a, digits_val (zeros k) a = a * 10 ^ Z.of_nat k.
Proof.
  induction k as [|k IH]; intros a; [simpl; lia|].
  cbn [zeros digits_val]. rewrite IH. change (byte "0" - 48) with 0.
  replace (Z.of_nat (S k)) with (Z.of_nat k + 1) by lia.
  rewrite Z.pow_add_r by lia. change (10 ^ 1) with 10. ring.
Qed.

Lemma read_base_nonzero (c : ascii) (r : string) :
  byte c <> 48 -> read_base (String c r) = (false, String c r).
Proof.
  intros Hc. unfold read_base. change (byte "0") with 48.
  replace (byte c =? 48) with false by (symmetry; apply Z.eqb_neq; exact Hc).
  destruct r as [|d1 [|d2 r]]; reflexivity.
Qed.

Lemma read_base_point (r : string) :
  read_base (String "0" (String "." r)) = (false, String "0" (String "." r)).
Proof. destruct r; reflexivity. Qed.

Lemma read_exp_none (dp : Z) :
  read_exp false EmptyString dp false = Some (dp, false, EmptyString).
Proof. reflexivity. Qed.

(** The exponent as [%e] prints it: a sign and two digits at least. *)
Lemma read_exp_printed (exp dp : Z) :
  Z.abs exp < 100000 ->
  read_exp false
    ("e" +:+ (if exp <? 0 then "-" else "+")
         +:+ (if Z.abs exp <? 10 then "0" else "") +:+ FormatUint (Z.abs exp))
    dp false
  = Some (dp + exp, false, EmptyString).
Proof.
  intros Hexp.
  destruct (FormatUint_spec (Z.abs exp) ltac:(lia)) as (c & ds & E & Hc & Hds & _ & Hval).
  rewrite E.
  set (pad := if Z.abs exp <? 10 then "0" else EmptyString).
  assert (Hpad : exists c' ds', pad +:+ String c ds = String c' ds'
                   /\ is_digit c' = true /\ all_digits ds' = true
                   /\ digits_val (String c' ds') 0 = Z.abs exp).
  { unfold pad. destruct (Z.abs exp <? 10).
    - exists "0"%char, (String c ds). split_all; [reflexivity|reflexivity| |].
      + cbn [all_digits]. rewrite Hc, Hds. reflexivity.
      + rewrite <- Hval. reflexivity.
    - exists c, ds. split_all; [reflexivity|exact Hc|exact Hds|exact Hval]. }
  destruct Hpad as (c' & ds' & Epad & Hc' & Hds' & Hval').
  assert (Hread : forall us, read_exponent (String c' ds') us 0
                  = (Z.abs exp, us, EmptyString)).
  { intros us. rewrite <- Hval'. apply read_exponent_digits.
    - cbn [all_digits]. rewrite Hc', Hds'. reflexivity.
    - lia.
    - rewrite Hval'. exact Hexp. }
  destruct (exp <? 0) eqn:Hneg.
  - apply Z.ltb_lt in Hneg.
    change ("e" +:+ "-" +:+ pad +:+ String c ds)
      with (String "e" (String "-" (pad +:+ String c ds))).
    rewrite Epad. unfold read_exp.
    change (lower (byte "e") =? byte "e") with true. cbv iota.
    change (byte "-" =? byte "+") with false.
    change (byte "-" =? byte "-") with true. cbv iota beta.
    unfold is_digit in Hc'. rewrite Hc', Hread. cbv iota beta.
    f_equal. f_equal. f_equal. lia.
  - apply Z.ltb_ge in Hneg.
    change ("e" +:+ "+" +:+ pad +:+ String c ds)
      with (String "e" (String "+" (pad +:+ String c ds))).
    rewrite Epad. unfold read_exp.
    change (lower (byte "e") =? byte "e") with true. cbv iota.
    change (byte "+" =? byte "+") with true. cbv iota beta.
    unfold is_digit in Hc'. rewrite Hc', Hread. cbv iota beta.
    f_equal. f_equal. f_equal. lia.
Qed.

Lemma digits_val_pos (c : ascii) (ds : string) :
  is_digit c = true -> all_digits ds = true -> byte c <> 48 ->
  0 < digits_val (String c ds) 0.
Proof.
  intros Hc Hds Hnz. apply is_digit_range in Hc. cbn [digits_val].
  pose proof (digits_val_ge ds (0 * 10 + (byte c - 48)) Hds ltac:(lia)). lia.
Qed.

(** [%e] reads back as its digits scaled by the power of ten it prints. *)
Lemma ParseFloat_fmtE (neg : bool) (c : ascii) (ds : string) (dp : Z) :
  is_digit c = true -> all_digits ds = true -> byte c <> 48 ->
  Z.abs (dp - 1) < 100000 ->
  ParseFloat ((if neg then "-" else "") +:+ fmtE (String c ds) dp)
  = scaled64 neg 10 (digits_val (String c ds) 0)
             (dp - Z.of_nat (String.length (String c ds))).
Proof.
  intros Hc Hds Hnz Hexp.
  pose proof (digits_val_pos c ds Hc Hds Hnz) as Hpos.
  pose proof (read_exp_printed (dp - 1) 1 Hexp) as Hre.
  unfold fmtE.
  set (suffix := "e" +:+ (if dp - 1 <? 0 then "-" else "+")
                     +:+ (if Z.abs (dp - 1) <? 10 then "0" else "")
                     +:+ FormatUint (Z.abs (dp - 1))) in *.
  assert (Hsuf : exists r, suffix = String "e" r) by (eexists; reflexivity).
  destruct Hsuf as [r Hsuf].
  destruct ds as [|c1 ds1].
  - change (String c EmptyString +:+ suffix) with (String c suffix).
    erewrite (ParseFloat_decimal neg c suffix suffix false 1 0
                (digits_val (String c EmptyString) 0) (1 + (dp - 1)) Hc).
    + replace (digits_val (String c EmptyString) 0 =? 0) with false
        by (symmetry; apply Z.eqb_neq; lia).
      f_equal. cbn [String.length]. lia.
    + apply read_base_nonzero. exact Hnz.
    + change (String c suffix) with (String c EmptyString +:+ suffix).
      rewrite read_mantissa_number by (exact Hc || reflexivity || lia || (left; exact Hnz)).
      rewrite Hsuf, read_mantissa_e. reflexivity.
    + exact Hre.
  - change (String c (String "." (String c1 ds1)) +:+ suffix)
      with (String c (String "." (String c1 ds1 +:+ suffix))).
    erewrite (ParseFloat_decimal neg c (String "." (String c1 ds1 +:+ suffix)) suffix true
                (Z.of_nat (String.length (String c (String c1 ds1)))) 1
                (digits_val (String c (String c1 ds1)) 0) (1 + (dp - 1)) Hc).
    + replace (digits_val (String c (String c1 ds1)) 0 =? 0) with false
        by (symmetry; apply Z.eqb_neq; lia).
      f_equal. lia.
    + apply read_base_nonzero. exact Hnz.
    + rewrite (read_mantissa_digit _ _ _ _ _ _ _ _ Hc).
      replace (byte c =? 48) with false by (symmetry; apply Z.eqb_neq; exact Hnz).
      cbn [andb]. rewrite read_mantissa_point.
      rewrite read_mantissa_digits by (exact Hds || lia).
      rewrite Hsuf, read_mantissa_e. f_equal. f_equal.
      cbn [String.length]. lia.
    + exact Hre.
Qed.

(** [%f] reads back as its digits scaled by the place of its point. *)
Lemma ParseFloat_fmtF (neg : bool) (c : ascii) (ds : string) (dp : Z) :
  is_digit c = true -> all_digits ds = true -> byte c <> 48 ->
  ParseFloat ((if neg then "-" else "") +:+ fmtF (String c ds) dp)
  = scaled64 neg 10 (digits_val (String c ds) 0)
             (dp - Z.of_nat (String.length (String c ds))).
Proof.
  intros Hc Hds Hnz.
  pose proof (digits_val_pos c ds Hc Hds Hnz) as Hpos.
  unfold fmtF. set (nd := Z.of_nat (String.length (String c ds))).
  destruct (0 <? dp) eqn:Hdp; [destruct (nd <=? dp) eqn:Hnd|].
  - (* the digits, then zeros up to the point *)
    apply Z.leb_le in Hnd.
    set (z := Z.to_nat (dp - nd)).
    change (String c ds +:+ zeros z) with (String c (ds +:+ zeros z)).
    assert (Hall : all_digits (ds +:+ zeros z) = true)
      by (rewrite all_digits_app, Hds, all_digits_zeros; reflexivity).
    assert (Hm : digits_val (String c (ds +:+ zeros z)) 0
                 = digits_val (String c ds) 0 * 10 ^ (dp - nd)).
    { change (String c (ds +:+ zeros z)) with (String c ds +:+ zeros z).
      rewrite digits_val_app, digits_val_zeros. unfold z. f_equal. f_equal. lia. }
    erewrite (ParseFloat_decimal neg c (ds +:+ zeros z) EmptyString false
                (Z.of_nat (String.length (String c (ds +:+ zeros z)))) 0
                (digits_val (String c (ds +:+ zeros z)) 0)
                (Z.of_nat (String.length (String c (ds +:+ zeros z)))) Hc).
    + rewrite Z.sub_diag. rewrite Hm.
      assert (0 < 10 ^ (dp - nd)) by (apply Z.pow_pos_nonneg; lia).
      destruct (digits_val (String c ds) 0 * 10 ^ (dp - nd) =? 0); unfold scaled64;
        replace (0 <=? dp - nd) with true by (symmetry; apply Z.leb_le; lia);
        change (0 <=? 0) with true; cbv iota;
        rewrite Z.pow_0_r, Z.mul_1_r; reflexivity.
    + apply read_base_nonzero. exact Hnz.
    + rewrite <- (append_empty_r (String c (ds +:+ zeros z))) at 1.
      rewrite read_mantissa_number by (exact Hc || exact Hall || lia || (left; exact Hnz)).
      rewrite read_mantissa_end. reflexivity.
    + apply read_exp_none.
  - (* the point among the digits *)
    apply Z.ltb_lt in Hdp. apply Z.leb_gt in Hnd.
    destruct (Z.to_nat dp) as [|k] eqn:Hk; [lia|].
    assert (Hklen : (k <= String.length ds)%nat)
      by (unfold nd in Hnd; cbn [String.length] in Hnd; lia).
    cbn [take_bytes drop_bytes].
    change (String c (take_bytes k ds) +:+ "." +:+ drop_bytes k ds)
      with (String c (take_bytes k ds +:+ String "." (drop_bytes k ds))).
    pose proof (take_drop_bytes k ds) as Htd.
    assert (Hall : all_digits (take_bytes k ds) = true /\ all_digits (drop_bytes k ds) = true).
    { rewrite <- Htd, all_digits_app in Hds. apply andb_prop in Hds. exact Hds. }
    destruct Hall as [Htake Hdrop].
    erewrite (ParseFloat_decimal neg c (take_bytes k ds +:+ String "." (drop_bytes k ds))
                EmptyString true nd dp (digits_val (String c ds) 0) dp Hc).
    + replace (digits_val (String c ds) 0 =? 0) with false
        by (symmetry; apply Z.eqb_neq; lia).
      reflexivity.
    + apply read_base_nonzero. exact Hnz.
    + change (String c (take_bytes k ds +:+ String "." (drop_bytes k ds)))
        with (String c (take_bytes k ds) +:+ String "." (drop_bytes k ds)).
      rewrite read_mantissa_number by (exact Hc || exact Htake || lia || (left; exact Hnz)).
      rewrite read_mantissa_point.
      rewrite <- (append_empty_r (drop_bytes k ds)) at 1.
      rewrite read_mantissa_digits by (exact Hdrop || (cbn [String.length]; lia)).
      rewrite read_mantissa_end. f_equal.
      cbn [String.length]. rewrite (take_bytes_length k ds Hklen).
      assert (Hlen : String.length ds = (k + String.length (drop_bytes k ds))%nat).
      { rewrite <- Htd at 1. rewrite length_append, (take_bytes_length k ds Hklen).
        reflexivity. }
      f_equal.
      * unfold nd. cbn [String.length]. lia.
      * lia.
      * rewrite <- digits_val_app.
        change (String c (take_bytes k ds) +:+ drop_bytes k ds)
          with (String c (take_bytes k ds +:+ drop_bytes k ds)).
        rewrite Htd. reflexivity.
    + apply read_exp_none.
  - (* zeros between the point and the digits *)
    apply Z.ltb_ge in Hdp.
    set (k := Z.to_nat (- dp)).
    change ("0." +:+ zeros k +:+ String c ds)
      with (String "0" (String "." (zeros k +:+ String c ds))).
    erewrite (ParseFloat_decimal neg "0" (String "." (zeros k +:+ String c ds))
                EmptyString true nd dp (digits_val (String c ds) 0) dp eq_refl).
    + replace (digits_val (String c ds) 0 =? 0) with false
        by (symmetry; apply Z.eqb_neq; lia).
      reflexivity.
    + apply read_base_point.
    + rewrite read_mantissa_digit by reflexivity.
      change ((byte "0" =? 48) && (0 =? 0)) with true. cbv iota.
      rewrite read_mantissa_point, read_mantissa_zeros.
      rewrite <- (append_empty_r (String c ds)) at 1.
      rewrite read_mantissa_number by (exact Hc || exact Hds || lia || (left; exact Hnz)).
      rewrite read_mantissa_end. cbn [orb]. f_equal. f_equal; unfold k, nd; lia.
    + apply read_exp_none.
Qed.

(** What [layout] prints reads back as the decimal it was given. *)
Lemma ParseFloat_layout (neg : bool) (d e : Z) :
  0 < d -> Z.log2 d < 40000 -> -40000 < e < 40000 ->
  ParseFloat (layout neg d e) = scaled64 neg 10 d e.
Proof.
  intros Hd Hlog He. unfold layout.
  destruct (FormatUint_spec d ltac:(lia)) as (c & ds & E & Hc & Hds & Hnz & Hval).
  assert (Hlen : (String.length (FormatUint d) <= S (Z.to_nat (Z.log2 d)))%nat).
  { unfold FormatUint.
    pose proof (digits_upto_length (S (Z.to_nat (Z.log2 d))) d EmptyString) as H.
    change (String.length EmptyString) with O in H. rewrite Nat.add_0_r in H. exact H. }
  rewrite E in Hlen |- *. specialize (Hnz Hd).
  set (nd := Z.of_nat (String.length (String c ds))) in *.
  assert (Hnd : 0 < nd <= 40000).
  { unfold nd. cbn [String.length] in Hlen |- *.
    pose proof (Z.log2_nonneg d). lia. }
  cbv zeta. fold nd.
  destruct ((nd + e - 1 <? -4) || (6 <=? nd + e - 1)).
  - rewrite ParseFloat_fmtE by (exact Hc || exact Hds || exact Hnz || lia).
    rewrite Hval. fold nd. f_equal. lia.
  - rewrite ParseFloat_fmtF by (exact Hc || exact Hds || exact Hnz).
    rewrite Hval. fold nd. f_equal. lia.
Qed.

(** ** Printing a float64 and reading it back *)

(** What [%v] prints for a few floats. *)
Example FormatFloat_examples :
  option_map FormatFloat (ParseFloat "3.14") = Some "3.14"
  /\ option_map FormatFloat (ParseFloat "26") = Some "26"
  /\ option_map FormatFloat (ParseFloat "1000000") = Some "1e+06"
  /\ option_map FormatFloat (ParseFloat "-0.000012") = Some "-1.2e-05"
  /\ option_map FormatFloat (ParseFloat "0.0001") = Some "0.0001".
Proof. split_all; vm_compute; reflexivity. Qed.

Lemma float64_eqb_eq (x y : float64) : float64_eqb x y = true -> x = y.
Proof.
  destruct x as [|a|a m e], y as [|b|b m' e']; simpl; try discriminate.
  - reflexivity.
  - intros H. apply Bool.eqb_prop in H. congruence.
  - intros H. apply andb_prop in H as [H He]. apply andb_prop in H as [Hs Hm].
    apply Bool.eqb_prop in Hs. apply Z.eqb_eq in Hm, He. congruence.
Qed.

Lemma float64_eqb_refl (x : float64) : float64_eqb x x = true.
Proof.
  destruct x as [|a|a m e]; simpl; [reflexivity|apply Bool.eqb_reflx|].
  rewrite Bool.eqb_reflx, !Z.eqb_refl. reflexivity.
Qed.

Lemma reads_back_spec (neg : bool) (d e : Z) (f : float64) :
  reads_back neg d e f = true <-> scaled64 neg 10 d e = Some f.
Proof.
  unfold reads_back. destruct (scaled64 neg 10 d e) as [g|].
  - split; intros H.
    + apply float64_eqb_eq in H. congruence.
    + injection H as ->. apply float64_eqb_refl.
  - split; discriminate.
Qed.

(** What the search returns reads back as [f], and is no larger than
    [f] itself scaled to an integer. *)
Lemma shortest_from_sound (fuel : nat) (neg : bool) (num den : Z) (f : float64) :
  0 <= num -> 0 < den ->
  forall e d0 e0,
    shortest_from fuel neg num den f e = Some (d0, e0) ->
    scaled64 neg 10 d0 e0 = Some f
    /\ 0 < d0 <= num * 10 ^ Z.max 0 (- e0) + 1
    /\ e - Z.of_nat fuel < e0 <= e.
Proof.
  intros Hnum Hden.
  induction fuel as [|fuel IH]; intros e d0 e0; [discriminate|].
  cbn [shortest_from].
  set (n := if 0 <=? e then num else num * 10 ^ (- e)).
  set (d := if 0 <=? e then den * 10 ^ e else den).
  assert (Hn : 0 <= n <= num * 10 ^ Z.max 0 (- e)).
  { unfold n. destruct (0 <=? e) eqn:He.
    - apply Z.leb_le in He. rewrite Z.max_l by lia. simpl. lia.
    - apply Z.leb_gt in He. rewrite Z.max_r by lia.
      assert (0 < 10 ^ (- e)) by (apply Z.pow_pos_nonneg; lia). nia. }
  assert (Hd : 0 < d).
  { unfold d. destruct (0 <=? e) eqn:He; [|exact Hden].
    apply Z.leb_le in He. apply Z.mul_pos_pos; [exact Hden|].
    apply Z.pow_pos_nonneg; lia. }
  assert (Hlo : 0 <= n / d <= n).
  { split; [apply Z.div_pos; lia|]. apply Z.div_le_upper_bound; [exact Hd|nia]. }
  set (lo := n / d) in *.
  destruct ((0 <? lo) && reads_back neg lo e f) eqn:Hok_lo;
    destruct (reads_back neg (lo + 1) e f) eqn:Hok_hi; cbn [andb].
  - apply andb_prop in Hok_lo as [Hpos Hrb]. apply Z.ltb_lt in Hpos.
    apply reads_back_spec in Hrb, Hok_hi.
    destruct ((2 * (n mod d) <? d) || ((2 * (n mod d) =? d) && Z.even lo));
      intros H; injection H as <- <-; (split; [assumption|lia]).
  - apply andb_prop in Hok_lo as [Hpos Hrb]. apply Z.ltb_lt in Hpos.
    apply reads_back_spec in Hrb.
    intros H; injection H as <- <-. split; [assumption|lia].
  - apply reads_back_spec in Hok_hi.
    intros H; injection H as <- <-. split; [assumption|lia].
  - intros H. apply IH in H. destruct H as (H1 & H2 & H3).
    split; [exact H1|]. split; [exact H2|lia].
Qed.

(** The search ends at the latest on the exact decimal expansion. *)
Lemma shortest_from_finds (neg : bool) (m e : Z) :
  canonical m e -> 0 < m ->
  forall (fuel : nat) (e10 : Z),
    Z.min e 0 <= e10 -> e10 - Z.min e 0 < Z.of_nat fuel ->
    shortest_from fuel neg (if 0 <=? e then m * 2 ^ e else m)
      (if 0 <=? e then 1 else 2 ^ (- e)) (Fin neg m e) e10 <> None.
Proof.
  intros Hcan Hm.
  set (num := if 0 <=? e then m * 2 ^ e else m).
  set (den := if 0 <=? e then 1 else 2 ^ (- e)).
  assert (Hexact : let n := if 0 <=? Z.min e 0 then num else num * 10 ^ (- Z.min e 0) in
                   let d := if 0 <=? Z.min e 0 then den * 10 ^ Z.min e 0 else den in
                   (0 <? n / d) && reads_back neg (n / d) (Z.min e 0) (Fin neg m e) = true).
  { unfold num, den. destruct (0 <=? e) eqn:He.
    - apply Z.leb_le in He. rewrite Z.min_r by lia. cbv zeta.
      change (0 <=? 0) with true. cbv iota.
      rewrite Z.pow_0_r, Z.mul_1_r, Z.div_1_r.
      assert (0 < 2 ^ e) by (apply Z.pow_pos_nonneg; lia).
      apply andb_true_intro. split; [apply Z.ltb_lt; nia|].
      apply reads_back_spec. unfold scaled64. change (0 <=? 0) with true. cbv iota.
      rewrite Z.pow_0_r, Z.mul_1_r.
      apply round64_exact; [nia|lia|exact Hcan|].
      rewrite (pow2_nonneg e), (pow2_nonpos (- e)) by lia. ring.
    - apply Z.leb_gt in He. rewrite Z.min_l by lia. cbv zeta.
      replace (0 <=? e) with false by (symmetry; apply Z.leb_gt; lia).
      assert (H2 : 0 < 2 ^ (- e)) by (apply Z.pow_pos_nonneg; lia).
      assert (H5 : 0 < 5 ^ (- e)) by (apply Z.pow_pos_nonneg; lia).
      assert (E10 : 10 ^ (- e) = 5 ^ (- e) * 2 ^ (- e))
        by (rewrite <- Z.pow_mul_l; reflexivity).
      assert (Ediv : m * 10 ^ (- e) / 2 ^ (- e) = m * 5 ^ (- e))
        by (rewrite E10, Z.mul_assoc, Z.div_mul by lia; reflexivity).
      rewrite Ediv.
      apply andb_true_intro. split; [apply Z.ltb_lt; nia|].
      apply reads_back_spec. unfold scaled64.
      replace (0 <=? e) with false by (symmetry; apply Z.leb_gt; lia).
      apply round64_exact; [nia|apply Z.pow_pos_nonneg; lia|exact Hcan|].
      rewrite (pow2_nonpos e), (pow2_nonneg (- e)) by lia. rewrite E10. ring. }
  cbv zeta in Hexact.
  induction fuel as [|fuel IH]; intros e10 Hlow Hfuel; [lia|].
  cbn [shortest_from].
  destruct (Z.eq_dec e10 (Z.min e 0)) as [->|Hne].
  - rewrite Hexact. cbn [andb].
    match goal with
    | |- context [reads_back neg ?a ?b ?c] => destruct (reads_back neg a b c)
    end; discriminate.
  - match goal with
    | |- context [(0 <? ?a) && reads_back neg ?a ?b ?c] =>
        destruct ((0 <? a) && reads_back neg a b c)
    end;
    match goal with
    | |- context [reads_back neg ?a ?b ?c] => destruct (reads_back neg a b c)
    end; cbn [andb]; try discriminate.
    apply IH; lia.
Qed.

(** [ParseFloat] reads back what [FormatFloat] prints: the guarantee Go
    documents for the shortest formatting. *)
Lemma ParseFloat_FormatFloat (f : float64) :
  valid f -> ParseFloat (FormatFloat f) = Some f.
Proof.
  destruct f as [|neg|neg m e]; intros Hf.
  - reflexivity.
  - destruct neg; reflexivity.
  - simpl in Hf. pose proof Hf as (Hm & He & Hc). unfold FormatFloat.
    destruct (m =? 0) eqn:Hz.
    + apply Z.eqb_eq in Hz. subst m.
      assert (e = -1074) by lia. subst e. destruct neg; reflexivity.
    + apply Z.eqb_neq in Hz. assert (Hpos : 0 < m) by lia.
      set (num := if 0 <=? e then m * 2 ^ e else m).
      set (den := if 0 <=? e then 1 else 2 ^ (- e)).
      set (fuel := Z.to_nat (311 - Z.min e 0)).
      pose proof (shortest_from_finds neg m e Hf Hpos fuel 310) as Hfind.
      fold num den in Hfind.
      destruct (shortest_from fuel neg num den (Fin neg m e) 310) as [[d0 e0]|] eqn:Hs.
      2:{ exfalso. apply Hfind; [lia|unfold fuel; lia|reflexivity]. }
      assert (Hnum : 0 <= num <= 2 ^ 1024).
      { unfold num. destruct (0 <=? e) eqn:Hle.
        - apply Z.leb_le in Hle.
          assert (0 < 2 ^ e) by (apply Z.pow_pos_nonneg; lia).
          assert (2 ^ e <= 2 ^ 971) by (apply Z.pow_le_mono_r; lia).
          change (2 ^ 1024) with (2 ^ 53 * 2 ^ 971). nia.
        - assert (2 ^ 53 <= 2 ^ 1024) by (apply Z.pow_le_mono_r; lia). lia. }
      assert (Hden : 0 < den).
      { unfold den. destruct (0 <=? e) eqn:Hle; [lia|].
        apply Z.leb_gt in Hle. apply Z.pow_pos_nonneg; lia. }
      destruct (shortest_from_sound fuel neg num den (Fin neg m e)
                  (proj1 Hnum) Hden 310 d0 e0 Hs) as (Hrb & Hd0 & He0).
      rewrite ParseFloat_layout; [exact Hrb|lia| |unfold fuel in He0; lia].
      apply Z.log2_lt_pow2; [lia|].
      assert (Hpow : 0 < 10 ^ Z.max 0 (- e0) <= 10 ^ 1385).
      { split; [apply Z.pow_pos_nonneg; lia|].
        apply Z.pow_le_mono_r; [lia|unfold fuel in He0; lia]. }
      assert (Hbig : 2 ^ 1024 * 10 ^ 1385 + 1 < 2 ^ 40000)
        by (apply Z.ltb_lt; vm_compute; reflexivity).
      eapply Z.le_lt_trans; [|exact Hbig].
      eapply Z.le_trans; [exact (proj2 Hd0)|].
      apply Z.add_le_mono_r. apply Z.mul_le_mono_nonneg; lia.
Qed.

(** *** What the coercer reads is a float64 *)

Lemma read_mantissa_nonneg (base : Z) (s : string) :
  forall st st' rest, 0 <= base ->
    read_mantissa base s st = (st', rest) -> 0 <= mantissa st -> 0 <= mantissa st'.
Proof.
  induction s as [|c s IH]; intros st st' rest Hb H Hm.
  - simpl in H. injection H as <- _. exact Hm.
  - destruct st as [dot dg us nd dp m]. cbn [read_mantissa] in H. simpl in Hm.
    destruct (byte c =? byte "_"); [eapply IH; [exact Hb|exact H|exact Hm]|].
    destruct (byte c =? byte ".").
    { destruct dot; [injection H as <- _; exact Hm|].
      eapply IH; [exact Hb|exact H|exact Hm]. }
    destruct (between "0" (byte c) "9") eqn:Hd.
    { unfold between in Hd. apply andb_prop in Hd as [Hd _]. apply Z.leb_le in Hd.
      destruct ((byte c =? byte "0") && (nd =? 0));
        (eapply IH; [exact Hb|exact H|simpl; nia]). }
    destruct ((base =? 16) && between "a" (lower (byte c)) "f") eqn:Hx.
    { apply andb_prop in Hx as [_ Hx]. unfold between in Hx.
      apply andb_prop in Hx as [Hx _]. apply Z.leb_le in Hx.
      eapply IH; [exact Hb|exact H|simpl; nia]. }
    injection H as <- _. exact Hm.
Qed.

Lemma ParseFloat_valid (s : string) (f : float64) : ParseFloat s = Some f -> valid f.
Proof.
  unfold ParseFloat.
  destruct (special s) as [[g n]|] eqn:Hsp.
  - assert (Hg : valid g).
    { unfold special in Hsp. destruct s as [|c r]; [discriminate|].
      repeat match type of Hsp with
             | (if ?b then _ else _) = _ => destruct b
             | (let n := _ in _) = _ => cbv zeta in Hsp
             end; try discriminate; injection Hsp as <- _; exact I. }
    destruct (n =? String.length s)%nat; [|discriminate].
    intros H. injection H as <-. exact Hg.
  - destruct (readFloat s) as [[neg hex m exp unread]|] eqn:Hr; [|discriminate].
    destruct unread; [|discriminate].
    intros H. apply scaled64_valid in H; [exact H|destruct hex; lia|].
    unfold readFloat in Hr. destruct s as [|c0 r0]; [discriminate|].
    destruct (read_sign (String c0 r0)) as [sg s1].
    destruct (read_base s1) as [hx s2].
    destruct (read_mantissa (if hx then 16 else 10) s2 (Mant false false false 0 0 0))
      as [[dot dg us nd dp m0] s3] eqn:Hm.
    apply read_mantissa_nonneg in Hm; [|destruct hx; lia|simpl; lia].
    simpl in Hm.
    destruct (negb dg); [discriminate|].
    destruct (if hx then _ else _) as [dp1 nd1].
    destruct (read_exp hx s3 dp1 us) as [[[dp2 us2] unread]|]; [|discriminate].
    destruct (us2 && _); [discriminate|].
    injection Hr as _ _ <- _ _. exact Hm.
Qed.

(** *** Unsigned integers *)

Lemma ParseFloat_FormatUint (n : Z) :
  0 <= n -> ParseFloat (FormatUint n) = float64_of_Z n.
Proof.
  intros Hn. unfold float64_of_Z.
  destruct (Z.eq_dec n 0) as [->|Hne]; [reflexivity|].
  destruct (FormatUint_spec n Hn) as (c & ds & E & Hc & Hds & Hnz & Hval).
  specialize (Hnz ltac:(lia)). rewrite E.
  assert (Hmant : read_mantissa 10 (String c ds) (Mant false false false 0 0 0)
                  = (Mant false true false (Z.of_nat (String.length (String c ds))) 0
                          (digits_val (String c ds) 0), EmptyString)).
  { rewrite <- (append_empty_r (String c ds)) at 1.
    rewrite read_mantissa_number by (exact Hc || exact Hds || lia || (left; exact Hnz)).
    rewrite read_mantissa_end. reflexivity. }
  pose proof (ParseFloat_decimal false c ds EmptyString false _ 0 _ _ Hc
                (read_base_nonzero c ds Hnz) Hmant (read_exp_none _)) as H.
  change (ParseFloat (String c ds)
          = scaled64 false 10 (digits_val (String c ds) 0)
              (if digits_val (String c ds) 0 =? 0 then 0
               else Z.of_nat (String.length (String c ds))
                    - Z.of_nat (String.length (String c ds)))) in H.
  rewrite H, Hval, Z.sub_diag.
  destruct (n =? 0); unfold scaled64; change (0 <=? 0) with true; cbv iota;
    rewrite Z.pow_0_r, Z.mul_1_r; reflexivity.
Qed.

(** An integer below [2^1024] that has no more than 53 significant bits is
    a float64; so is every integer below [2^53]. *)
Lemma float64_of_Z_exact (n : Z) :
  0 < n < 2 ^ 53 ->
  float64_of_Z n = Some (Fin false (n * 2 ^ (52 - Z.log2 n)) (Z.log2 n - 52)).
Proof.
  intros Hn. unfold float64_of_Z.
  pose proof (Z.log2_spec n ltac:(lia)) as [Hlo Hhi].
  pose proof (Z.log2_nonneg n) as Hl.
  assert (Hl53 : Z.log2 n < 53) by (apply Z.log2_lt_pow2; lia).
  assert (E : 2 ^ Z.log2 n * 2 ^ (52 - Z.log2 n) = 2 ^ 52)
    by (rewrite <- Z.pow_add_r by lia; f_equal; lia).
  assert (E' : 2 ^ Z.succ (Z.log2 n) * 2 ^ (52 - Z.log2 n) = 2 ^ 53)
    by (rewrite <- Z.pow_add_r by lia; f_equal; lia).
  assert (Hp : 0 < 2 ^ (52 - Z.log2 n)) by (apply Z.pow_pos_nonneg; lia).
  apply round64_exact; [lia|lia| |].
  - unfold canonical. split_all; try lia; try nia; left; nia.
  - rewrite (pow2_nonpos (Z.log2 n - 52)) by lia.
    rewrite (pow2_nonneg (- (Z.log2 n - 52))) by lia.
    replace (- (Z.log2 n - 52)) with (52 - Z.log2 n) by lia. ring.
Qed.

(** ** C6: coercing what a coerced value prints as *)

Lemma coerceArgument_float (s : string) (f : float64) :
  ParseFloat s = Some f -> coerceArgument s = AFloat64 f.
Proof. intros H. unfold coerceArgument. rewrite H. reflexivity. Qed.

(** C6, as amended.  Printing a coerced value and coercing the text again
    gives the same value back when the value is a float64, a boolean or a
    string.  An unsigned integer (which comes from a [0x] literal, so it
    is below [2^32]) prints in decimal, and the decimal text is coerced to
    the float64 of the same value, not to an unsigned integer.  The
    coercer never produces a list. *)
Theorem coerceArgument_render (value : string) :
  match coerceArgument value with
  | AFloat64 f => coerceArgument (render (AFloat64 f)) = AFloat64 f
  | AUint64 i =>
      0 <= i < 2 ^ 32
      /\ exists f, has_value f i /\ coerceArgument (render (AUint64 i)) = AFloat64 f
  | ABool b => coerceArgument (render (ABool b)) = ABool b
  | AString s => coerceArgument (render (AString s)) = AString s
  | ASlice _ => False
  end.
Proof.
  remember (coerceArgument value) as v eqn:Hv. unfold coerceArgument in Hv.
  destruct (ParseFloat value) as [f|] eqn:Hf.
  { subst v. cbn [render]. apply coerceArgument_float, ParseFloat_FormatFloat.
    exact (ParseFloat_valid _ _ Hf). }
  destruct (if HasPrefix value "0x"
            then ParseUint (Replace value "0x" "" 1) 16 32 else None) as [i|] eqn:Hu.
  - subst v.
    assert (Hi : 0 <= i < 2 ^ 32).
    { destruct (HasPrefix value "0x"); [|discriminate].
      eapply ParseUint_range; [|exact Hu]. lia. }
    split; [exact Hi|]. cbn [render].
    destruct (Z.eq_dec i 0) as [->|Hne].
    + exists (Fin false 0 (-1074)). split; [reflexivity|]. vm_compute. reflexivity.
    + assert (Hi53 : 0 < i < 2 ^ 53) by lia.
      pose proof (Z.log2_nonneg i) as Hl.
      assert (Hl32 : Z.log2 i < 32) by (apply Z.log2_lt_pow2; lia).
      exists (Fin false (i * 2 ^ (52 - Z.log2 i)) (Z.log2 i - 52)). split.
      * unfold has_value.
        rewrite (pow2_nonpos (Z.log2 i - 52)) by lia.
        rewrite (pow2_nonneg (- (Z.log2 i - 52))) by lia.
        replace (- (Z.log2 i - 52)) with (52 - Z.log2 i) by lia. ring.
      * apply coerceArgument_float.
        rewrite ParseFloat_FormatUint by lia. apply float64_of_Z_exact. exact Hi53.
  - destruct (ParseBool value) as [b|] eqn:Hb; subst v.
    + destruct b; vm_compute; reflexivity.
    + cbn [render]. unfold coerceArgument. rewrite Hf, Hu, Hb. reflexivity.
Qed.

(** C6 as stated fails on the unsigned integers: ["0x1A"] is coerced to
    the unsigned integer 26, which prints as ["26"], and ["26"] is coerced
    to the float64 26. *)
Lemma coerceArgument_render_counterexample :
  coerceArgument "0x1A" = AUint64 26
  /\ render (AUint64 26) = "26"
  /\ coerceArgument "26" = AFloat64 (Fin false (13 * 2 ^ 49) (-48))
  /\ coerceArgument (render (coerceArgument "0x1A")) <> coerceArgument "0x1A".
Proof. split_all; try (vm_compute; reflexivity). vm_compute. discriminate. Qed.

(** * Further properties of the parser *)

(** ** Arguments that leave no trace *)

Lemma no_marker_unescaped (l : list string) :
  existsb is_marker l = false -> escaped (fold_left sanitize l scan0) = false.
Proof. intros H. rewrite sanitize_escaped_after. exact H. Qed.

Lemma scan_eta (st : scan) :
  Scan (escaped st) (escapedArgs st) (sanitized st) (parsed st) = st.
Proof. destruct st; reflexivity. Qed.

(** X1.  An argument that is a lone [-] (blanks apart) before the escape
    marker is dropped: it sets no option, is no flag and is not kept as a
    positional. *)
Theorem Parse_drops_lone_dash (osArgs before after : list string) (v : string) :
  Trim v " " = "-" -> existsb is_marker before = false ->
  Parse osArgs (Some (before ++ v :: after)) = Parse osArgs (Some (before ++ after)).
Proof.
  intros Hv Hb.
  rewrite !Parse_pipeline by (left; discriminate).
  unfold pipeline, arguments. rewrite !fold_left_app. cbn [fold_left].
  fold scan0. pose proof (no_marker_unescaped before Hb) as He.
  set (st := fold_left sanitize before scan0) in *.
  replace (sanitize st v) with st; [reflexivity|].
  rewrite <- (scan_eta st) at 1. unfold sanitize. rewrite Hv, He.
  change (String.eqb "-" "--") with false. change (HasPrefix "-" "--") with false.
  change (HasPrefix "-" "-") with true. cbv iota.
  change (Split (Replace "-" "-" "" 1) "") with (@nil string). reflexivity.
Qed.

(** The hypotheses of X1, met after a flag. *)
Lemma Parse_drops_lone_dash_witness :
  Parse [] (Some ["--x"; " - "; "1"]) = Parse [] (Some ["--x"; "1"]).
Proof. exact (Parse_drops_lone_dash [] ["--x"] ["1"] " - " eq_refl eq_refl). Defined.

(** ** After the escape marker *)

Lemma no_marker_after (l : list string) :
  existsb is_marker l = false -> after_marker l = [].
Proof.
  induction l as [|v l IH]; [reflexivity|]. cbn [existsb after_marker].
  unfold is_marker at 1. destruct (String.eqb (Trim v " ") "--"); [discriminate|].
  exact IH.
Qed.

(** X2.  Nothing after the escape marker sets a flag or an option: the
    arguments after it only add their coerced values (the later markers
    apart) to the end of [_], and every other key is as the arguments
    before the marker leave it. *)
Theorem Parse_after_marker (osArgs before after : list string) (marker : string) :
  is_marker marker = true -> existsb is_marker before = false ->
  Parse osArgs (Some (before ++ marker :: after))
  = Returns
      (Some (<["_" := ASlice (map coerceArgument (positionals (normalized before))
                              ++ map coerceArgument (escaped_values after))]>
               (pipeline before)),
       None).
Proof.
  intros Hm Hb.
  rewrite Parse_pipeline by (left; discriminate).
  unfold pipeline, arguments. rewrite fold_left_app. cbn [fold_left].
  fold scan0. pose proof (no_marker_unescaped before Hb) as He.
  destruct (sanitize_tokens before scan0 eq_refl) as [Hs Hesc].
  rewrite (no_marker_after before Hb) in Hesc. simpl in Hs, Hesc.
  set (st := fold_left sanitize before scan0) in *.
  assert (Hstep : sanitize st marker
                  = Scan true (escapedArgs st) (sanitized st) (parsed st)).
  { unfold sanitize. unfold is_marker in Hm. rewrite Hm. reflexivity. }
  rewrite Hstep, sanitize_escaped by reflexivity.
  cbn [escapedArgs sanitized parsed]. rewrite Hesc.
  pose proof (walk_plain _ (sanitized st) [] (parsed st) (Nat.le_refl _)) as Hw.
  destruct (walk (sanitized st) [] (parsed st)) as [plain flags].
  simpl in Hw. rewrite insert_insert_eq, Hw, Hs. reflexivity.
Qed.

(** The hypotheses of X2, met with a flag and an option on either side
    of the marker. *)
Lemma Parse_after_marker_witness :
  Parse [] (Some ["--x"; "1"; "a"; " -- "; "--y"; "-z"; "2"])
  = Returns
      (Some {[ "_" := ASlice [AString "a"; AString "--y"; AString "-z";
                              AFloat64 (Fin false (2 ^ 52) (-51))];
               "x" := AFloat64 (Fin false (2 ^ 52) (-52)) ]},
       None).
Proof.
  refine (eq_trans (Parse_after_marker [] ["--x"; "1"; "a"] ["--y"; "-z"; "2"] " -- "
                      eq_refl eq_refl) _).
  vm_compute. reflexivity.
Defined.

(** ** Options are set before any flag is read *)

Lemma set_options_lookup (keys : list string) :
  forall (m : gmap string Arg) (k : string),
    fold_left (fun m o => <[o := ABool true]> m) keys m !! k
    = if decide (k ∈ keys) then Some (ABool true) else m !! k.
Proof.
  induction keys as [|o keys IH]; intros m k; cbn [fold_left].
  - destruct (decide (k ∈ [])) as [H|H]; [inversion H|reflexivity].
  - rewrite IH.
    destruct (decide (k ∈ keys)) as [Hin|Hnin].
    + rewrite decide_True by (right; exact Hin). reflexivity.
    + destruct (decide (k = o)) as [->|Hne].
      * rewrite decide_True by left. apply lookup_insert_eq.
      * rewrite decide_False by (intros H; inversion H; subst; contradiction).
        apply lookup_insert_ne. congruence.
Qed.

Lemma set_options_comm (a b : list string) (m : gmap string Arg) :
  fold_left (fun m o => <[o := ABool true]> m) a
    (fold_left (fun m o => <[o := ABool true]> m) b m)
  = fold_left (fun m o => <[o := ABool true]> m) b
      (fold_left (fun m o => <[o := ABool true]> m) a m).
Proof.
  apply map_eq. intros k. rewrite !set_options_lookup.
  destruct (decide (k ∈ a)), (decide (k ∈ b)); reflexivity.
Qed.

Lemma is_bundle_tokens (o : string) :
  is_bundle o = true -> is_marker o = false /\ tokens_of o = [].
Proof.
  unfold is_bundle, is_marker, tokens_of. intros H.
  apply andb_prop in H as [H1 H2]. apply negb_true_iff in H2.
  rewrite H2, H1. split; [|reflexivity].
  apply String.eqb_neq. intros E. rewrite E in H2. discriminate.
Qed.

(** A bundle of options can be read before the argument in front of it. *)
Lemma sanitize_bundle_comm (st : scan) (o v : string) :
  escaped st = false -> is_bundle o = true -> is_marker v = false ->
  sanitize (sanitize st v) o = sanitize (sanitize st o) v.
Proof.
  intros He Ho Hv. destruct (is_bundle_tokens o Ho) as [Hom Hot].
  unfold is_marker in Hom, Hv.
  rewrite (sanitize_step st v He), (sanitize_step st o He), Hv, Hom.
  rewrite !sanitize_step by reflexivity. rewrite Hv, Hom.
  cbn [escapedArgs sanitized parsed]. rewrite Hot, !app_nil_r.
  rewrite set_options_comm. reflexivity.
Qed.

Lemma sanitize_bundle_first (l : list string) :
  forall st o, escaped st = false -> is_bundle o = true -> existsb is_marker l = false ->
    sanitize (fold_left sanitize l st) o = fold_left sanitize l (sanitize st o).
Proof.
  induction l as [|v l IH]; intros st o He Ho Hl; [reflexivity|].
  cbn [existsb] in Hl. apply orb_false_elim in Hl as [Hv Hl].
  cbn [fold_left]. rewrite IH; [|  |exact Ho|exact Hl].
  - rewrite sanitize_bundle_comm by assumption. reflexivity.
  - rewrite (sanitize_step st v He). unfold is_marker in Hv. rewrite Hv. reflexivity.
Qed.

(** X3.  The options are all set before the flags are read, whatever
    their place before the escape marker: a bundle of options parses the
    same at the head of the arguments.  So a bundle between a flag and its
    value does not part them, and a flag overrides an option of its name
    even when the option comes later. *)
Theorem Parse_bundle_anywhere (osArgs before after : list string) (o : string) :
  is_bundle o = true -> existsb is_marker before = false ->
  Parse osArgs (Some (before ++ o :: after)) = Parse osArgs (Some (o :: before ++ after)).
Proof.
  intros Ho Hb.
  rewrite !Parse_pipeline by (left; discriminate).
  unfold pipeline, arguments. cbn [fold_left]. rewrite !fold_left_app. cbn [fold_left].
  fold scan0. rewrite (sanitize_bundle_first before scan0 o eq_refl Ho Hb). reflexivity.
Qed.

(** The hypotheses of X3, met by a bundle between a flag and its value. *)
Lemma Parse_bundle_anywhere_witness :
  Parse [] (Some ["--x"; "-vx"; "5"]) = Parse [] (Some ["-vx"; "--x"; "5"])
  /\ Parse [] (Some ["-vx"; "--x"; "5"])
     = Returns (Some {[ "_" := ASlice []; "v" := ABool true;
                        "x" := AFloat64 (Fin false (5 * 2 ^ 50) (-50)) ]}, None).
Proof.
  split.
  - exact (Parse_bundle_anywhere [] ["--x"] ["5"] "-vx" eq_refl eq_refl).
  - vm_compute. reflexivity.
Defined.

(** ** What the coercer makes of a few kinds of text *)

Lemma HasPrefix_two (value : string) (a b : ascii) :
  HasPrefix value (String a (String b EmptyString)) = true ->
  exists r, value = String a (String b r).
Proof.
  unfold HasPrefix. destruct value as [|c0 [|c1 r]]; simpl; try discriminate.
  - destruct (ascii_dec a c0); discriminate.
  - destruct (ascii_dec a c0) as [->|]; [|discriminate].
    destruct (ascii_dec b c1) as [->|]; [|discriminate]. eauto.
Qed.

(** X4.  A text that starts with [--] is never read as a number or a
    boolean: the coercer gives it back as a string.  (Such texts reach
    the coercer as escaped values.) *)
Theorem coerceArgument_flag_text (value : string) :
  HasPrefix value "--" = true -> coerceArgument value = AString value.
Proof.
  intros H. destruct (HasPrefix_two _ _ _ H) as [r ->].
  assert (Hf : ParseFloat (String "-" (String "-" r)) = None).
  { unfold ParseFloat.
    change (special (String "-" (String "-" r))) with (@None (float64 * nat)).
    assert (Hr : readFloat (String "-" (String "-" r)) = None).
    { unfold readFloat.
      change (read_sign (String "-" (String "-" r))) with (true, String "-" r).
      cbv iota beta.
      assert (Hb : read_base (String "-" r) = (false, String "-" r))
        by (destruct r as [|d1 [|d2 r']]; reflexivity).
      rewrite Hb. reflexivity. }
    rewrite Hr. reflexivity. }
  unfold coerceArgument. rewrite Hf. reflexivity.
Qed.

(** The hypothesis of X4, met by a flag with a numeric name. *)
Lemma coerceArgument_flag_text_witness : coerceArgument "--1" = AString "--1".
Proof. exact (coerceArgument_flag_text "--1" eq_refl). Defined.

(** X5.  The booleans: the coercer gives true exactly for [t], [T],
    [true], [TRUE] and [True], and false exactly for [f], [F], [false],
    [FALSE] and [False].  [1] and [0], which [ParseBool] would accept, are
    numbers. *)
Theorem coerceArgument_bool (value : string) (b : bool) :
  coerceArgument value = ABool b
  <-> In value (if b then ["t"; "T"; "true"; "TRUE"; "True"]
                else ["f"; "F"; "false"; "FALSE"; "False"]).
Proof.
  split.
  - unfold coerceArgument.
    destruct (ParseFloat value) as [f|] eqn:Hf; [discriminate|].
    destruct (if HasPrefix value "0x" then _ else _); [discriminate|].
    destruct (ParseBool value) as [b'|] eqn:Hb; [|discriminate].
    intros H. injection H as ->. unfold ParseBool in Hb.
    destruct (existsb (String.eqb value) ["1"; "t"; "T"; "true"; "TRUE"; "True"]) eqn:Ht.
    + injection Hb as <-. apply existsb_exists in Ht as (x & Hx & E).
      apply String.eqb_eq in E. subst x.
      destruct Hx as [<-|Hx]; [discriminate Hf|exact Hx].
    + destruct (existsb (String.eqb value) ["0"; "f"; "F"; "false"; "FALSE"; "False"]) eqn:Hfl;
        [|discriminate].
      injection Hb as <-. apply existsb_exists in Hfl as (x & Hx & E).
      apply String.eqb_eq in E. subst x.
      destruct Hx as [<-|Hx]; [discriminate Hf|exact Hx].
  - destruct b; cbn [In]; intros H;
      repeat (destruct H as [<-|H]; [vm_compute; reflexivity|]); destruct H.
Qed.

Lemma is_hex_letter (c : ascii) :
  is_digit c = false -> is_hex c = true ->
  97 <= lower (byte c) <= 102 /\ byte c <> 95 /\ byte c <> 46.
Proof.
  unfold is_hex. intros Hd H. rewrite Hd in H. cbn [orb] in H.
  unfold between in H. change (byte "a") with 97 in H. change (byte "f") with 102 in H.
  apply andb_prop in H as [H1 H2]. apply Z.leb_le in H1, H2.
  split_all; [exact H1|exact H2| |]; intros E; rewrite E in H1, H2; vm_compute in H1, H2;
    congruence.
Qed.

Lemma hex_val_ge (s : string) :
  forall acc, all_hex s = true -> 0 <= acc -> acc <= hex_val s acc.
Proof.
  induction s as [|c s IH]; intros acc Hs Hacc; [simpl; lia|].
  cbn [all_hex] in Hs. apply andb_prop in Hs as [Hc Hs]. cbn [hex_val].
  destruct (is_digit c) eqn:Hd.
  - apply is_digit_range in Hd. specialize (IH (acc * 16 + (byte c - 48)) Hs). lia.
  - destruct (is_hex_letter c Hd Hc) as (Hl & _).
    specialize (IH (acc * 16 + (lower (byte c) - 97 + 10)) Hs). lia.
Qed.

(** The mantissa loop reads a string of hexadecimal digits to its end. *)
Lemma read_mantissa_all_hex (s : string) :
  forall st, all_hex s = true -> snd (read_mantissa 16 s st) = EmptyString.
Proof.
  induction s as [|c s IH]; intros st Hs; [reflexivity|].
  cbn [all_hex] in Hs. apply andb_prop in Hs as [Hc Hs].
  destruct st as [dot dg us nd dp m].
  destruct (is_digit c) eqn:Hd.
  - pose proof Hd as Hr. apply is_digit_range in Hr.
    cbn [read_mantissa]. unfold is_digit in Hd. rewrite Hd.
    change (byte "_") with 95. change (byte ".") with 46.
    replace (byte c =? 95) with false by (symmetry; apply Z.eqb_neq; lia).
    replace (byte c =? 46) with false by (symmetry; apply Z.eqb_neq; lia).
    destruct ((byte c =? byte "0") && (nd =? 0)); apply IH; exact Hs.
  - destruct (is_hex_letter c Hd Hc) as (Hl & H95 & H46).
    cbn [read_mantissa]. unfold is_digit in Hd. rewrite Hd.
    change (byte "_") with 95. change (byte ".") with 46.
    replace (byte c =? 95) with false by (symmetry; apply Z.eqb_neq; exact H95).
    replace (byte c =? 46) with false by (symmetry; apply Z.eqb_neq; exact H46).
    unfold between. change (byte "a") with 97. change (byte "f") with 102.
    replace (97 <=? lower (byte c)) with true by (symmetry; apply Z.leb_le; lia).
    replace (lower (byte c) <=? 102) with true by (symmetry; apply Z.leb_le; lia).
    cbn [andb Z.eqb Pos.eqb]. apply IH; exact Hs.
Qed.

(** A hexadecimal mantissa with no binary exponent is no float. *)
Lemma ParseFloat_hex_digits (c : ascii) (h : string) :
  all_hex (String c h) = true -> ParseFloat (String "0" (String "x" (String c h))) = None.
Proof.
  intros Hh. unfold ParseFloat.
  change (special (String "0" (String "x" (String c h)))) with (@None (float64 * nat)).
  assert (Hr : readFloat (String "0" (String "x" (String c h))) = None).
  { unfold readFloat.
    change (read_sign (String "0" (String "x" (String c h))))
      with (false, String "0" (String "x" (String c h))).
    cbv iota beta.
    change (read_base (String "0" (String "x" (String c h)))) with (true, String c h).
    cbv iota beta.
    pose proof (read_mantissa_all_hex (String c h) (Mant false false false 0 0 0) Hh) as Hm.
    destruct (read_mantissa 16 (String c h) (Mant false false false 0 0 0))
      as [[dot dg us nd dp m] s3].
    simpl in Hm. subst s3. destruct (negb dg); [reflexivity|].
    destruct dot; reflexivity. }
  rewrite Hr. reflexivity.
Qed.

(** [ParseUint] in base 16 gives the value of the digits, or fails when
    it does not fit. *)
Lemma parse_digits_hex (maxVal : Z) (h : string) :
  0 <= maxVal < 2 ^ 60 ->
  forall n, all_hex h = true -> 0 <= n <= maxVal ->
    parse_digits 16 maxVal h n
    = if hex_val h n <=? maxVal then Some (hex_val h n) else None.
Proof.
  intros Hmax. induction h as [|c h IH]; intros n Hh Hn.
  - simpl. replace (n <=? maxVal) with true by (symmetry; apply Z.leb_le; lia). reflexivity.
  - cbn [all_hex] in Hh. apply andb_prop in Hh as [Hc Hh].
    cbn [parse_digits hex_val].
    change ((2 ^ 64 - 1) / 16 + 1) with (2 ^ 60).
    replace (2 ^ 60 <=? n) with false by (symmetry; apply Z.leb_gt; lia).
    assert (Hstep : forall d, 0 <= d < 16 ->
              (if 16 <=? d then None
               else if (2 ^ 64 <=? n * 16 + d) || (maxVal <? n * 16 + d) then None
                    else parse_digits 16 maxVal h (n * 16 + d))
              = if hex_val h (n * 16 + d) <=? maxVal
                then Some (hex_val h (n * 16 + d)) else None).
    { intros d Hd.
      replace (16 <=? d) with false by (symmetry; apply Z.leb_gt; lia).
      pose proof (hex_val_ge h (n * 16 + d) Hh ltac:(lia)) as Hge.
      destruct (maxVal <? n * 16 + d) eqn:Hov.
      - apply Z.ltb_lt in Hov. rewrite orb_true_r.
        replace (hex_val h (n * 16 + d) <=? maxVal) with false
          by (symmetry; apply Z.leb_gt; lia). reflexivity.
      - apply Z.ltb_ge in Hov.
        replace (2 ^ 64 <=? n * 16 + d) with false
          by (symmetry; apply Z.leb_gt; change (2 ^ 64) with (16 * 2 ^ 60); lia).
        cbn [orb]. apply IH; [exact Hh|lia]. }
    destruct (is_digit c) eqn:Hd.
    + pose proof Hd as Hr. apply is_digit_range in Hr.
      unfold is_digit in Hd. rewrite Hd. change (byte "0") with 48.
      (* a digit of base 16 is below 10 *)
      destruct (Z_lt_le_dec (byte c - 48) 16); [|lia].
      apply Hstep. lia.
    + destruct (is_hex_letter c Hd Hc) as (Hl & _).
      unfold is_digit in Hd. rewrite Hd.
      unfold between. change (byte "a") with 97. change (byte "z") with 122.
      replace (97 <=? lower (byte c)) with true by (symmetry; apply Z.leb_le; lia).
      replace (lower (byte c) <=? 122) with true by (symmetry; apply Z.leb_le; lia).
      cbn [andb]. apply Hstep. lia.
Qed.

(** X6.  A text made of [0x] and hexadecimal digits is the unsigned
    integer it spells when that is below [2^32], and is left a string
    when it is not: no [0x] literal is ever cut down to 32 bits. *)
Theorem coerceArgument_hex (h : string) :
  h <> EmptyString -> all_hex h = true ->
  coerceArgument ("0x" +:+ h)
  = if hex_val h 0 <? 2 ^ 32 then AUint64 (hex_val h 0) else AString ("0x" +:+ h).
Proof.
  intros Hne Hh. destruct h as [|c h]; [contradiction|].
  change ("0x" +:+ String c h) with (String "0" (String "x" (String c h))).
  unfold coerceArgument. rewrite (ParseFloat_hex_digits c h Hh).
  change (HasPrefix (String "0" (String "x" (String c h))) "0x") with true. cbv iota.
  change (Replace (String "0" (String "x" (String c h))) "0x" "" 1) with (String c h).
  unfold ParseUint.
  rewrite (parse_digits_hex (2 ^ 32 - 1) (String c h) ltac:(lia) 0 Hh ltac:(lia)).
  destruct (hex_val (String c h) 0 <? 2 ^ 32) eqn:Hlt.
  - apply Z.ltb_lt in Hlt.
    replace (hex_val (String c h) 0 <=? 2 ^ 32 - 1) with true
      by (symmetry; apply Z.leb_le; lia). reflexivity.
  - apply Z.ltb_ge in Hlt.
    replace (hex_val (String c h) 0 <=? 2 ^ 32 - 1) with false
      by (symmetry; apply Z.leb_gt; lia). reflexivity.
Qed.

(** The hypotheses of X6, met below and above [2^32]. *)
Lemma coerceArgument_hex_witness :
  coerceArgument "0xfFfFfFfF" = AUint64 4294967295
  /\ coerceArgument "0x100000000" = AString "0x100000000".
Proof.
  split.
  - refine (eq_trans (coerceArgument_hex "fFfFfFfF" _ eq_refl) _); [discriminate|].
    vm_compute. reflexivity.
  - refine (eq_trans (coerceArgument_hex "100000000" _ eq_refl) _); [discriminate|].
    vm_compute. reflexivity.
Defined.

(** The decimal text of an integer below [2^53] is coerced to the
    float64 of that integer. *)
Lemma coerceArgument_decimal (n : Z) :
  0 <= n < 2 ^ 53 ->
  exists f, coerceArgument (FormatUint n) = AFloat64 f /\ has_value f n.
Proof.
  intros Hn. destruct (Z.eq_dec n 0) as [->|Hne].
  - exists (Fin false 0 (-1074)). split; [vm_compute; reflexivity|reflexivity].
  - assert (Hn' : 0 < n < 2 ^ 53) by lia.
    pose proof (Z.log2_nonneg n) as Hl.
    assert (Hl53 : Z.log2 n < 53) by (apply Z.log2_lt_pow2; lia).
    exists (Fin false (n * 2 ^ (52 - Z.log2 n)) (Z.log2 n - 52)). split.
    + apply coerceArgument_float.
      rewrite ParseFloat_FormatUint by lia. apply float64_of_Z_exact. exact Hn'.
    + unfold has_value.
      rewrite (pow2_nonpos (Z.log2 n - 52)) by lia.
      rewrite (pow2_nonneg (- (Z.log2 n - 52))) by lia.
      replace (- (Z.log2 n - 52)) with (52 - Z.log2 n) by lia. ring.
Qed.

Lemma has_value_inj (f : float64) (n n' : Z) : has_value f n -> has_value f n' -> n = n'.
Proof.
  destruct f as [| |[|] m e]; simpl; try contradiction.
  intros H H'. pose proof (pow2_pos (- e)). nia.
Qed.

(** X7.  A decimal integer is coerced to a float64, and below [2^53] no
    two integers are coerced to the same value; from [2^53] on they can
    be: [2^53 + 1] is coerced to the value of [2^53]. *)
Theorem coerceArgument_integer :
  (forall n, 0 <= n < 2 ^ 53 ->
     exists f, coerceArgument (FormatUint n) = AFloat64 f /\ has_value f n)
  /\ (forall n n', 0 <= n < 2 ^ 53 -> 0 <= n' < 2 ^ 53 ->
        coerceArgument (FormatUint n) = coerceArgument (FormatUint n') -> n = n')
  /\ coerceArgument "9007199254740993" = coerceArgument "9007199254740992".
Proof.
  split_all.
  - exact coerceArgument_decimal.
  - intros n n' Hn Hn' E.
    destruct (coerceArgument_decimal n Hn) as (f & Hf & Hv).
    destruct (coerceArgument_decimal n' Hn') as (f' & Hf' & Hv').
    rewrite Hf, Hf' in E. injection E as ->. exact (has_value_inj _ _ _ Hv Hv').
  - vm_compute. reflexivity.
Qed.

(** *** A text with a blank in it *)

Lemma has_blank_cons (c : ascii) (s : string) :
  has_byte " " (String c s) = true -> c = " "%char \/ has_byte " " s = true.
Proof.
  cbn [has_byte]. intros H. apply orb_prop in H as [H|H]; [left|right; exact H].
  apply Ascii.eqb_eq in H. congruence.
Qed.

Lemma byte_blank (c : ascii) : byte c = 32 -> c = " "%char.
Proof.
  unfold byte. intros H. rewrite <- (ascii_N_embedding c).
  replace (N_of_ascii c) with 32%N by lia. reflexivity.
Qed.

Lemma commonPrefixLen_blank (r : string) :
  forall p, has_byte " " r = true -> has_byte " " p = false ->
    (commonPrefixLenIgnoreCase r p < String.length r)%nat.
Proof.
  induction r as [|c r IH]; intros p Hr Hp; [discriminate|].
  destruct p as [|q p]; [simpl; lia|].
  cbn [has_byte] in Hp. apply orb_false_elim in Hp as [Hq Hp].
  cbn [commonPrefixLenIgnoreCase String.length].
  destruct (has_blank_cons _ _ Hr) as [->|Hr'].
  - change (between "A" (byte " ") "Z") with false. cbv iota.
    replace (byte " " =? byte q) with false; [lia|].
    symmetry. apply Z.eqb_neq. intros E. symmetry in E. apply byte_blank in E.
    subst q. discriminate.
  - match goal with |- context [if ?b then _ else _] => destruct b end; [|lia].
    specialize (IH p Hr' Hp). lia.
Qed.

Lemma special_blank (s : string) (f : float64) (n : nat) :
  has_byte " " s = true -> special s = Some (f, n) -> n <> String.length s.
Proof.
  intros Hb Hs. destruct s as [|c rest]; [discriminate|].
  destruct (has_blank_cons _ _ Hb) as [->|Hr].
  { change (special (String " " rest)) with (@None (float64 * nat)) in Hs. discriminate. }
  pose proof (commonPrefixLen_blank rest "infinity" Hr eq_refl) as Hinf.
  pose proof (commonPrefixLen_blank (String c rest) "infinity" Hb eq_refl) as Hinf'.
  pose proof (commonPrefixLen_blank (String c rest) "nan" Hb eq_refl) as Hnan.
  unfold special in Hs. cbv zeta in Hs.
  cbn [String.length] in Hinf', Hnan |- *.
  destruct ((byte c =? byte "+") || (byte c =? byte "-")).
  - set (n0 := commonPrefixLenIgnoreCase rest "infinity") in *.
    destruct ((3 <? n0)%nat && (n0 <? 8)%nat) eqn:Hadj.
    + apply andb_prop in Hadj as [H3 _]. apply Nat.ltb_lt in H3.
      cbn in Hs. injection Hs as _ <-. lia.
    + destruct ((n0 =? 3)%nat || (n0 =? 8)%nat); [|discriminate].
      injection Hs as _ <-. lia.
  - destruct ((byte c =? byte "i") || (byte c =? byte "I")).
    + set (n0 := commonPrefixLenIgnoreCase (String c rest) "infinity") in *.
      destruct ((3 <? n0)%nat && (n0 <? 8)%nat) eqn:Hadj.
      * apply andb_prop in Hadj as [H3 _]. apply Nat.ltb_lt in H3.
        cbn in Hs. injection Hs as _ <-. lia.
      * destruct ((n0 =? 3)%nat || (n0 =? 8)%nat); [|discriminate].
        injection Hs as _ <-. lia.
    + destruct ((byte c =? byte "n") || (byte c =? byte "N")); [|discriminate].
      destruct (commonPrefixLenIgnoreCase (String c rest) "nan" =? 3)%nat eqn:E;
        [|discriminate].
      apply Nat.eqb_eq in E. injection Hs as _ <-. lia.
Qed.

Lemma read_mantissa_blank (base : Z) (s : string) :
  forall st, has_byte " " s = true ->
    has_byte " " (snd (read_mantissa base s st)) = true.
Proof.
  induction s as [|c s IH]; intros st H; [discriminate|].
  destruct st as [dot dg us nd dp m]. cbn [read_mantissa].
  destruct (has_blank_cons _ _ H) as [->|Hr].
  - change (byte " " =? byte "_") with false. change (byte " " =? byte ".") with false.
    change (between "0" (byte " ") "9") with false.
    change (between "a" (lower (byte " ")) "f") with false.
    rewrite andb_false_r. exact H.
  - repeat match goal with |- context [if ?b then _ else _] => destruct b end;
      try (cbn [snd]; exact H); apply IH; exact Hr.
Qed.

Lemma read_exponent_blank (s : string) :
  forall us e, has_byte " " s = true ->
    has_byte " " (snd (read_exponent s us e)) = true.
Proof.
  induction s as [|c s IH]; intros us e H; [discriminate|].
  cbn [read_exponent].
  destruct (has_blank_cons _ _ H) as [->|Hr].
  - change (byte " " =? byte "_") with false.
    change (between "0" (byte " ") "9") with false. exact H.
  - destruct (byte c =? byte "_"); [apply IH; exact Hr|].
    destruct (between "0" (byte c) "9"); [apply IH; exact Hr|exact H].
Qed.

Lemma read_exp_blank (hex : bool) (s : string) (dp : Z) (us : bool) (r : Z * bool * string) :
  has_byte " " s = true -> read_exp hex s dp us = Some r -> has_byte " " (snd r) = true.
Proof.
  intros H Hr. destruct s as [|x s1]; [discriminate|].
  cbn [read_exp] in Hr. cbv zeta in Hr.
  destruct (lower (byte x) =? (if hex then byte "p" else byte "e")) eqn:Hx.
  - assert (H1 : has_byte " " s1 = true).
    { destruct (has_blank_cons _ _ H) as [->|H1]; [|exact H1].
      destruct hex; discriminate Hx. }
    destruct s1 as [|y s2]; [discriminate|].
    assert (H3 : has_byte " "
                   (snd (if byte y =? byte "+" then (1, s2)
                         else if byte y =? byte "-" then (-1, s2) else (1, String y s2)))
                 = true).
    { destruct (has_blank_cons _ _ H1) as [->|H2]; [exact H1|].
      destruct (byte y =? byte "+"); [exact H2|].
      destruct (byte y =? byte "-"); [exact H2|exact H1]. }
    destruct (if byte y =? byte "+" then (1, s2)
              else if byte y =? byte "-" then (-1, s2) else (1, String y s2))
      as [esign s3].
    cbn [snd] in H3. destruct s3 as [|z s4]; [discriminate|].
    destruct (between "0" (byte z) "9"); [|discriminate].
    pose proof (read_exponent_blank (String z s4) us 0 H3) as He.
    destruct (read_exponent (String z s4) us 0) as [[e us'] unread].
    injection Hr as <-. exact He.
  - destruct hex; [discriminate|]. injection Hr as <-. exact H.
Qed.

Lemma readFloat_blank (s : string) (num : number) :
  has_byte " " s = true -> readFloat s = Some num -> has_byte " " (unread num) = true.
Proof.
  intros H Hr. destruct s as [|c s']; [discriminate|].
  unfold readFloat in Hr.
  assert (H1 : has_byte " " (snd (read_sign (String c s'))) = true).
  { cbn [read_sign]. destruct (has_blank_cons _ _ H) as [->|H1]; [exact H|].
    destruct (byte c =? byte "+"); [exact H1|].
    destruct (byte c =? byte "-"); [exact H1|exact H]. }
  destruct (read_sign (String c s')) as [sg s1]. cbn [snd] in H1.
  assert (H2 : has_byte " " (snd (read_base s1)) = true).
  { destruct s1 as [|d0 [|d1 [|d2 r]]]; try exact H1.
    cbn [read_base].
    destruct ((byte d0 =? byte "0") && (lower (byte d1) =? byte "x")) eqn:Hp; [|exact H1].
    apply andb_prop in Hp as [P0 P1].
    destruct (has_blank_cons _ _ H1) as [->|H1']; [discriminate P0|].
    destruct (has_blank_cons _ _ H1') as [->|H1'']; [discriminate P1|exact H1'']. }
  destruct (read_base s1) as [hx s2]. cbn [snd] in H2.
  pose proof (read_mantissa_blank (if hx then 16 else 10) s2
                (Mant false false false 0 0 0) H2) as H3.
  cbv zeta in Hr.
  destruct (read_mantissa (if hx then 16 else 10) s2 (Mant false false false 0 0 0))
    as [[dot dg us nd dp m] s3].
  cbn [snd] in H3.
  destruct (negb dg); [discriminate|].
  destruct hx; cbv beta iota zeta in Hr;
    (match type of Hr with
     | context [read_exp ?h s3 ?d ?u] =>
         pose proof (read_exp_blank h s3 d u) as H4;
         destruct (read_exp h s3 d u) as [[[dp' us'] rest]|]; [|discriminate]
     end;
     specialize (H4 _ H3 eq_refl); cbn [snd] in H4;
     match type of Hr with
     | context [if ?b then None else _] => destruct b; [discriminate|]
     end; injection Hr as <-; exact H4).
Qed.

Lemma parse_digits_blank (base maxVal : Z) (s : string) :
  forall n, has_byte " " s = true -> parse_digits base maxVal s n = None.
Proof.
  induction s as [|c s IH]; intros n H; [discriminate|].
  cbn [parse_digits]. cbv zeta.
  destruct (has_blank_cons _ _ H) as [->|Hr]; [reflexivity|].
  repeat match goal with
         | |- context [if ?b then _ else _] => destruct b
         end; try reflexivity; apply IH; exact Hr.
Qed.

(** X8.  A text with a blank in it is never a number or a boolean: the
    coercer gives it back as a string.  (A positional is coerced with
    the blanks around it, an escaped value with those inside it.) *)
Theorem coerceArgument_blank (value : string) :
  has_byte " " value = true -> coerceArgument value = AString value.
Proof.
  intros H. unfold coerceArgument.
  assert (Hf : ParseFloat value = None).
  { unfold ParseFloat.
    destruct (special value) as [[f n]|] eqn:Hs.
    - pose proof (special_blank _ _ _ H Hs) as Hn.
      apply Nat.eqb_neq in Hn. rewrite Hn. reflexivity.
    - destruct (readFloat value) as [[sg hx m e rest]|] eqn:Hr; [|reflexivity].
      pose proof (readFloat_blank _ _ H Hr) as Hu. cbn [unread] in Hu.
      destruct rest; [discriminate|reflexivity]. }
  rewrite Hf.
  assert (Hu : (if HasPrefix value "0x"
                then ParseUint (Replace value "0x" "" 1) 16 32 else None) = None).
  { destruct (HasPrefix value "0x") eqn:Hp; [|reflexivity].
    rewrite (Replace_prefix _ _ "" Hp).
    destruct (HasPrefix_two _ _ _ Hp) as [r ->].
    change ("" +:+ drop_bytes (String.length "0x") (String "0" (String "x" r))) with r.
    assert (Hb : has_byte " " r = true) by exact H.
    unfold ParseUint. destruct r; [reflexivity|]. apply parse_digits_blank. exact Hb. }
  rewrite Hu.
  assert (Hb : ParseBool value = None).
  { unfold ParseBool.
    destruct (existsb (String.eqb value) ["1"; "t"; "T"; "true"; "TRUE"; "True"]) eqn:Ht.
    { apply existsb_exists in Ht as (x & Hx & E). apply String.eqb_eq in E. subst x.
      cbn [In] in Hx.
      repeat (destruct Hx as [<-|Hx]; [discriminate H|]). destruct Hx. }
    destruct (existsb (String.eqb value) ["0"; "f"; "F"; "false"; "FALSE"; "False"]) eqn:Hfl;
      [|reflexivity].
    apply existsb_exists in Hfl as (x & Hx & E). apply String.eqb_eq in E. subst x.
    cbn [In] in Hx.
    repeat (destruct Hx as [<-|Hx]; [discriminate H|]). destruct Hx. }
  rewrite Hb. reflexivity.
Qed.

(** The hypothesis of X8, met by a number with a blank after it. *)
Lemma coerceArgument_blank_witness : coerceArgument "1 " = AString "1 ".
Proof. exact (coerceArgument_blank "1 " eq_refl). Defined.

(** ** Flags and their values *)

Lemma TrimRight_no_blank (s : string) :
  has_byte " " s = false -> TrimRight s " " = s.
Proof.
  induction s as [|c s IH]; intros Hs; [reflexivity|].
  cbn [has_byte] in Hs. apply orb_false_elim in Hs as [Hc Hs].
  cbn [TrimRight]. rewrite (IH Hs).
  destruct s; [|reflexivity].
  cbn [in_cutset]. rewrite Ascii.eqb_sym, Hc. reflexivity.
Qed.

Lemma Trim_no_blank (s : string) : has_byte " " s = false -> Trim s " " = s.
Proof.
  intros Hs. unfold Trim.
  replace (TrimLeft s " ") with s; [apply TrimRight_no_blank; exact Hs|].
  destruct s as [|c s]; [reflexivity|].
  cbn [has_byte] in Hs. apply orb_false_elim in Hs as [Hc _].
  cbn [TrimLeft in_cutset]. rewrite Ascii.eqb_sym, Hc. reflexivity.
Qed.

(** The tokens of the flag [--k], of [--k=v] and of the value [v]. *)
Lemma tokens_of_flag (k : string) :
  k <> EmptyString -> has_byte " " k = false -> has_byte "=" k = false ->
  is_marker ("--" +:+ k) = false /\ tokens_of ("--" +:+ k) = ["--" +:+ k]
  /\ options_of ("--" +:+ k) = [].
Proof.
  intros Hne Hb He.
  assert (Hb' : has_byte " " ("--" +:+ k) = false) by (rewrite has_byte_app, Hb; reflexivity).
  assert (He' : has_byte "=" ("--" +:+ k) = false) by (rewrite has_byte_app, He; reflexivity).
  unfold is_marker, tokens_of, options_of. rewrite (Trim_no_blank _ Hb').
  change (HasPrefix ("--" +:+ k) "--") with (HasPrefix (String "-" (String "-" k)) "--").
  assert (Hp : HasPrefix (String "-" (String "-" k)) "--" = true) by (destruct k; reflexivity).
  rewrite Hp. split_all.
  - destruct k as [|c k]; [contradiction|reflexivity].
  - rewrite (Replace_absent _ _ _ He'), (Split_one _ _ Hb'). reflexivity.
  - reflexivity.
Qed.

Lemma tokens_of_inline (k v : string) :
  has_byte " " k = false -> has_byte "=" k = false -> has_byte " " v = false ->
  is_marker ("--" +:+ k +:+ "=" +:+ v) = false
  /\ tokens_of ("--" +:+ k +:+ "=" +:+ v) = ["--" +:+ k; v]
  /\ options_of ("--" +:+ k +:+ "=" +:+ v) = [].
Proof.
  intros Hb He Hv.
  assert (Hb' : has_byte " " ("--" +:+ k +:+ "=" +:+ v) = false).
  { rewrite !has_byte_app, Hb, Hv. reflexivity. }
  assert (He' : has_byte "=" ("--" +:+ k) = false) by (rewrite has_byte_app, He; reflexivity).
  assert (Hb2 : has_byte " " ("--" +:+ k) = false) by (rewrite has_byte_app, Hb; reflexivity).
  unfold is_marker, tokens_of, options_of. rewrite (Trim_no_blank _ Hb').
  change (HasPrefix ("--" +:+ k +:+ "=" +:+ v) "--")
    with (HasPrefix (String "-" (String "-" (k +:+ "=" +:+ v))) "--").
  assert (Hp : HasPrefix (String "-" (String "-" (k +:+ "=" +:+ v))) "--" = true).
  { destruct (k +:+ "=" +:+ v); reflexivity. }
  rewrite Hp. split_all.
  - apply String.eqb_neq. intros E.
    assert (H : has_byte "=" ("--" +:+ k +:+ "=" +:+ v) = has_byte "=" "--") by (rewrite E; reflexivity).
    rewrite !has_byte_app in H. simpl in H. rewrite orb_true_r in H. discriminate.
  - change ("--" +:+ k +:+ "=" +:+ v) with (("--" +:+ k) +:+ String "=" v).
    rewrite (Replace_first_byte _ _ _ _ He').
    change (("--" +:+ k) +:+ " " +:+ v) with (("--" +:+ k) +:+ String " " v).
    rewrite (Split_two _ _ _ Hb2 Hv). reflexivity.
  - reflexivity.
Qed.

Lemma tokens_of_value (v : string) :
  has_byte " " v = false -> HasPrefix v "-" = false ->
  is_marker v = false /\ tokens_of v = [v] /\ options_of v = [].
Proof.
  intros Hb Hd. unfold is_marker, tokens_of, options_of. rewrite (Trim_no_blank _ Hb).
  assert (Hdd : HasPrefix v "--" = false).
  { unfold HasPrefix in Hd |- *. destruct v as [|c v]; [reflexivity|].
    rewrite prefix_byte in Hd. cbn [String.prefix].
    destruct (ascii_dec "-" c) as [<-|]; [|reflexivity].
    rewrite Ascii.eqb_refl in Hd. discriminate. }
  rewrite Hdd, Hd. split_all; try reflexivity.
  apply String.eqb_neq. intros E. rewrite E in Hdd. discriminate.
Qed.

(** X9.  A flag with an inline value parses as the flag followed by the
    value as an argument of its own, wherever it stands before the escape
    marker, when the name has no [=] or blank in it and the value has no
    blank and does not start with [-]. *)
Theorem Parse_inline_value (osArgs before after : list string) (k v : string) :
  existsb is_marker before = false ->
  k <> EmptyString -> has_byte " " k = false -> has_byte "=" k = false ->
  has_byte " " v = false -> HasPrefix v "-" = false ->
  Parse osArgs (Some (before ++ ("--" +:+ k +:+ "=" +:+ v) :: after))
  = Parse osArgs (Some (before ++ ("--" +:+ k) :: v :: after)).
Proof.
  intros Hm Hne Hbk Hek Hbv Hdv.
  rewrite !Parse_pipeline by (left; discriminate).
  unfold pipeline, arguments. rewrite !fold_left_app. cbn [fold_left].
  fold scan0. pose proof (no_marker_unescaped before Hm) as He.
  set (st := fold_left sanitize before scan0) in *.
  destruct (tokens_of_flag k Hne Hbk Hek) as (F1 & F2 & F3).
  destruct (tokens_of_inline k v Hbk Hek Hbv) as (I1 & I2 & I3).
  destruct (tokens_of_value v Hbv Hdv) as (V1 & V2 & V3).
  unfold is_marker in F1, I1, V1.
  replace (sanitize st ("--" +:+ k +:+ "=" +:+ v))
    with (sanitize (sanitize st ("--" +:+ k)) v); [reflexivity|].
  rewrite (sanitize_step st ("--" +:+ k +:+ "=" +:+ v) He),
    (sanitize_step st ("--" +:+ k) He), F1, I1, F2, F3, I2, I3.
  rewrite sanitize_step by reflexivity. rewrite V1, V2, V3.
  cbn [escapedArgs sanitized parsed fold_left]. rewrite <- app_assoc. reflexivity.
Qed.

(** The hypotheses of X9, met between a positional and a flag. *)
Lemma Parse_inline_value_witness :
  Parse [] (Some ["a"; "--x=b=c"; "--y"]) = Parse [] (Some ["a"; "--x"; "b=c"; "--y"]).
Proof.
  refine (Parse_inline_value [] ["a"] ["--y"] "x" "b=c" eq_refl _ eq_refl eq_refl eq_refl eq_refl).
  discriminate.
Defined.

(** The first loop only appends to the tokens: what it has collected
    before does not bear on anything else it does. *)
Lemma sanitize_prefix_step (e : bool) (ea : list Arg) (s s' : list string)
    (p : gmap string Arg) (v : string) :
  sanitize (Scan e ea (s' ++ s) p) v
  = Scan (escaped (sanitize (Scan e ea s p) v)) (escapedArgs (sanitize (Scan e ea s p) v))
         (s' ++ sanitized (sanitize (Scan e ea s p) v))
         (parsed (sanitize (Scan e ea s p) v)).
Proof.
  unfold sanitize. cbn [escaped escapedArgs sanitized parsed].
  destruct (String.eqb (Trim v " ") "--"); [reflexivity|].
  destruct e; [reflexivity|].
  destruct (HasPrefix (Trim v " ") "--");
    [cbn [escaped escapedArgs sanitized parsed]; rewrite app_assoc; reflexivity|].
  destruct (HasPrefix (Trim v " ") "-"); [reflexivity|].
  cbn [escaped escapedArgs sanitized parsed]. rewrite app_assoc. reflexivity.
Qed.

Lemma sanitize_prefix (l : list string) :
  forall (e : bool) (ea : list Arg) (s s' : list string) (p : gmap string Arg),
    fold_left sanitize l (Scan e ea (s' ++ s) p)
    = Scan (escaped (fold_left sanitize l (Scan e ea s p)))
           (escapedArgs (fold_left sanitize l (Scan e ea s p)))
           (s' ++ sanitized (fold_left sanitize l (Scan e ea s p)))
           (parsed (fold_left sanitize l (Scan e ea s p))).
Proof.
  induction l as [|v l IH]; intros e ea s s' p; [reflexivity|].
  cbn [fold_left]. rewrite sanitize_prefix_step, IH.
  rewrite scan_eta. reflexivity.
Qed.

(** A flag that is the last token, or stands before another flag, walks
    as the flag followed by the token [true]. *)
Lemma walk_bare_flag (f : string) (rest : list string) :
  HasPrefix f "--" = true ->
  match rest with [] => True | next :: _ => HasPrefix next "--" = true end ->
  forall (n : nat) (tokens : list string) (plain : list Arg) (flags : gmap string Arg),
    (length tokens <= n)%nat ->
    walk (tokens ++ f :: rest) plain flags = walk (tokens ++ f :: "true" :: rest) plain flags.
Proof.
  intros Hf Hrest.
  assert (Hbase : forall plain flags,
             walk (f :: rest) plain flags = walk (f :: "true" :: rest) plain flags).
  { intros plain flags. cbn [walk]. rewrite Hf. cbn [negb].
    change (HasPrefix "true" "--") with false. cbv iota.
    rewrite String.eqb_refl, andb_true_r.
    destruct rest as [|next rest'].
    - destruct (HasPrefix (Replace f "--" "" 1) "no-"); reflexivity.
    - rewrite Hrest. destruct (HasPrefix (Replace f "--" "" 1) "no-"); reflexivity. }
  induction n as [|n IH]; intros tokens plain flags Hn.
  - destruct tokens; [apply Hbase|simpl in Hn; lia].
  - destruct tokens as [|current ts]; [apply Hbase|].
    simpl in Hn. change ((current :: ts) ++ f :: rest) with (current :: (ts ++ f :: rest)).
    change ((current :: ts) ++ f :: "true" :: rest)
      with (current :: (ts ++ f :: "true" :: rest)).
    cbn [walk]. destruct (HasPrefix current "--"); cbn [negb].
    2:{ apply IH. lia. }
    destruct ts as [|next ts'].
    + change ([] ++ f :: rest) with (f :: rest).
      change ([] ++ f :: "true" :: rest) with (f :: "true" :: rest).
      cbv iota. rewrite Hf. apply Hbase.
    + simpl in Hn.
      change ((next :: ts') ++ f :: rest) with (next :: (ts' ++ f :: rest)).
      change ((next :: ts') ++ f :: "true" :: rest)
        with (next :: (ts' ++ f :: "true" :: rest)).
      cbv iota.
      destruct (HasPrefix next "--").
      * apply (IH (next :: ts')). simpl. lia.
      * destruct (HasPrefix (Replace current "--" "" 1) "no-" && String.eqb next "true");
          apply IH; lia.
Qed.

(** The first token of a flag starts with [--], as the flag does. *)
Lemma cut_flag (c : ascii) (r : string) :
  Ascii.eqb c "-" = false ->
  cut (String c EmptyString) (String "-" (String "-" r))
  = match cut (String c EmptyString) r with
    | Some (b, a) => Some (String "-" (String "-" b), a)
    | None => None
    end.
Proof.
  intros Hc. cbn [cut]. rewrite !prefix_byte, Hc.
  destruct (cut (String c EmptyString) r) as [[b a]|]; reflexivity.
Qed.

Lemma tokens_of_flag_head (a : string) :
  is_flag a = true -> is_marker a = false ->
  exists t ts, tokens_of a = t :: ts /\ HasPrefix t "--" = true.
Proof.
  unfold is_flag, is_marker, tokens_of. intros Hf _. rewrite Hf.
  destruct (HasPrefix_two _ _ _ Hf) as [r ->].
  assert (Hr : exists r', Replace (String "-" (String "-" r)) "=" " " 1
                          = String "-" (String "-" r')).
  { change (Replace (String "-" (String "-" r)) "=" " " 1)
      with (replace_upto 1 (String "-" (String "-" r)) "=" " ").
    cbn [replace_upto]. rewrite (cut_flag "=" r eq_refl).
    destruct (cut "=" r) as [[b a']|]; eauto. }
  destruct Hr as [r' ->]. unfold Split.
  cbn [String.length split_upto]. rewrite (cut_flag " " r' eq_refl).
  destruct (cut " " r') as [[b a']|]; eexists; eexists; (split; [reflexivity|]);
    [destruct b|destruct r']; reflexivity.
Qed.

Lemma no_value_normalized (after : list string) :
  no_value after = true ->
  match normalized after with [] => True | next :: _ => HasPrefix next "--" = true end.
Proof.
  destruct after as [|a after]; [exact (fun _ => I)|].
  cbn [no_value normalized]. intros Ha.
  destruct (String.eqb (Trim a " ") "--") eqn:Hm; [exact I|].
  destruct (tokens_of_flag_head a Ha Hm) as (t & ts & -> & Ht). exact Ht.
Qed.

(** X10.  A flag without a value of its own (the last argument, or one
    followed by a flag or by the escape marker) parses exactly as the
    same flag with the inline value [true]: the two lists of arguments
    give the same result. *)
Theorem Parse_bare_flag (osArgs before after : list string) (k : string) :
  existsb is_marker before = false ->
  k <> EmptyString -> has_byte " " k = false -> has_byte "=" k = false ->
  no_value after = true ->
  Parse osArgs (Some (before ++ ("--" +:+ k) :: after))
  = Parse osArgs (Some (before ++ ("--" +:+ k +:+ "=true") :: after)).
Proof.
  intros Hm Hne Hbk Hek Hafter.
  rewrite !Parse_pipeline by (left; discriminate).
  unfold pipeline, arguments. rewrite !fold_left_app. cbn [fold_left].
  fold scan0. pose proof (no_marker_unescaped before Hm) as He.
  set (st := fold_left sanitize before scan0) in *.
  destruct (tokens_of_flag k Hne Hbk Hek) as (F1 & F2 & F3).
  destruct (tokens_of_inline k "true" Hbk Hek eq_refl) as (I1 & I2 & I3).
  unfold is_marker in F1, I1.
  change ("--" +:+ k +:+ "=true") with ("--" +:+ k +:+ "=" +:+ "true").
  rewrite (sanitize_step st ("--" +:+ k +:+ "=" +:+ "true") He),
    (sanitize_step st ("--" +:+ k) He), F1, I1, F2, F3, I2, I3.
  cbn [fold_left].
  rewrite <- (app_nil_r (sanitized st ++ ["--" +:+ k])),
          <- (app_nil_r (sanitized st ++ ["--" +:+ k; "true"])).
  rewrite !sanitize_prefix.
  set (r := fold_left sanitize after (Scan false (escapedArgs st) [] (parsed st))).
  cbn [escaped escapedArgs sanitized parsed].
  destruct (sanitize_tokens after (Scan false (escapedArgs st) [] (parsed st)) eq_refl)
    as [Hs _].
  fold r in Hs. cbn [sanitized app] in Hs. rewrite Hs, <- !app_assoc.
  cbn [app].
  rewrite (walk_bare_flag ("--" +:+ k) (normalized after)
             ltac:(destruct k; reflexivity) (no_value_normalized after Hafter)
             _ (sanitized st) [] (parsed r) (Nat.le_refl _)).
  reflexivity.
Qed.

(** The hypotheses of X10, met by a flag before another and by a negated
    flag before the marker. *)
Lemma Parse_bare_flag_witness :
  Parse [] (Some ["a"; "--x"; "--y=1"]) = Parse [] (Some ["a"; "--x=true"; "--y=1"])
  /\ Parse [] (Some ["--no-x"; "--"; "b"])
     = Returns (Some {[ "_" := ASlice [AString "b"]; "x" := ABool false ]}, None).
Proof.
  split.
  - refine (Parse_bare_flag [] ["a"] ["--y=1"] "x" eq_refl _ eq_refl eq_refl eq_refl).
    discriminate.
  - refine (eq_trans (Parse_bare_flag [] [] ["--"; "b"] "no-x" eq_refl _ eq_refl eq_refl
                        eq_refl) _); [discriminate|].
    vm_compute. reflexivity.
Defined.

(** The first value stored under a key, with the positionals put in
    their place after it. *)
Lemma store_fresh (key next : string) (l : list Arg) :
  <["_" := ASlice l]> (store {["_" := ASlice []]} key next)
  = <["_" := ASlice l]> ({[ key := coerceArgument next ]} : gmap string Arg).
Proof.
  unfold store. destruct (decide (key = "_")) as [->|Hne].
  - rewrite lookup_singleton_eq. cbn [Arg_is orb].
    rewrite insert_insert_eq, insert_singleton_eq. reflexivity.
  - rewrite lookup_singleton_ne by congruence.
    apply map_eq. intros i. destruct (decide (i = "_")) as [->|Hi].
    + rewrite !lookup_insert_eq. reflexivity.
    + rewrite !(lookup_insert_ne _ "_") by congruence.
      destruct (decide (i = key)) as [->|Hk].
      * rewrite lookup_insert_eq, lookup_singleton_eq. reflexivity.
      * rewrite lookup_insert_ne by congruence.
        rewrite !lookup_singleton_ne by congruence. reflexivity.
Qed.

(** X11.  The map of a single flag with an inline value (a name without
    [=] or blank, a value without blank that does not start with [--]):
    the name is bound to the coerced value, except that a name starting
    with [no-] with the value [true], and that value only, binds the rest
    of the name to false.  A flag named [_] is lost under the
    positionals. *)
Theorem Parse_one_flag (osArgs : list string) (k v : string) :
  has_byte " " k = false -> has_byte "=" k = false ->
  has_byte " " v = false -> HasPrefix v "--" = false ->
  Parse osArgs (Some ["--" +:+ k +:+ "=" +:+ v])
  = Returns
      (Some (<["_" := ASlice []]>
               (if HasPrefix k "no-" && String.eqb v "true"
                then ({[ drop_bytes 3 k := ABool false ]} : gmap string Arg)
                else {[ k := coerceArgument v ]})),
       None).
Proof.
  intros Hbk Hek Hbv Hdv.
  rewrite Parse_pipeline by (left; discriminate).
  unfold pipeline, arguments. cbn [fold_left]. fold scan0.
  destruct (tokens_of_inline k v Hbk Hek Hbv) as (I1 & I2 & I3).
  unfold is_marker in I1.
  rewrite (sanitize_step scan0 _ eq_refl), I1, I2, I3.
  cbn [sanitized parsed escapedArgs scan0 fold_left app walk].
  assert (Hp : HasPrefix ("--" +:+ k) "--" = true) by (destruct k; reflexivity).
  rewrite Hp, Hdv. cbn [negb]. rewrite (Replace_prefix _ _ "" Hp).
  change ("" +:+ drop_bytes (String.length "--") ("--" +:+ k)) with k.
  destruct (HasPrefix k "no-") eqn:Hno; cbn [andb].
  - rewrite (Replace_prefix _ _ "" Hno).
    change ("" +:+ drop_bytes (String.length "no-") k) with (drop_bytes 3 k).
    destruct (String.eqb v "true"); rewrite store_fresh; reflexivity.
  - rewrite store_fresh. reflexivity.
Qed.

(** The hypotheses of X11, met by a negated flag with the values [true],
    [True] and [false]. *)
Lemma Parse_one_flag_witness :
  Parse [] (Some ["--no-color=true"])
  = Returns (Some {[ "_" := ASlice []; "color" := ABool false ]}, None)
  /\ Parse [] (Some ["--no-color=True"])
     = Returns (Some {[ "_" := ASlice []; "no-color" := ABool true ]}, None)
  /\ Parse [] (Some ["--no-color=false"])
     = Returns (Some {[ "_" := ASlice []; "no-color" := ABool false ]}, None).
Proof.
  split_all.
  - refine (eq_trans (Parse_one_flag [] "no-color" "true" eq_refl eq_refl eq_refl eq_refl) _).
    vm_compute. reflexivity.
  - vm_compute. reflexivity.
  - vm_compute. reflexivity.
Defined.

(** ** Bundles of options *)

(** An ASCII text explodes into its bytes. *)
Lemma explode_upto_ascii (s : string) :
  forall fuel, is_ascii s = true -> (String.length s <= fuel)%nat ->
    explode_upto fuel s = letters s.
Proof.
  induction s as [|c s IH]; intros fuel Ha Hf; [destruct fuel; reflexivity|].
  unfold is_ascii in Ha. cbn [list_ascii_of_string forallb] in Ha.
  apply andb_prop in Ha as [Hc Ha].
  destruct fuel as [|fuel]; [simpl in Hf; lia|].
  cbn [explode_upto]. unfold rune_width. rewrite Hc.
  cbn [take_bytes drop_bytes]. rewrite IH; [reflexivity|exact Ha|simpl in Hf; lia].
Qed.

(** What the first loop does with a bundle of options in ASCII. *)
Lemma sanitize_bundle (st : scan) (o s : string) :
  escaped st = false ->
  Trim o " " = "-" +:+ s -> HasPrefix s "-" = false -> is_ascii s = true ->
  sanitize st o
  = Scan false (escapedArgs st) (sanitized st)
         (fold_left (fun m o => <[o := ABool true]> m) (letters s) (parsed st)).
Proof.
  intros He Ho Hd Ha. unfold sanitize. rewrite Ho, He.
  assert (H1 : String.eqb ("-" +:+ s) "--" = false).
  { apply String.eqb_neq. intros E. change (String "-" s = String "-" "-") in E.
    injection E as E. rewrite E in Hd. discriminate. }
  assert (H2 : HasPrefix ("-" +:+ s) "--" = false).
  { unfold HasPrefix in Hd |- *. destruct s as [|c s]; [reflexivity|].
    rewrite prefix_byte in Hd. change ("-" +:+ String c s) with (String "-" (String c s)).
    cbn [String.prefix]. destruct (ascii_dec "-" "-"); [|reflexivity].
    destruct (ascii_dec "-" c) as [<-|]; [|reflexivity].
    rewrite Ascii.eqb_refl in Hd. discriminate. }
  assert (H3 : HasPrefix ("-" +:+ s) "-" = true) by (destruct s; reflexivity).
  rewrite H1, H2, H3.
  rewrite (Replace_prefix _ _ "" H3).
  change ("" +:+ drop_bytes (String.length "-") ("-" +:+ s)) with s.
  unfold Split, explode. rewrite (explode_upto_ascii s _ Ha (Nat.le_refl _)).
  reflexivity.
Qed.

(** X12.  The map of a single bundle of options [-s], for an ASCII text
    [s] without blank that does not start with [-]: every character of
    [s] is a key bound to true, [_] is bound to the empty list, and there
    is no other key.  So a negative number given as an argument sets its
    digits as options and is no value. *)
Theorem Parse_bundle (osArgs : list string) (s : string) :
  is_ascii s = true -> has_byte " " s = false -> HasPrefix s "-" = false ->
  exists m,
    Parse osArgs (Some ["-" +:+ s]) = Returns (Some m, None)
    /\ m !! "_" = Some (ASlice [])
    /\ forall key, key <> "_" ->
         m !! key = if decide (key ∈ letters s) then Some (ABool true) else None.
Proof.
  intros Ha Hb Hd. eexists.
  rewrite Parse_pipeline by (left; discriminate).
  unfold pipeline, arguments. cbn [fold_left]. fold scan0.
  assert (Hb' : has_byte " " ("-" +:+ s) = false) by (rewrite has_byte_app, Hb; reflexivity).
  rewrite (sanitize_bundle scan0 _ s eq_refl (Trim_no_blank _ Hb') Hd Ha).
  cbn [sanitized parsed escapedArgs scan0 walk app].
  split_all; [reflexivity|apply lookup_insert_eq|].
  intros key Hkey. rewrite lookup_insert_ne by congruence.
  rewrite set_options_lookup. rewrite lookup_singleton_ne by congruence. reflexivity.
Qed.

(** The hypotheses of X12, met by a negative number. *)
Lemma Parse_bundle_witness :
  exists m,
    Parse [] (Some ["-1.5"]) = Returns (Some m, None)
    /\ m !! "_" = Some (ASlice [])
    /\ forall key, key <> "_" ->
         m !! key = if decide (key ∈ ["1"; "."; "5"]) then Some (ABool true) else None.
Proof. exact (Parse_bundle [] "1.5" eq_refl eq_refl eq_refl). Defined.

(** ** An inline value that looks like a flag *)

(** X13.  An inline value that starts with [--] is no value: the flag is
    read as a flag without a value and the text after the [=] as a flag
    of its own (both names without [=] or blank). *)
Theorem Parse_inline_dashes (osArgs before after : list string) (k w : string) :
  existsb is_marker before = false ->
  k <> EmptyString -> has_byte " " k = false -> has_byte "=" k = false ->
  w <> EmptyString -> has_byte " " w = false -> has_byte "=" w = false ->
  Parse osArgs (Some (before ++ ("--" +:+ k +:+ "=" +:+ "--" +:+ w) :: after))
  = Parse osArgs (Some (before ++ ("--" +:+ k) :: ("--" +:+ w) :: after)).
Proof.
  intros Hm Hk Hbk Hek Hw Hbw Hew.
  rewrite !Parse_pipeline by (left; discriminate).
  unfold pipeline, arguments. rewrite !fold_left_app. cbn [fold_left].
  fold scan0. pose proof (no_marker_unescaped before Hm) as He.
  set (st := fold_left sanitize before scan0) in *.
  assert (Hbw' : has_byte " " ("--" +:+ w) = false) by (rewrite has_byte_app, Hbw; reflexivity).
  destruct (tokens_of_flag k Hk Hbk Hek) as (F1 & F2 & F3).
  destruct (tokens_of_flag w Hw Hbw Hew) as (W1 & W2 & W3).
  destruct (tokens_of_inline k ("--" +:+ w) Hbk Hek Hbw') as (I1 & I2 & I3).
  unfold is_marker in F1, W1, I1.
  replace (sanitize st ("--" +:+ k +:+ "=" +:+ "--" +:+ w))
    with (sanitize (sanitize st ("--" +:+ k)) ("--" +:+ w)); [reflexivity|].
  rewrite (sanitize_step st ("--" +:+ k +:+ "=" +:+ "--" +:+ w) He),
    (sanitize_step st ("--" +:+ k) He), F1, I1, F2, F3, I2, I3.
  rewrite sanitize_step by reflexivity. rewrite W1, W2, W3.
  cbn [escapedArgs sanitized parsed fold_left]. rewrite <- app_assoc. reflexivity.
Qed.

(** The hypotheses of X13, met by a flag whose inline value looks like a
    flag. *)
Lemma Parse_inline_dashes_witness :
  Parse [] (Some ["--out=--x"; "5"]) = Parse [] (Some ["--out"; "--x"; "5"])
  /\ Parse [] (Some ["--out"; "--x"; "5"])
     = Returns (Some {[ "_" := ASlice []; "out" := ABool true;
                        "x" := AFloat64 (Fin false (5 * 2 ^ 50) (-50)) ]}, None).
Proof.
  split.
  - refine (Parse_inline_dashes [] [] ["5"] "out" "x" eq_refl _ eq_refl eq_refl _
              eq_refl eq_refl); discriminate.
  - vm_compute. reflexivity.
Defined.

(** ** No flag is lost *)

Lemma store_key (m : gmap string Arg) (key next : string) :
  is_Some (store m key next !! key).
Proof.
  unfold store. destruct (m !! key) as [val|];
    [destruct (Arg_is val true || Arg_is val false)|]; rewrite lookup_insert_eq; eauto.
Qed.

Lemma store_dom (m : gmap string Arg) (key next i : string) :
  is_Some (m !! i) -> is_Some (store m key next !! i).
Proof.
  intros Hi. destruct (decide (i = key)) as [->|Hne]; [apply store_key|].
  unfold store. destruct (m !! key) as [val|];
    [destruct (Arg_is val true || Arg_is val false)|];
    rewrite lookup_insert_ne by congruence; exact Hi.
Qed.

(** The walk never unbinds a key. *)
Lemma walk_dom (i : string) (n : nat) :
  forall tokens plain flags,
    (length tokens <= n)%nat -> is_Some (flags !! i) ->
    is_Some (snd (walk tokens plain flags) !! i).
Proof.
  induction n as [|n IH]; intros tokens plain flags Hn Hi.
  - destruct tokens; [exact Hi|simpl in Hn; lia].
  - destruct tokens as [|current rest]; [exact Hi|].
    simpl in Hn. cbn [walk].
    destruct (HasPrefix current "--"); cbn [negb]; [|apply IH; [lia|exact Hi]].
    assert (Hon : is_Some
                    ((if HasPrefix (Replace current "--" "" 1) "no-"
                      then store flags (Replace (Replace current "--" "" 1) "no-" "" 1) "false"
                      else store flags (Replace current "--" "" 1) "true") !! i)).
    { destruct (HasPrefix (Replace current "--" "" 1) "no-"); apply store_dom; exact Hi. }
    destruct rest as [|next rest']; [exact Hon|]. simpl in Hn.
    destruct (HasPrefix next "--"); [apply IH; [simpl; lia|exact Hon]|].
    destruct (HasPrefix (Replace current "--" "" 1) "no-" && String.eqb next "true");
      apply IH; try lia; [exact Hon|apply store_dom; exact Hi].
Qed.

(** The walk comes to every flag among the tokens: none is taken for the
    value of the flag before it. *)
Lemma walk_reaches (f : string) (rest : list string) (n : nat) :
  HasPrefix f "--" = true ->
  forall tokens plain flags, (length tokens <= n)%nat ->
    exists plain' flags',
      walk (tokens ++ f :: rest) plain flags = walk (f :: rest) plain' flags'.
Proof.
  intros Hf. set (W := walk (f :: rest)).
  induction n as [|n IH]; intros tokens plain flags Hn.
  - destruct tokens; [exists plain, flags; reflexivity|simpl in Hn; lia].
  - destruct tokens as [|current ts]; [exists plain, flags; reflexivity|].
    simpl in Hn. change ((current :: ts) ++ f :: rest) with (current :: (ts ++ f :: rest)).
    cbn [walk]. destruct (HasPrefix current "--"); cbn [negb]; [|apply IH; lia].
    destruct ts as [|next ts'].
    + change ([] ++ f :: rest) with (f :: rest). cbv iota. rewrite Hf.
      change (walk (f :: rest)) with W. do 2 eexists. reflexivity.
    + simpl in Hn.
      change ((next :: ts') ++ f :: rest) with (next :: (ts' ++ f :: rest)). cbv iota.
      destruct (HasPrefix next "--").
      * apply (IH (next :: ts')). simpl. lia.
      * destruct (HasPrefix (Replace current "--" "" 1) "no-" && String.eqb next "true");
          apply IH; lia.
Qed.

(** The flag at the head of the tokens is bound when the walk is over,
    under its name or, for a name in [no-], under the rest of it. *)
Lemma walk_binds (k : string) (rest : list string) (plain : list Arg)
    (flags : gmap string Arg) :
  is_Some (snd (walk (("--" +:+ k) :: rest) plain flags) !! k)
  \/ (HasPrefix k "no-" = true
      /\ is_Some (snd (walk (("--" +:+ k) :: rest) plain flags) !! drop_bytes 3 k)).
Proof.
  cbn [walk].
  assert (Hp : HasPrefix ("--" +:+ k) "--" = true) by (destruct k; reflexivity).
  rewrite Hp. cbn [negb]. rewrite (Replace_prefix _ _ "" Hp).
  change ("" +:+ drop_bytes (String.length "--") ("--" +:+ k)) with k.
  destruct (HasPrefix k "no-") eqn:Hno; cbn [andb].
  - rewrite (Replace_prefix _ _ "" Hno).
    change ("" +:+ drop_bytes (String.length "no-") k) with (drop_bytes 3 k).
    destruct rest as [|next rest']; [right; split; [reflexivity|apply store_key]|].
    destruct (HasPrefix next "--");
      [right; split; [reflexivity|]; eapply walk_dom; [reflexivity|apply store_key]|].
    destruct (String.eqb next "true").
    + right. split; [reflexivity|]. eapply walk_dom; [reflexivity|apply store_key].
    + left. eapply walk_dom; [reflexivity|apply store_key].
  - left. destruct rest as [|next rest']; [apply store_key|].
    destruct (HasPrefix next "--"); eapply walk_dom; try reflexivity; apply store_key.
Qed.

(** X14.  No flag before the escape marker is lost: whatever stands around
    it, a flag (bare, or with an inline value without blank), whose name
    has no [=] or blank and is neither [_] nor [no-_], is a key of the
    map, under its name or, for a name that starts with [no-], under the
    rest of the name.  (The flags [_] and [no-_] are lost under the
    positionals.) *)
Theorem Parse_flag_is_key (osArgs before after : list string) (k v a : string) :
  existsb is_marker before = false ->
  k <> EmptyString -> has_byte " " k = false -> has_byte "=" k = false ->
  k <> "_" -> k <> "no-_" ->
  has_byte " " v = false ->
  In a ["--" +:+ k; inline k v] ->
  exists m,
    Parse osArgs (Some (before ++ a :: after)) = Returns (Some m, None)
    /\ (is_Some (m !! k)
        \/ (HasPrefix k "no-" = true /\ is_Some (m !! drop_bytes 3 k))).
Proof.
  intros Hm Hk Hbk Hek _ _ Hbv Ha. exists (pipeline (before ++ a :: after)).
  split; [apply (Parse_pipeline osArgs (Some (before ++ a :: after))); left; discriminate|].
  unfold pipeline. fold scan0.
  assert (Ht : exists ts, is_marker a = false /\ tokens_of a = ("--" +:+ k) :: ts).
  { destruct Ha as [<-|[<-|[]]].
    - destruct (tokens_of_flag k Hk Hbk Hek) as (F1 & F2 & _). eauto.
    - destruct (tokens_of_inline k v Hbk Hek Hbv) as (I1 & I2 & _). eauto. }
  destruct Ht as (ts & Ham & Hat).
  destruct (sanitize_tokens (before ++ a :: after) scan0 eq_refl) as [Hs _].
  cbn [sanitized scan0 app] in Hs.
  assert (Hn : exists t1 t2, normalized (before ++ a :: after)
                             = t1 ++ ("--" +:+ k) :: t2).
  { clear - Hm Ham Hat. induction before as [|b before IH].
    - exists [], (ts ++ normalized after). cbn [app normalized].
      unfold is_marker in Ham. rewrite Ham, Hat. reflexivity.
    - cbn [existsb] in Hm. apply orb_false_elim in Hm as [Hb Hm].
      destruct (IH Hm) as (t1 & t2 & E). exists (tokens_of b ++ t1), t2.
      change ((b :: before) ++ a :: after) with (b :: (before ++ a :: after)).
      cbn [normalized]. unfold is_marker in Hb. rewrite Hb, E, <- app_assoc. reflexivity. }
  destruct Hn as (t1 & t2 & Hn).
  set (st := fold_left sanitize (before ++ a :: after) scan0) in *.
  rewrite Hs, Hn.
  destruct (walk_reaches ("--" +:+ k) t2 (length t1) ltac:(destruct k; reflexivity)
              t1 [] (parsed st) (Nat.le_refl _)) as (plain' & flags' & Hw).
  rewrite Hw. pose proof (walk_binds k t2 plain' flags') as Hb.
  destruct (walk (("--" +:+ k) :: t2) plain' flags') as [plain flags].
  cbn [snd] in Hb.
  assert (Hins : forall i, is_Some (flags !! i)
                   -> is_Some (<["_" := ASlice (plain ++ escapedArgs st)]> flags !! i)).
  { intros i Hi. destruct (decide (i = "_")) as [->|Hne].
    - rewrite lookup_insert_eq. eauto.
    - rewrite lookup_insert_ne by congruence. exact Hi. }
  destruct Hb as [Hb|[Hno Hb]]; [left|right; split; [exact Hno|]]; apply Hins; exact Hb.
Qed.

(** The hypotheses of X14, met by a flag after a flag that wants a value. *)
Lemma Parse_flag_is_key_witness :
  exists m,
    Parse [] (Some ["--a"; "--no-b=1"; "c"]) = Returns (Some m, None)
    /\ (is_Some (m !! "no-b") \/ (HasPrefix "no-b" "no-" = true /\ is_Some (m !! "b"))).
Proof.
  refine (Parse_flag_is_key [] ["--a"] ["c"] "no-b" "1" "--no-b=1" eq_refl _ eq_refl eq_refl
            _ _ eq_refl _); [discriminate|discriminate|discriminate|right; left; reflexivity].
Defined.

(** ** A flag given several times *)

(** Arguments that are neither the marker nor a bundle leave the map as
    it is in the first loop. *)
Lemma sanitize_no_options (l : list string) :
  forall st, escaped st = false ->
    Forall (fun v => is_marker v = false /\ options_of v = []) l ->
    parsed (fold_left sanitize l st) = parsed st
    /\ escapedArgs (fold_left sanitize l st) = escapedArgs st
    /\ sanitized (fold_left sanitize l st) = sanitized st ++ flat_map tokens_of l.
Proof.
  induction l as [|v l IH]; intros st He Hl.
  - cbn [fold_left flat_map]. rewrite app_nil_r. split_all; reflexivity.
  - inversion Hl as [|? ? [Hm Ho] Hl']; subst. unfold is_marker in Hm.
    cbn [fold_left flat_map]. rewrite (sanitize_step st v He), Hm, Ho.
    destruct (IH (Scan false (escapedArgs st) (sanitized st ++ tokens_of v)
                    (fold_left (fun m o => <[o := ABool true]> m) [] (parsed st)))
                eq_refl Hl') as (H1 & H2 & H3).
    rewrite H1, H2, H3. cbn [parsed escapedArgs sanitized fold_left].
    rewrite <- app_assoc. split_all; reflexivity.
Qed.

(** The walk over the tokens of [--k=v] for each [v] of a list stores
    the values under [k] one after the other. *)
Lemma walk_inline (k : string) (vs : list string) :
  HasPrefix k "no-" = false ->
  Forall (fun v => HasPrefix v "--" = false) vs ->
  forall (plain : list Arg) (flags : gmap string Arg),
    walk (flat_map (fun v => ["--" +:+ k; v]) vs) plain flags
    = (plain, fold_left (fun m v => store m k v) vs flags).
Proof.
  intros Hno Hvs. induction Hvs as [|v vs Hv _ IH]; intros plain flags; [reflexivity|].
  cbn [flat_map app walk fold_left].
  assert (Hp : HasPrefix ("--" +:+ k) "--" = true) by (destruct k; reflexivity).
  rewrite Hp, Hv. cbn [negb]. rewrite (Replace_prefix _ _ "" Hp).
  change ("" +:+ drop_bytes (String.length "--") ("--" +:+ k)) with k.
  rewrite Hno. cbn [andb]. apply IH.
Qed.

Lemma store_nest (k : string) (vs : list string) :
  forall (acc : Arg) (m : gmap string Arg),
    is_boolean acc = false ->
    fold_left (fun m v => store m k v) vs (<[k := acc]> m)
    = <[k := nest acc (map coerceArgument vs)]> m.
Proof.
  induction vs as [|v vs IH]; intros acc m Hacc; [reflexivity|].
  cbn [fold_left map]. unfold store at 2. rewrite lookup_insert_eq.
  unfold is_boolean in Hacc. rewrite Hacc, insert_insert_eq.
  rewrite IH by reflexivity. reflexivity.
Qed.

(** X15.  A flag given [n + 1] times with inline values, the first of
    which is no boolean, holds the values paired from the left, [n] deep:
    [[[v0, v1], v2], ...].  (The name has no [=] or blank, is not [_] and
    does not start with [no-]; the values have no blank and do not start
    with [--].) *)
Theorem Parse_repeated_flag (osArgs : list string) (k v : string) (vs : list string) :
  has_byte " " k = false -> has_byte "=" k = false ->
  k <> "_" -> HasPrefix k "no-" = false ->
  Forall (fun v => has_byte " " v = false /\ HasPrefix v "--" = false) (v :: vs) ->
  is_boolean (coerceArgument v) = false ->
  Parse osArgs (Some (map (inline k) (v :: vs)))
  = Returns
      (Some {[ "_" := ASlice [];
               k := nest (coerceArgument v) (map coerceArgument vs) ]},
       None).
Proof.
  intros Hbk Hek Hk Hno Hvs Hv.
  rewrite Parse_pipeline by (left; discriminate).
  unfold pipeline, arguments. fold scan0.
  assert (Hl : Forall (fun a => is_marker a = false /\ options_of a = [])
                 (map (inline k) (v :: vs))).
  { clear - Hbk Hek Hvs. induction Hvs as [|w ws [Hw _] _ IH]; [constructor|].
    cbn [map]. constructor; [|exact IH].
    destruct (tokens_of_inline k w Hbk Hek Hw) as (I1 & _ & I3). split; assumption. }
  destruct (sanitize_no_options _ scan0 eq_refl Hl) as (H1 & H2 & H3).
  rewrite H1, H2, H3. cbn [parsed escapedArgs sanitized scan0 app].
  assert (Ht : flat_map tokens_of (map (inline k) (v :: vs))
               = flat_map (fun w => ["--" +:+ k; w]) (v :: vs)).
  { clear - Hbk Hek Hvs. induction Hvs as [|w ws [Hw _] _ IH]; [reflexivity|].
    cbn [map flat_map]. rewrite IH.
    destruct (tokens_of_inline k w Hbk Hek Hw) as (_ & I2 & _).
    unfold inline at 1. rewrite I2. reflexivity. }
  rewrite Ht, walk_inline;
    [|exact Hno|eapply Forall_impl; [exact Hvs|]; intros w [_ Hw]; exact Hw].
  cbn [fold_left]. unfold store at 2. rewrite lookup_singleton_ne by congruence.
  rewrite (store_nest k vs _ _ Hv). rewrite app_nil_r.
  apply (f_equal (fun m => Returns (Some m, None))).
  apply map_eq. intros i. destruct (decide (i = "_")) as [->|Hi].
  - rewrite !lookup_insert_eq. reflexivity.
  - rewrite !(lookup_insert_ne _ "_") by congruence.
    destruct (decide (i = k)) as [->|Hik].
    + rewrite lookup_insert_eq, lookup_singleton_eq. reflexivity.
    + rewrite lookup_insert_ne by congruence.
      rewrite !lookup_singleton_ne by congruence. reflexivity.
Qed.

(** The hypotheses of X15, met by four values, a boolean among the later
    ones. *)
Lemma Parse_repeated_flag_witness :
  Parse [] (Some ["--x=a"; "--x=b"; "--x=true"; "--x=c"])
  = Returns
      (Some {[ "_" := ASlice [];
               "x" := ASlice [ASlice [ASlice [AString "a"; AString "b"]; ABool true];
                              AString "c"] ]},
       None).
Proof.
  refine (eq_trans (Parse_repeated_flag [] "x" "a" ["b"; "true"; "c"] eq_refl eq_refl _
                      eq_refl _ eq_refl) _).
  - discriminate.
  - repeat constructor.
  - vm_compute. reflexivity.
Defined.

(** ** The arguments of the process *)

(** X16.  [ParseArgs] reads the arguments of the process after the
    program name, as [Parse] reads that list when it is given: the
    program name plays no part, and a map comes back without error.  Only
    a process without any argument, not even its name, makes it return
    the error, and then no map. *)
Theorem ParseArgs_skips_program (osArgs osArgs' : list string) :
  match osArgs with
  | [] => ParseArgs osArgs = Returns (None, Some slice_bounds_out_of_range)
  | _ :: rest =>
      ParseArgs osArgs = Parse osArgs' (Some rest)
      /\ ParseArgs osArgs = Returns (Some (pipeline rest), None)
  end.
Proof.
  destruct osArgs as [|prog rest]; [reflexivity|].
  split; [reflexivity|].
  unfold ParseArgs. rewrite Parse_pipeline by (right; discriminate). reflexivity.
Qed.

(** ** No option is lost *)

(** The first loop never unbinds a key. *)
Lemma sanitize_dom (i : string) (l : list string) :
  forall st, is_Some (parsed st !! i) ->
    is_Some (parsed (fold_left sanitize l st) !! i).
Proof.
  induction l as [|v l IH]; intros st Hi; [exact Hi|].
  cbn [fold_left]. apply IH. unfold sanitize.
  destruct (String.eqb (Trim v " ") "--"); [exact Hi|].
  destruct (escaped st); [exact Hi|].
  destruct (HasPrefix (Trim v " ") "--"); [exact Hi|].
  destruct (HasPrefix (Trim v " ") "-"); [|exact Hi].
  cbn [parsed]. rewrite set_options_lookup.
  destruct (decide (i ∈ _)); [eauto|exact Hi].
Qed.

(** X17.  No option before the escape marker is lost: whatever stands
    around a bundle of options in ASCII, each of its characters but [_]
    is a key of the map.  (The option [_] is lost under the
    positionals.) *)
Theorem Parse_option_is_key (osArgs before after : list string) (o s : string) (c : ascii) :
  existsb is_marker before = false ->
  Trim o " " = "-" +:+ s -> HasPrefix s "-" = false -> is_ascii s = true ->
  In c (list_ascii_of_string s) -> c <> "_"%char ->
  exists m,
    Parse osArgs (Some (before ++ o :: after)) = Returns (Some m, None)
    /\ is_Some (m !! String c EmptyString).
Proof.
  intros Hm Ho Hd Ha Hc Hu. exists (pipeline (before ++ o :: after)).
  split; [apply (Parse_pipeline osArgs (Some (before ++ o :: after))); left; discriminate|].
  unfold pipeline. fold scan0. rewrite fold_left_app. cbn [fold_left].
  pose proof (no_marker_unescaped before Hm) as He.
  set (st := fold_left sanitize before scan0) in *.
  rewrite (sanitize_bundle st o s He Ho Hd Ha).
  match goal with
  | |- context [fold_left sanitize after ?st1] =>
      pose proof (sanitize_dom (String c EmptyString) after st1) as Hdom;
      set (r := fold_left sanitize after st1) in *
  end.
  cbn [parsed] in Hdom.
  assert (Hr : is_Some (parsed r !! String c EmptyString)).
  { apply Hdom. rewrite set_options_lookup. rewrite decide_True; [eauto|].
    unfold letters. apply list_elem_of_In.
    exact (in_map (fun c => String c EmptyString) _ _ Hc). }
  pose proof (walk_dom (String c EmptyString) _ (sanitized r) [] (parsed r)
                (Nat.le_refl _) Hr) as Hw.
  destruct (walk (sanitized r) [] (parsed r)) as [plain flags]. cbn [snd] in Hw.
  rewrite lookup_insert_ne by congruence. exact Hw.
Qed.

(** The hypotheses of X17, met by an option that a flag of its name then
    overrides. *)
Lemma Parse_option_is_key_witness :
  exists m,
    Parse [] (Some ["--v=3"; " -xv "; "--"; "-q"]) = Returns (Some m, None)
    /\ is_Some (m !! "v").
Proof.
  refine (Parse_option_is_key [] ["--v=3"] ["--"; "-q"] " -xv " "xv" "v" eq_refl eq_refl
            eq_refl eq_refl _ _); [right; left; reflexivity|discriminate].
Defined.
